(** * The command bridge of the Figma MCP server

    A shallow embedding of the command bridge (the in-memory command queue,
    its HTTP relay and the producer functions of the bridge server module)
    and of the polling executor (the plugin program that the bridge serves
    and the stand-alone plugin file), with the properties of the bridge
    specification stated and settled over them.

    - [Js]: the JavaScript values the bridge moves around (JSON payloads),
      with the few operators the code applies to them: truthiness, property
      read, string conversion, iteration.
    - [Bridge]: [queueCommand], [queueBatch], [getPendingCommands],
      [completeCommand], [clearCommands] and the request listener of
      [startBridgeServer].
    - [Plugin]: the handler table with its [batch] handler, and the poll loop
      [pollCommands] of both plugin programs as an event-driven machine. *)

From Stdlib Require Import ZArith NArith List String Ascii Lia Bool.
From stdpp Require Import base tactics option list strings pretty gmap.

Local Open Scope Z_scope.
Local Open Scope string_scope.

(** ** JavaScript values *)

Module Js.

(** Values that travel through the bridge: JSON payloads plus [undefined].
    Numbers are the integers (the bridge itself only produces time stamps and
    counts); an object is its list of own properties in insertion order. *)
#[warnings="-register-all"]
Inductive JsValue : Type :=
| JUndefined
| JNull
| JBool (b : bool)
| JNum (n : Z)
| JStr (s : string)
| JArr (items : list JsValue)
| JObj (fields : list (string * JsValue)).

(** The run-time errors the modelled code can raise by itself. The text of
    their [message] belongs to the host engine. *)
Inductive TypeErrorKind : Type :=
| ReadPropertyOf (base : JsValue) (key : string)
| NotIterable (v : JsValue)
| NotCallable (callee : string).

(** ToBoolean. *)
Definition js_truthy (v : JsValue) : bool :=
  match v with
  | JUndefined | JNull => false
  | JBool b => b
  | JNum n => negb (n =? 0)%Z
  | JStr s => negb (String.eqb s EmptyString)
  | JArr _ | JObj _ => true
  end.

(** [a || b]. *)
Definition js_or (a b : JsValue) : JsValue := if js_truthy a then a else b.

(** The first binding of [key] in a property list. *)
Fixpoint assoc_get (key : string) (fields : list (string * JsValue)) : JsValue :=
  match fields with
  | [] => JUndefined
  | (k, v) :: rest => if String.eqb k key then v else assoc_get key rest
  end.

(** [base.key] for the property names the bridge reads ([result], [error],
    [commands], [type], [params]): none of them is a built-in member of a
    string, an array, a number or a boolean, so only an object can hold one;
    reading a property of [null] or [undefined] throws. *)
Definition js_get (base : JsValue) (key : string) : TypeErrorKind + JsValue :=
  match base with
  | JUndefined | JNull => inl (ReadPropertyOf base key)
  | JObj fields => inr (assoc_get key fields)
  | _ => inr JUndefined
  end.

(** [Array.prototype.join] on already converted elements. *)
Fixpoint join_with (sep : string) (parts : list string) : string :=
  match parts with
  | [] => EmptyString
  | [p] => p
  | p :: rest => p +:+ sep +:+ join_with sep rest
  end.

(** ToString, as applied by string concatenation and by a computed property
    key: an array joins its elements with a comma, [null] and [undefined]
    elements giving the empty text. *)
Fixpoint js_to_string (v : JsValue) : string :=
  match v with
  | JUndefined => "undefined"
  | JNull => "null"
  | JBool true => "true"
  | JBool false => "false"
  | JNum n => pretty n
  | JStr s => s
  | JArr items =>
      join_with ","
        (List.map (fun item =>
                     match item with
                     | JUndefined | JNull => EmptyString
                     | _ => js_to_string item
                     end) items)
  | JObj _ => "[object Object]"
  end.

(** The values a [for ... of] loop visits: the elements of an array, the
    characters of a string; any other value is not iterable. *)
Fixpoint string_chars (s : string) : list JsValue :=
  match s with
  | EmptyString => []
  | String c rest => JStr (String c EmptyString) :: string_chars rest
  end.

Definition js_iterate (v : JsValue) : TypeErrorKind + list JsValue :=
  match v with
  | JArr items => inr items
  | JStr s => inr (string_chars s)
  | _ => inl (NotIterable v)
  end.

(** Nesting depth of a value, the measure that bounds nested batches. *)
Fixpoint js_depth (v : JsValue) : nat :=
  match v with
  | JArr items => S (list_max (List.map js_depth items))
  | JObj fields => S (list_max (List.map (fun kv => js_depth (snd kv)) fields))
  | _ => O
  end.

End Js.

(** ** The bridge server: queue, producer functions and request listener *)

Module Bridge.
Import Js.

Inductive Status : Type := pending | executing | completed | failed.

Definition status_eqb (a b : Status) : bool :=
  match a, b with
  | pending, pending | executing, executing
  | completed, completed | failed, failed => true
  | _, _ => false
  end.

(** [DesignCommand]. The fields hold what they hold at run time: [type] is a
    string of the enumeration for a caller that respects the declared type
    and [JUndefined] when the caller left it out; an absent [result] or
    [error] is [JUndefined]; an absent [completedAt] is [None]. *)
Record DesignCommand : Type := {
  cmd_id : string;
  cmd_type : JsValue;
  cmd_params : JsValue;
  cmd_status : Status;
  cmd_result : JsValue;
  cmd_error : JsValue;
  cmd_createdAt : Z;
  cmd_completedAt : option Z
}.

(** The argument of [queueCommand]: a [DesignCommand] without [id],
    [status] and [createdAt]. *)
Record CommandSpec : Type := {
  spec_type : JsValue;
  spec_params : JsValue;
  spec_result : JsValue;
  spec_error : JsValue;
  spec_completedAt : option Z
}.

Record CommandQueue : Type := {
  commands : list DesignCommand;
  fileKey : option string
}.

(** The module state: the queue, and how many times the clock and the random
    generator have been read so far. *)
Record Relay : Type := {
  queue : CommandQueue;
  clock_reads : nat;
  random_draws : nat
}.

(** The command types of the declared enumeration. *)
Definition command_types : list string :=
  [ "create_page"; "rename_page"; "delete_page";
    "move_node"; "rename_node"; "delete_node";
    "create_frame"; "create_component"; "create_style";
    "group_nodes"; "ungroup_node";
    "set_property"; "batch" ].

(** What a producer call leaves of its argument in the stored command. *)
Definition spec_of (c : DesignCommand) : CommandSpec :=
  {| spec_type := cmd_type c; spec_params := cmd_params c;
     spec_result := cmd_result c; spec_error := cmd_error c;
     spec_completedAt := cmd_completedAt c |}.

Definition is_pending (c : DesignCommand) : bool :=
  status_eqb (cmd_status c) pending.

(** The identifier template: [cmd_], the clock reading in decimal, [_], and
    [substr(2, 9)] of the base-36 text of the random draw. *)
Definition id_of_parts (now : Z) (suffix : string) : string :=
  "cmd_" +:+ pretty now +:+ "_" +:+ suffix.

Definition fresh_id (now : Z) (random36 : string) : string :=
  id_of_parts now (String.substring 2 9 random36).

(** [queue.commands.find(c => c.id === id)]. *)
Fixpoint find_command (id : string) (cs : list DesignCommand) : option DesignCommand :=
  match cs with
  | [] => None
  | c :: rest => if String.eqb (cmd_id c) id then Some c else find_command id rest
  end.

(** The four assignments of [completeCommand] on the command found. *)
Definition mark_complete (result error : JsValue) (now : Z) (c : DesignCommand)
  : DesignCommand :=
  {| cmd_id := cmd_id c; cmd_type := cmd_type c; cmd_params := cmd_params c;
     cmd_status := if js_truthy error then failed else completed;
     cmd_result := result;
     cmd_error := error;
     cmd_createdAt := cmd_createdAt c;
     cmd_completedAt := Some now |}.

(** The array after the in-place update of the command that [find] returns:
    the first one whose id matches. *)
Fixpoint update_first (id : string) (f : DesignCommand -> DesignCommand)
  (cs : list DesignCommand) : list DesignCommand :=
  match cs with
  | [] => []
  | c :: rest =>
      if String.eqb (cmd_id c) id then f c :: rest
      else c :: update_first id f rest
  end.

(** The path test of the completion route,
    [/^\/commands\/([^/]+)\/complete$/]: the captured id. *)
Fixpoint strip_prefix (p s : string) : option string :=
  match p, s with
  | EmptyString, _ => Some s
  | String a p', String b s' => if Ascii.eqb a b then strip_prefix p' s' else None
  | String _ _, EmptyString => None
  end.

Fixpoint split_slash (s : string) : string * option string :=
  match s with
  | EmptyString => (EmptyString, None)
  | String c rest =>
      if Ascii.eqb c "/"%char then (EmptyString, Some s)
      else let '(seg, tail) := split_slash rest in (String c seg, tail)
  end.

Definition match_complete (pathname : string) : option string :=
  match strip_prefix "/commands/" pathname with
  | None => None
  | Some rest =>
      match split_slash rest with
      | (seg, Some tail) =>
          if negb (String.eqb seg EmptyString) && String.eqb tail "/complete"
          then Some seg else None
      | (_, None) => None
      end
  end.

(** An incoming request as the listener receives it: the method, the
    request target ([req.url]) and the body as read up to the [end] event. *)
Record RawRequest : Type := {
  raw_method : string;
  raw_url : string;
  raw_body : string
}.

(** A request whose target [new URL] has accepted: the method, the
    [pathname] extracted from the target, and the body. *)
Record Request : Type := {
  req_method : string;
  req_pathname : string;
  req_body : string
}.

(** The value handed to [JSON.stringify] for the response ([PayloadNone]: the
    response ends without a body; [PayloadPluginCode]: the program text
    generated for the port). *)
Inductive Payload : Type :=
| PayloadNone
| PayloadPending (file_key : option string) (cmds : list DesignCommand)
| PayloadQueue (q : CommandQueue)
| PayloadSuccess (success : bool)
| PayloadError (message : string)
| PayloadHealth (pendingCommands totalCommands : nat)
| PayloadPluginCode (port : nat).

Record Response : Type := {
  res_status : nat;
  res_payload : Payload
}.

(** How a call of the listener ends: with a response written and the relay
    as the call leaves it, or with an exception that nothing in the listener
    catches, in which case no response is written. *)
Inductive Ending : Type :=
| Answered (res : Response) (r : Relay)
| Uncaught.

Section Server.

(** The host: the value of the n-th call of [Date.now()], the text of
    [Math.random().toString(36)] at the n-th draw, [JSON.parse] ([None] when
    it throws), the port the server listens on, and the [pathname] of
    [new URL(target, base)] for the base of the server ([None] when the
    constructor throws). *)
Variable Date_now : nat -> Z.
Variable Math_random_base36 : nat -> string.
Variable JSON_parse : string -> option JsValue.
Variable port : nat.
Variable URL_pathname : string -> option string.

Definition queueCommand (command : CommandSpec) (r : Relay) : DesignCommand * Relay :=
  let cmd :=
    {| cmd_id := fresh_id (Date_now (clock_reads r))
                          (Math_random_base36 (random_draws r));
       cmd_type := spec_type command;
       cmd_params := spec_params command;
       cmd_status := pending;
       cmd_result := spec_result command;
       cmd_error := spec_error command;
       cmd_createdAt := Date_now (S (clock_reads r));
       cmd_completedAt := spec_completedAt command |} in
  (cmd,
   {| queue := {| commands := commands (queue r) ++ [cmd];
                  fileKey := fileKey (queue r) |};
      clock_reads := S (S (clock_reads r));
      random_draws := S (random_draws r) |}).

(** [commands.map(cmd => queueCommand(cmd))]. *)
Fixpoint enqueue_all (specs : list CommandSpec) (r : Relay)
  : list DesignCommand * Relay :=
  match specs with
  | [] => ([], r)
  | s :: rest =>
      let '(c, r1) := queueCommand s r in
      let '(cs, r2) := enqueue_all rest r1 in
      (c :: cs, r2)
  end.

Definition queueBatch (file_key : string) (specs : list CommandSpec) (r : Relay)
  : list DesignCommand * Relay :=
  enqueue_all specs
    {| queue := {| commands := commands (queue r); fileKey := Some file_key |};
       clock_reads := clock_reads r;
       random_draws := random_draws r |}.

Definition getPendingCommands (r : Relay) : list DesignCommand :=
  List.filter is_pending (commands (queue r)).

Definition getAllCommands (r : Relay) : CommandQueue := queue r.

Definition completeCommand (id : string) (result error : JsValue) (r : Relay)
  : bool * Relay :=
  match find_command id (commands (queue r)) with
  | None => (false, r)
  | Some _ =>
      (true,
       {| queue :=
            {| commands :=
                 update_first id
                   (mark_complete result error (Date_now (clock_reads r)))
                   (commands (queue r));
               fileKey := fileKey (queue r) |};
          clock_reads := S (clock_reads r);
          random_draws := random_draws r |})
  end.

Definition clearCommands (r : Relay) : Relay :=
  {| queue := {| commands := []; fileKey := None |};
     clock_reads := clock_reads r;
     random_draws := random_draws r |}.

(** The [try] block of the completion route: [None] when it throws, either
    in [JSON.parse] or in reading a property of the parsed value. *)
Definition read_report (body : string) : option (JsValue * JsValue) :=
  match (if String.eqb body EmptyString then Some (JObj []) else JSON_parse body) with
  | None => None
  | Some data =>
      match js_get data "result", js_get data "error" with
      | inr result, inr error => Some (result, error)
      | _, _ => None
      end
  end.

(** The request listener of [startBridgeServer] from the point where the
    target has been parsed, run to the end of the request. *)
Definition handle_request (req : Request) (r : Relay) : Response * Relay :=
  if String.eqb (req_method req) "OPTIONS" then
    ({| res_status := 200; res_payload := PayloadNone |}, r)
  else if String.eqb (req_method req) "GET"
          && String.eqb (req_pathname req) "/commands" then
    ({| res_status := 200;
        res_payload := PayloadPending (fileKey (queue r)) (getPendingCommands r) |}, r)
  else if String.eqb (req_method req) "GET"
          && String.eqb (req_pathname req) "/commands/all" then
    ({| res_status := 200; res_payload := PayloadQueue (queue r) |}, r)
  else
    match (if String.eqb (req_method req) "POST"
           then match_complete (req_pathname req) else None) with
    | Some commandId =>
        match read_report (req_body req) with
        | Some (result, error) =>
            let '(success, r') := completeCommand commandId result error r in
            ({| res_status := if success then 200 else 404;
                res_payload := PayloadSuccess success |}, r')
        | None =>
            ({| res_status := 400; res_payload := PayloadError "Invalid JSON" |}, r)
        end
    | None =>
        if String.eqb (req_method req) "DELETE"
           && String.eqb (req_pathname req) "/commands" then
          ({| res_status := 200; res_payload := PayloadSuccess true |},
           clearCommands r)
        else if String.eqb (req_method req) "GET"
                && String.eqb (req_pathname req) "/health" then
          ({| res_status := 200;
              res_payload := PayloadHealth (length (getPendingCommands r))
                                           (length (commands (queue r))) |}, r)
        else if String.eqb (req_method req) "GET"
                && String.eqb (req_pathname req) "/plugin" then
          ({| res_status := 200; res_payload := PayloadPluginCode port |}, r)
        else
          ({| res_status := 404; res_payload := PayloadError "Not found" |}, r)
    end.

(** [req.url || '/']. *)
Definition target (raw : RawRequest) : string :=
  if String.eqb (raw_url raw) EmptyString then "/" else raw_url raw.

(** The request listener of [startBridgeServer] as it is called: the
    preflight is answered before the target is looked at; for every other
    method [new URL] is called outside any [try], so a target it rejects
    ends the call with the exception. *)
Definition listener (raw : RawRequest) (r : Relay) : Ending :=
  if String.eqb (raw_method raw) "OPTIONS" then
    Answered {| res_status := 200; res_payload := PayloadNone |} r
  else
    match URL_pathname (target raw) with
    | None => Uncaught
    | Some pathname =>
        let '(res, r') :=
          handle_request {| req_method := raw_method raw;
                            req_pathname := pathname;
                            req_body := raw_body raw |} r in
        Answered res r'
    end.

(** *** The operations on the relay

    What can reach the queue: the exported functions, called in process by
    the tool layer, and the requests served by the listener, each taken
    with the pathname of its target. *)
Inductive Operation : Type :=
| OpQueueCommand (command : CommandSpec)
| OpQueueBatch (file_key : string) (specs : list CommandSpec)
| OpGetPendingCommands
| OpGetAllCommands
| OpCompleteCommand (id : string) (result error : JsValue)
| OpClearCommands
| OpRequest (req : Request).

Definition perform (op : Operation) (r : Relay) : Relay :=
  match op with
  | OpQueueCommand command => snd (queueCommand command r)
  | OpQueueBatch file_key specs => snd (queueBatch file_key specs r)
  | OpGetPendingCommands | OpGetAllCommands => r
  | OpCompleteCommand id result error => snd (completeCommand id result error r)
  | OpClearCommands => clearCommands r
  | OpRequest req => snd (handle_request req r)
  end.

Definition perform_all (ops : list Operation) (r : Relay) : Relay :=
  fold_left (fun r op => perform op r) ops r.

(** The explicit clear-all: [clearCommands()] and [DELETE /commands]. *)
Definition is_clear_all (op : Operation) : bool :=
  match op with
  | OpClearCommands => true
  | OpRequest req =>
      String.eqb (req_method req) "DELETE" && String.eqb (req_pathname req) "/commands"
  | _ => false
  end.

(** A sequence of producer calls, and the command specs it hands over, in
    call order. *)
Inductive ProducerCall : Type :=
| CallQueueCommand (command : CommandSpec)
| CallQueueBatch (file_key : string) (specs : list CommandSpec).

Definition produce_one (call : ProducerCall) (r : Relay) : Relay :=
  match call with
  | CallQueueCommand command => snd (queueCommand command r)
  | CallQueueBatch file_key specs => snd (queueBatch file_key specs r)
  end.

Definition produce (calls : list ProducerCall) (r : Relay) : Relay :=
  fold_left (fun r call => produce_one call r) calls r.

Fixpoint requested (calls : list ProducerCall) : list CommandSpec :=
  match calls with
  | [] => []
  | CallQueueCommand command :: rest => command :: requested rest
  | CallQueueBatch _ specs :: rest => specs ++ requested rest
  end.

(** The (time stamp, suffix) pairs that the identifiers of [n] successive
    [queueCommand] calls are built from. *)
Definition id_seeds (r : Relay) (n : nat) : list (Z * string) :=
  List.map (fun i => (Date_now (clock_reads r + 2 * i)%nat,
                      String.substring 2 9 (Math_random_base36 (random_draws r + i)%nat)))
           (seq 0 n).

End Server.

(** Texts in which a character does not occur. A text without a slash is
    what the completion route can capture; a text without an underscore is
    what the identifier template can hold before its second underscore. *)
Fixpoint lacks (c : ascii) (s : string) : bool :=
  match s with
  | EmptyString => true
  | String a rest => negb (Ascii.eqb a c) && lacks c rest
  end.

Definition slash_free (s : string) : bool := lacks "/"%char s.

Definition underscore_free (s : string) : bool := lacks "_"%char s.

Definition is_digit_or_minus (c : ascii) : bool :=
  existsb (Ascii.eqb c)
    [ "0"; "1"; "2"; "3"; "4"; "5"; "6"; "7"; "8"; "9"; "-" ]%char.

Definition empty_relay : Relay :=
  {| queue := {| commands := []; fileKey := None |};
     clock_reads := 0; random_draws := 0 |}.

End Bridge.

(** ** The polling executor: handler table and poll loop *)

Module Plugin.
Import Js.

(** How a handler call ends: with a value, or with an error of which the
    caller reads the [message]. *)
Inductive Outcome : Type :=
| Returned (v : JsValue)
| Threw (message : string).

(** A command as the executor reads it from a poll response: the relay
    always sends its own string ids. *)
Record PolledCommand : Type := {
  pc_id : string;
  pc_type : JsValue;
  pc_params : JsValue
}.

(** The two plugin programs of the repository: the text the bridge server
    generates and serves under [/plugin], and the stand-alone plugin file,
    which adds the [executingCommands] guard and the connection probe. *)
Inductive Edition : Type := Served | Standalone.

(** Whether the engine accepts the program text. The text that
    [generatePluginCode] returns holds, in its [set_property] handler, the
    TypeScript cast [(node as any)[key] = value], which is not JavaScript:
    the program is rejected as a whole when it is loaded, none of its
    statements runs and no message handler is installed. The stand-alone
    file has [node[key] = value] there. *)
Definition loads (ed : Edition) : bool :=
  match ed with Standalone => true | Served => false end.

Definition guarded (ed : Edition) : bool :=
  match ed with Standalone => true | Served => false end.

(** The body of a completion report, before [JSON.stringify]. *)
Inductive ReportBody : Type :=
| ReportResult (result : JsValue)
| ReportError (message : string).

Inductive Notice : Type :=
| NoticeDone (type : JsValue)
| NoticeFailed (type : JsValue) (message : string)
| NoticeConnected (at_url : option string)
| NoticeDisconnected
| NoticeRefused (url : string).

(** What the executor does to the outside: requests, handler calls,
    notifications and messages to its UI. [PostComplete bridge id body] is
    the POST to [bridge + '/commands/' + id + '/complete']. *)
Inductive Effect : Type :=
| FetchCommands (bridge : string)
| FetchHealth (bridge : string)
| Invoke (cmd : PolledCommand)
| PostComplete (bridge : string) (id : string) (body : ReportBody)
| Notify (n : Notice)
| PostMessage (type : string).

Inductive TimerAction : Type :=
| Evict (id : string)
| Repoll.

Definition POLL_INTERVAL : N := 1000.
Definition EVICTION_DELAY : N := 5000.

(** The twelve handlers written against the document API. *)
Definition document_commands : list string :=
  [ "create_page"; "rename_page"; "delete_page";
    "move_node"; "rename_node"; "delete_node";
    "create_frame"; "create_component"; "create_style";
    "group_nodes"; "ungroup_node";
    "set_property" ].

Section Executor.

(** The host: the document the handlers act on, the bodies of the twelve
    document handlers (each a function of its [params] and the document),
    the members an object literal inherits, and the message texts of the
    engine's type errors. *)
Variable Doc : Type.

(** A handler, as the function from its [params] and the document it finds
    to its outcome and the document it leaves. The handlers of the source
    are asynchronous, and those that look a node up wait for the lookup
    before they touch the document: the machine below books the whole
    effect of a call at the turn that makes the call and delivers the
    outcome at the turn in which the call settles. The [document] field is
    therefore the document as the calls made so far leave it once each has
    run to its end; what the host holds while a call is still under way, or
    while the calls of two poll loops are interleaved, is not described. *)
Definition Handler : Type := JsValue -> Doc -> Outcome * Doc.

(** What [handlers[key]] can be when it is not [undefined]: a function, with
    what it does when called as a method of the table and when called on its
    own (the handlers of the source are arrow functions, for which the two
    agree; an inherited member may depend on its receiver), or an object
    that cannot be called. *)
Inductive Member : Type :=
| Callable (as_method as_function : Handler)
| NotAFunction.

Definition own (h : Handler) : Member := Callable h h.

Variable document_handler : string -> Handler.
Variable Object_prototype : string -> option Member.
Variable TypeError_message : TypeErrorKind -> string.

(** [handlers[cmd.type](params)] for a member that passed the truthiness
    test. *)
Definition call_method (m : Member) : Handler :=
  match m with
  | Callable h _ => h
  | NotAFunction =>
      fun _ d => (Threw (TypeError_message (NotCallable "handlers[cmd.type]")), d)
  end.

(** The entry a batch pushes for one sub-command. *)
Definition batch_entry (type : JsValue) (out : Outcome) : JsValue :=
  match out with
  | Returned result =>
      JObj [("type", type); ("success", JBool true); ("result", result)]
  | Threw message =>
      JObj [("type", type); ("success", JBool false); ("error", JStr message)]
  end.

(** The inner [try] of the batch loop: the member is called on
    [cmd.params], and whatever is thrown there is caught. *)
Definition run_sub (m : Member) (cmd : JsValue) (d : Doc) : Outcome * Doc :=
  match js_get cmd "params" with
  | inl e => (Threw (TypeError_message e), d)
  | inr params => call_method m params d
  end.

(** The [for] loop of the batch handler over a given handler table. Reading
    [cmd.type] happens outside the inner [try]: on a [null] element it ends
    the whole batch with a type error. *)
Fixpoint batch_loop (table : string -> option Member) (items results : list JsValue)
  (d : Doc) : Outcome * Doc :=
  match items with
  | [] => (Returned (JObj [("batchResults", JArr results)]), d)
  | cmd :: rest =>
      match js_get cmd "type" with
      | inl e => (Threw (TypeError_message e), d)
      | inr type =>
          match table (js_to_string type) with
          | None => batch_loop table rest results d
          | Some m =>
              let '(out, d') := run_sub m cmd d in
              batch_loop table rest (results ++ [batch_entry type out]) d'
          end
      end
  end.

Definition batch_body (table : string -> option Member) : Handler :=
  fun params d =>
    match js_get params "commands" with
    | inl e => (Threw (TypeError_message e), d)
    | inr commands =>
        match js_iterate (js_or commands (JArr [])) with
        | inl e => (Threw (TypeError_message e), d)
        | inr items => batch_loop table items [] d
        end
    end.

(** The object literal [handlers], given the body of its [batch] member. *)
Definition table_with (batch_handler : Handler) (key : string) : option Member :=
  if existsb (String.eqb key) document_commands
  then Some (own (document_handler key))
  else if String.eqb key "batch" then Some (own batch_handler)
  else Object_prototype key.

(** The batch handler calls itself through the table. The recursion is tied
    on the nesting depth of the parameters; [batch_unfold] below shows the
    bound is never met. *)
Definition nesting_exhausted : Handler :=
  fun _ d => (Threw "Maximum call stack size exceeded", d).

Fixpoint batch_upto (n : nat) : Handler :=
  match n with
  | O => nesting_exhausted
  | S n' => batch_body (table_with (batch_upto n'))
  end.

Definition batch : Handler :=
  fun params d => batch_upto (S (js_depth params)) params d.

Definition handlers : string -> option Member := table_with batch.

(** *** The poll loop as a machine *)

(** Where an activation of [pollCommands] or of the [start] message handler
    waits. [Running] holds the outcome the handler call will deliver. *)
Inductive Task : Type :=
| Connecting (url : string)
| Polling
| Running (cmd : PolledCommand) (out : Outcome) (rest : list PolledCommand)
| ReportingSuccess (cmd : PolledCommand) (rest : list PolledCommand)
| ReportingFailure (cmd : PolledCommand) (message : string) (rest : list PolledCommand)
| Finished.

Record Executor : Type := {
  BRIDGE_URL : string;
  isRunning : bool;
  executingCommands : gset string;
  document : Doc;
  tasks : list Task;
  timers : list (N * TimerAction);
  now : N;
  log : list (N * Effect)
}.

Definition boot (url : string) (d : Doc) : Executor :=
  {| BRIDGE_URL := url; isRunning := false; executingCommands := ∅;
     document := d; tasks := []; timers := []; now := 0%N; log := [] |}.

Definition emit (e : Effect) (x : Executor) : Executor :=
  {| BRIDGE_URL := BRIDGE_URL x; isRunning := isRunning x;
     executingCommands := executingCommands x; document := document x;
     tasks := tasks x; timers := timers x; now := now x;
     log := log x ++ [(now x, e)] |}.

Definition set_task (k : nat) (t : Task) (x : Executor) : Executor :=
  {| BRIDGE_URL := BRIDGE_URL x; isRunning := isRunning x;
     executingCommands := executingCommands x; document := document x;
     tasks := <[k := t]> (tasks x); timers := timers x; now := now x;
     log := log x |}.

Definition spawn (t : Task) (x : Executor) : Executor :=
  {| BRIDGE_URL := BRIDGE_URL x; isRunning := isRunning x;
     executingCommands := executingCommands x; document := document x;
     tasks := tasks x ++ [t]; timers := timers x; now := now x;
     log := log x |}.

Definition setTimeout (a : TimerAction) (delay : N) (x : Executor) : Executor :=
  {| BRIDGE_URL := BRIDGE_URL x; isRunning := isRunning x;
     executingCommands := executingCommands x; document := document x;
     tasks := tasks x; timers := timers x ++ [((now x + delay)%N, a)];
     now := now x; log := log x |}.

Definition set_executing (s : gset string) (x : Executor) : Executor :=
  {| BRIDGE_URL := BRIDGE_URL x; isRunning := isRunning x;
     executingCommands := s; document := document x;
     tasks := tasks x; timers := timers x; now := now x; log := log x |}.

Definition set_document (d : Doc) (x : Executor) : Executor :=
  {| BRIDGE_URL := BRIDGE_URL x; isRunning := isRunning x;
     executingCommands := executingCommands x; document := d;
     tasks := tasks x; timers := timers x; now := now x; log := log x |}.

Definition set_running (b : bool) (x : Executor) : Executor :=
  {| BRIDGE_URL := BRIDGE_URL x; isRunning := b;
     executingCommands := executingCommands x; document := document x;
     tasks := tasks x; timers := timers x; now := now x; log := log x |}.

Definition set_bridge (url : string) (x : Executor) : Executor :=
  {| BRIDGE_URL := url; isRunning := isRunning x;
     executingCommands := executingCommands x; document := document x;
     tasks := tasks x; timers := timers x; now := now x; log := log x |}.

Definition drop_timer (k : nat) (x : Executor) : Executor :=
  {| BRIDGE_URL := BRIDGE_URL x; isRunning := isRunning x;
     executingCommands := executingCommands x; document := document x;
     tasks := tasks x; timers := delete k (timers x); now := now x;
     log := log x |}.

Definition advance (dt : N) (x : Executor) : Executor :=
  {| BRIDGE_URL := BRIDGE_URL x; isRunning := isRunning x;
     executingCommands := executingCommands x; document := document x;
     tasks := tasks x; timers := timers x; now := (now x + dt)%N;
     log := log x |}.

(** [pollCommands()] up to its first [await]. *)
Definition pollCommands (x : Executor) : Executor :=
  if isRunning x
  then spawn Polling (emit (FetchCommands (BRIDGE_URL x)) x)
  else x.

(** The [finally] block of one loop iteration (stand-alone plugin only). *)
Definition finally (ed : Edition) (cmd : PolledCommand) (x : Executor) : Executor :=
  if guarded ed then setTimeout (Evict (pc_id cmd)) EVICTION_DELAY x else x.

(** Leaving the outer [try]: the next poll is scheduled and the activation
    ends. *)
Definition reschedule (k : nat) (x : Executor) : Executor :=
  set_task k Finished (setTimeout Repoll POLL_INTERVAL x).

(** The catch block up to its [await]: the failure report is sent. *)
Definition report_failure (k : nat) (cmd : PolledCommand) (message : string)
  (rest : list PolledCommand) (x : Executor) : Executor :=
  set_task k (ReportingFailure cmd message rest)
    (emit (PostComplete (BRIDGE_URL x) (pc_id cmd) (ReportError message)) x).

(** The [for] loop of activation [k] from the commands still to visit, up to
    the next [await]. *)
Fixpoint run_loop (ed : Edition) (k : nat) (cmds : list PolledCommand)
  (x : Executor) : Executor :=
  match cmds with
  | [] => reschedule k x
  | cmd :: rest =>
      if guarded ed && bool_decide (pc_id cmd ∈ executingCommands x)
      then run_loop ed k rest x
      else
        let x1 :=
          if guarded ed
          then set_executing ({[ pc_id cmd ]} ∪ executingCommands x) x
          else x in
        match handlers (js_to_string (pc_type cmd)) with
        | None =>
            report_failure k cmd
              ("Unknown command type: " +:+ js_to_string (pc_type cmd)) rest x1
        | Some NotAFunction =>
            report_failure k cmd
              (TypeError_message (NotCallable "handler")) rest x1
        | Some (Callable _ handler) =>
            let '(out, d') := handler (pc_params cmd) (document x1) in
            set_task k (Running cmd out rest)
              (emit (Invoke cmd) (set_document d' x1))
        end
  end.

(** What the event loop delivers to the plugin. A settled request carries
    [None] when it succeeded and the error message otherwise. *)
Inductive Event : Type :=
| UiMessage (type : string) (bridgeUrl : JsValue)
| HealthSettled (k : nat) (failure : option string)
| PollSettled (k : nat) (response : option (list PolledCommand))
| HandlerSettled (k : nat)
| PostSettled (k : nat) (failure : option string)
| TimerFired (k : nat)
| Tick (dt : N).

(** [figma.ui.onmessage]. *)
Definition on_message (ed : Edition) (type : string) (bridgeUrl : JsValue)
  (x : Executor) : Executor :=
  if String.eqb type "start" then
    match ed with
    | Served =>
        emit (Notify (NoticeConnected None))
          (pollCommands (set_running true x))
    | Standalone =>
        let url := js_to_string (js_or bridgeUrl (JStr (BRIDGE_URL x))) in
        spawn (Connecting url) (emit (FetchHealth url) x)
    end
  else if String.eqb type "stop" then
    match ed with
    | Served => emit (Notify NoticeDisconnected) (set_running false x)
    | Standalone =>
        emit (PostMessage "disconnected")
          (emit (Notify NoticeDisconnected)
             (set_executing ∅ (set_running false x)))
    end
  else x.

(** The [start] handler after [await checkConnection(url)]. *)
Definition on_health (k : nat) (url : string) (failure : option string)
  (x : Executor) : Executor :=
  match failure with
  | Some _ =>
      set_task k Finished
        (emit (PostMessage "connection_failed")
           (emit (Notify (NoticeRefused url)) x))
  | None =>
      set_task k Finished
        (emit (PostMessage "connection_success")
           (emit (Notify (NoticeConnected (Some url)))
              (pollCommands
                 (set_executing ∅ (set_running true (set_bridge url x))))))
  end.

Definition fire (a : TimerAction) (x : Executor) : Executor :=
  match a with
  | Evict id => set_executing (executingCommands x ∖ {[ id ]}) x
  | Repoll => pollCommands x
  end.

(** One turn of the event loop, as the statements of the program text
    describe it; for the served text, which the engine rejects, these are
    turns that never take place, and [execute] below gives what the program
    as loaded does. An event that does not match the state of the task or
    timer it names changes nothing. *)
Definition step (ed : Edition) (ev : Event) (x : Executor) : Executor :=
  match ev with
  | UiMessage type bridgeUrl => on_message ed type bridgeUrl x
  | HealthSettled k failure =>
      match tasks x !! k with
      | Some (Connecting url) => on_health k url failure x
      | _ => x
      end
  | PollSettled k response =>
      match tasks x !! k, response with
      | Some Polling, Some cmds => run_loop ed k cmds x
      | Some Polling, None => reschedule k x
      | _, _ => x
      end
  | HandlerSettled k =>
      match tasks x !! k with
      | Some (Running cmd (Returned result) rest) =>
          set_task k (ReportingSuccess cmd rest)
            (emit (PostComplete (BRIDGE_URL x) (pc_id cmd) (ReportResult result)) x)
      | Some (Running cmd (Threw message) rest) =>
          report_failure k cmd message rest x
      | _ => x
      end
  | PostSettled k failure =>
      match tasks x !! k, failure with
      | Some (ReportingSuccess cmd rest), None =>
          run_loop ed k rest
            (finally ed cmd (emit (Notify (NoticeDone (pc_type cmd))) x))
      | Some (ReportingSuccess cmd rest), Some message =>
          report_failure k cmd message rest x
      | Some (ReportingFailure cmd message rest), None =>
          run_loop ed k rest
            (finally ed cmd
               (emit (Notify (NoticeFailed (pc_type cmd) message)) x))
      | Some (ReportingFailure cmd _ _), Some _ =>
          reschedule k (finally ed cmd x)
      | _, _ => x
      end
  | TimerFired k =>
      match timers x !! k with
      | Some (due, a) =>
          if (due <=? now x)%N then fire a (drop_timer k x) else x
      | None => x
      end
  | Tick dt => advance dt x
  end.

Definition run (ed : Edition) (evs : list Event) (x : Executor) : Executor :=
  fold_left (fun x ev => step ed ev x) evs x.

(** What the plugin as shipped makes of the events it is sent: a program
    that the engine rejected has installed nothing and no event reaches
    it. *)
Definition execute (ed : Edition) (evs : list Event) (x : Executor) : Executor :=
  if loads ed then run ed evs x else x.

(** The handler calls of command [id] recorded in a log. *)
Definition invocations (id : string) (l : list (N * Effect)) : nat :=
  length (List.filter
            (fun te => match snd te with
                       | Invoke cmd => String.eqb (pc_id cmd) id
                       | _ => false
                       end) l).

(** *** Vocabulary of the properties *)

(** The [type] a batch reads from one of its sub-commands, and whether the
    table holds a member under it (the test [if (handlers[cmd.type])]). *)
Definition sub_type (cmd : JsValue) : JsValue :=
  match js_get cmd "type" with
  | inr type => type
  | inl _ => JUndefined
  end.

Definition dispatched (table : string -> option Member) (cmd : JsValue) : bool :=
  match table (js_to_string (sub_type cmd)) with
  | Some _ => true
  | None => false
  end.

(** An element of [params.commands] on which reading [cmd.type] does not
    throw. *)
Definition readable (cmd : JsValue) : Prop :=
  cmd <> JNull /\ cmd <> JUndefined.

(** A completion report for [id] was sent no later than [deadline]. *)
Definition reported (id : string) (deadline : N) (l : list (N * Effect)) : Prop :=
  exists t bridge body,
    In (t, PostComplete bridge id body) l /\ (t <= deadline)%N.

(** A task that waits for a report to settle has sent it; a pending eviction
    is due no earlier than the eviction delay after a report for its id. *)
Definition task_ok (x : Executor) (t : Task) : Prop :=
  match t with
  | ReportingSuccess cmd _ | ReportingFailure cmd _ _ =>
      reported (pc_id cmd) (now x) (log x)
  | _ => True
  end.

Definition timer_ok (x : Executor) (timer : N * TimerAction) : Prop :=
  match snd timer with
  | Evict id =>
      exists t bridge body,
        In (t, PostComplete bridge id body) (log x) /\
        (t + EVICTION_DELAY <= fst timer)%N
  | Repoll => True
  end.

Definition well_timed (x : Executor) : Prop :=
  Forall (task_ok x) (tasks x) /\ Forall (timer_ok x) (timers x).

(** Why an event can take [id] out of [executingCommands]: its eviction
    timer fires, at least the eviction delay after a completion report for
    [id] was sent; or a [stop] message, or a successful connection probe,
    clears the whole set. *)
Inductive EvictionCause (x : Executor) (id : string) : Event -> Prop :=
| ByTimer (k : nat) (due : N) :
    timers x !! k = Some (due, Evict id) ->
    (due <= now x)%N ->
    (exists t bridge body,
        In (t, PostComplete bridge id body) (log x) /\
        (t + EVICTION_DELAY <= now x)%N) ->
    EvictionCause x id (TimerFired k)
| ByStop (bridgeUrl : JsValue) :
    EvictionCause x id (UiMessage "stop" bridgeUrl)
| ByConnect (k : nat) (url : string) :
    tasks x !! k = Some (Connecting url) ->
    EvictionCause x id (HealthSettled k None).

End Executor.

Arguments Callable {Doc} _ _.
Arguments NotAFunction {Doc}.
Arguments own {Doc} _.
Arguments call_method {Doc} _ _.
Arguments run_sub {Doc} _ _ _ _.
Arguments dispatched {Doc} _ _.
Arguments BRIDGE_URL {Doc} _.
Arguments isRunning {Doc} _.
Arguments executingCommands {Doc} _.
Arguments document {Doc} _.
Arguments tasks {Doc} _.
Arguments timers {Doc} _.
Arguments now {Doc} _.
Arguments log {Doc} _.
Arguments boot {Doc} _ _.
Arguments emit {Doc} _ _.
Arguments set_task {Doc} _ _ _.
Arguments spawn {Doc} _ _.
Arguments setTimeout {Doc} _ _ _.
Arguments set_executing {Doc} _ _.
Arguments set_document {Doc} _ _.
Arguments set_running {Doc} _ _.
Arguments set_bridge {Doc} _ _.
Arguments drop_timer {Doc} _ _.
Arguments advance {Doc} _ _.
Arguments pollCommands {Doc} _.
Arguments finally {Doc} _ _ _.
Arguments reschedule {Doc} _ _.
Arguments report_failure {Doc} _ _ _ _ _.
Arguments on_message {Doc} _ _ _ _.
Arguments on_health {Doc} _ _ _ _.
Arguments fire {Doc} _ _.
Arguments task_ok {Doc} _ _.
Arguments timer_ok {Doc} _ _.
Arguments well_timed {Doc} _.
Arguments EvictionCause {Doc} _ _ _.

End Plugin.

(** ** Vocabulary for the relay's invariants *)

Module BridgeVocabulary.
Import Js Bridge.

Definition terminal (c : DesignCommand) : Prop :=
  cmd_status c = completed \/ cmd_status c = failed.

(** A stored command as the relay's own writes leave it: never in status
    [executing], and with [completedAt] set once it is terminal. *)
Definition tidy (c : DesignCommand) : Prop :=
  cmd_status c <> executing /\ (terminal c -> cmd_completedAt c <> None).

(** Where the time stamps of a stored command come from: the id holds one
    clock reading, [createdAt] the next one, and [completedAt] of a terminal
    command a later one. *)
Definition stamped (Date_now : nat -> Z) (Math_random_base36 : nat -> string)
  (r : Relay) (c : DesignCommand) : Prop :=
  exists n k,
    cmd_id c = fresh_id (Date_now n) (Math_random_base36 k) /\
    cmd_createdAt c = Date_now (S n) /\
    (S n < clock_reads r)%nat /\
    (terminal c ->
     exists j, (S n < j < clock_reads r)%nat /\
               cmd_completedAt c = Some (Date_now j)).

(** The two counts of [GET /health]. *)
Definition pending_count (r : Relay) : nat := length (getPendingCommands r).

Definition total_count (r : Relay) : nat := length (commands (queue r)).

End BridgeVocabulary.

(** ** Starting and stopping the bridge server *)

Module Lifecycle.

(** What [server.listen(port)] leads to: the [listening] callback, the
    [error] event with code [EADDRINUSE], or any other failure. *)
Inductive ListenOutcome : Type :=
| Listening
| AddressInUse
| OtherError (message : string).

(** The server object: the port its request listener was created for, and
    whether it is bound to it. *)
Record HttpServer : Type := {
  listener_port : nat;
  bound : bool
}.

(** The module variables [server] and [serverPort]. *)
Record ServerState : Type := {
  server : option HttpServer;
  serverPort : nat
}.

Definition initial : ServerState := {| server := None; serverPort := 3847 |}.

(** How the promise of [startBridgeServer] settles. *)
Inductive Settled : Type :=
| Resolved (port : nat)
| Rejected (message : string).

Section Host.

(** What the operating system answers to a [listen] on each port. *)
Variable listen : nat -> ListenOutcome.

(** [startBridgeServer(port)], run until its promise settles. The source
    calls itself on [port + 1] at every [EADDRINUSE] without a bound;
    [retries] is the number of such calls followed here, and [None] means
    the promise has not settled within them. *)
Fixpoint startBridgeServer (retries : nat) (port : nat) (s : ServerState)
  : option (Settled * ServerState) :=
  match server s with
  | Some _ => Some (Resolved (serverPort s), s)
  | None =>
      match listen port with
      | Listening =>
          Some (Resolved port,
                {| server := Some {| listener_port := port; bound := true |};
                   serverPort := port |})
      | OtherError message =>
          Some (Rejected message,
                {| server := Some {| listener_port := port; bound := false |};
                   serverPort := serverPort s |})
      | AddressInUse =>
          match retries with
          | O => None
          | S retries' =>
              startBridgeServer retries' (S port)
                {| server := None; serverPort := serverPort s |}
          end
      end
  end.

End Host.

Definition stopBridgeServer (s : ServerState) : ServerState :=
  match server s with
  | Some _ => {| server := None; serverPort := serverPort s |}
  | None => s
  end.

Definition getBridgePort (s : ServerState) : option nat :=
  match server s with
  | Some _ => Some (serverPort s)
  | None => None
  end.

(** Whether a server is bound, and to which port. *)
Definition listening_on (s : ServerState) : option nat :=
  match server s with
  | Some srv => if bound srv then Some (listener_port srv) else None
  | None => None
  end.

(** A request sent to the module's server: the listener that is bound
    answers it, with the port it was created for in scope. *)
Definition answer (Date_now : nat -> Z) (JSON_parse : string -> option Js.JsValue)
  (s : ServerState) (req : Bridge.Request) (r : Bridge.Relay)
  : option (Bridge.Response * Bridge.Relay) :=
  match server s with
  | Some srv =>
      if bound srv
      then Some (Bridge.handle_request Date_now JSON_parse (listener_port srv) req r)
      else None
  | None => None
  end.

End Lifecycle.

(** ** Vocabulary for the poll loop's invariants *)

Module PluginVocabulary.
Import Js Plugin.

(** A task that is inside an activation of [pollCommands]. *)
Definition in_loop (t : Task) : bool :=
  match t with
  | Polling | Running _ _ _ | ReportingSuccess _ _ | ReportingFailure _ _ _ => true
  | Connecting _ | Finished => false
  end.

Definition is_repoll (timer : N * TimerAction) : bool :=
  match snd timer with
  | Repoll => true
  | Evict _ => false
  end.

(** A task that is between the [add] and the [finally] of command [id]. *)
Definition holds (id : string) (t : Task) : bool :=
  match t with
  | Running cmd _ _ | ReportingSuccess cmd _ | ReportingFailure cmd _ _ =>
      String.eqb (pc_id cmd) id
  | _ => false
  end.

(** A task that waits for the handler of command [id]. *)
Definition awaits_handler (id : string) (t : Task) : bool :=
  match t with
  | Running cmd _ _ => String.eqb (pc_id cmd) id
  | _ => false
  end.

Definition is_report (id : string) (entry : N * Effect) : bool :=
  match snd entry with
  | PostComplete _ id' _ => String.eqb id' id
  | _ => false
  end.

Definition is_fetch (entry : N * Effect) : bool :=
  match snd entry with
  | FetchCommands _ => true
  | _ => false
  end.

(** The events that can turn [isRunning] on: a [start] message, and a
    connection probe that settles well. *)
Definition connects (ev : Event) : bool :=
  match ev with
  | UiMessage type _ => String.eqb type "start"
  | HealthSettled _ None => true
  | _ => false
  end.

Section Executor.

Context {Doc : Type}.

(** The poll loops alive: the activations of [pollCommands] under way and
    the [setTimeout(pollCommands, ...)] calls still to fire. *)
Definition poll_loops (x : Executor Doc) : nat :=
  (length (List.filter in_loop (tasks x))
   + length (List.filter is_repoll (timers x)))%nat.

(** The one event at which a poll loop of the stand-alone plugin comes to
    life: the connection probe of a [start] settles well. *)
Definition opens_loop (ev : Event) (x : Executor Doc) : bool :=
  match ev with
  | HealthSettled k None =>
      match tasks x !! k with
      | Some (Connecting _) => true
      | _ => false
      end
  | _ => false
  end.

(** The one event at which a poll loop ends: its timer fires while
    [isRunning] is off. *)
Definition closes_loop (ev : Event) (x : Executor Doc) : bool :=
  match ev with
  | TimerFired k =>
      match timers x !! k with
      | Some (due, Repoll) => (due <=? now x)%N && negb (isRunning x)
      | _ => false
      end
  | _ => false
  end.

(** An id of [executingCommands] is owned when a task is still working on
    its command or its eviction is scheduled. *)
Definition owned (x : Executor Doc) (id : string) : Prop :=
  (exists k t, tasks x !! k = Some t /\ holds id t = true) \/
  (exists due, In (due, Evict id) (timers x)).

(** The same, not counting what task [k] works on. *)
Definition owned_beside (k : nat) (x : Executor Doc) (id : string) : Prop :=
  (exists j t, j <> k /\ tasks x !! j = Some t /\ holds id t = true) \/
  (exists due, In (due, Evict id) (timers x)).

Definition no_orphan (x : Executor Doc) : Prop :=
  forall id, id ∈ executingCommands x -> owned x id.

Definition reports (id : string) (x : Executor Doc) : nat :=
  length (List.filter (is_report id) (log x)).

Definition running (id : string) (x : Executor Doc) : nat :=
  length (List.filter (awaits_handler id) (tasks x)).

Definition fetches (x : Executor Doc) : nat :=
  length (List.filter is_fetch (log x)).

End Executor.

Section Batch.

Variable Doc : Type.
Variable TypeError_message : TypeErrorKind -> string.
Variable table : string -> option (Member Doc).

(** The run of a batch, as a relation between the sub-commands, the
    document before, the entries and the document after: the sub-commands
    are visited in order; one whose type names no member of the table is
    passed over; every other one is run on the document that the ones
    before it have left and leaves one entry, whether it returned or threw,
    and the run goes on with the document it leaves. *)
Inductive runs_in_order : list JsValue -> Doc -> list JsValue -> Doc -> Prop :=
| runs_none d : runs_in_order [] d [] d
| runs_passed_over cmd rest d entries d' :
    table (js_to_string (sub_type cmd)) = None ->
    runs_in_order rest d entries d' ->
    runs_in_order (cmd :: rest) d entries d'
| runs_called cmd rest d m entries d' :
    table (js_to_string (sub_type cmd)) = Some m ->
    runs_in_order rest (snd (run_sub TypeError_message m cmd d)) entries d' ->
    runs_in_order (cmd :: rest) d
      (batch_entry (sub_type cmd) (fst (run_sub TypeError_message m cmd d))
       :: entries) d'.

End Batch.

Arguments runs_in_order {Doc} _ _ _ _ _ _.
Arguments runs_none {Doc}.
Arguments runs_passed_over {Doc}.
Arguments runs_called {Doc}.

End PluginVocabulary.

(** ** The page handlers of the plugin *)

Module Pages.
Import Js Plugin.

(** [s === v] for a string [s]. *)
Definition strictly_equals (s : string) (v : JsValue) : bool :=
  match v with
  | JStr t => String.eqb s t
  | _ => false
  end.

Section Host.

(** The host: the document, its page handles, [figma.root.children], the
    [id] and the current [name] of a page, [figma.createPage()], the
    assignment to [page.name] and [page.remove()]. The last two may throw
    (the message is kept); a call that throws leaves the document as it
    was. *)
Variable Doc : Type.
Variable Page : Type.
Variable root_children : Doc -> list Page.
Variable page_id : Page -> string.
Variable page_name : Doc -> Page -> string.
Variable createPage : Doc -> Page * Doc.
Variable set_name : Page -> JsValue -> Doc -> string + Doc.
Variable remove : Page -> Doc -> string + Doc.
Variable TypeError_message : TypeErrorKind -> string.

(** [figma.root.children.find(p => p.id === params[id_key] ||
    p.name === params[name_key])]: the callback reads [params] at the first
    page it visits. *)
Definition find_page (params : JsValue) (id_key name_key : string) (d : Doc)
  : TypeErrorKind + option Page :=
  match root_children d with
  | [] => inr None
  | _ :: _ =>
      match js_get params id_key, js_get params name_key with
      | inr id, inr name =>
          inr (List.find
                 (fun p => strictly_equals (page_id p) id
                           || strictly_equals (page_name d p) name)
                 (root_children d))
      | inl e, _ | _, inl e => inl e
      end
  end.

Definition create_page : Handler Doc :=
  fun params d =>
    let '(page, d1) := createPage d in
    match js_get params "name" with
    | inl e => (Threw (TypeError_message e), d1)
    | inr name =>
        match set_name page (js_or name (JStr "New Page")) d1 with
        | inl message => (Threw message, d1)
        | inr d2 =>
            (Returned (JObj [("pageId", JStr (page_id page));
                             ("name", JStr (page_name d2 page))]), d2)
        end
    end.

Definition rename_page : Handler Doc :=
  fun params d =>
    match find_page params "pageId" "oldName" d with
    | inl e => (Threw (TypeError_message e), d)
    | inr None => (Threw "Page not found", d)
    | inr (Some page) =>
        match js_get params "name" with
        | inl e => (Threw (TypeError_message e), d)
        | inr name =>
            match set_name page name d with
            | inl message => (Threw message, d)
            | inr d1 =>
                (Returned (JObj [("pageId", JStr (page_id page));
                                 ("name", JStr (page_name d1 page))]), d1)
            end
        end
    end.

Definition delete_page : Handler Doc :=
  fun params d =>
    match find_page params "pageId" "name" d with
    | inl e => (Threw (TypeError_message e), d)
    | inr None => (Threw "Page not found", d)
    | inr (Some page) =>
        if (length (root_children d) <=? 1)%nat
        then (Threw "Cannot delete last page", d)
        else
          match remove page d with
          | inl message => (Threw message, d)
          | inr d1 => (Returned (JObj [("deleted", JBool true)]), d1)
          end
    end.

(** The three page commands of the handler table. *)
Definition page_handlers (key : string) : option (Handler Doc) :=
  if String.eqb key "create_page" then Some create_page
  else if String.eqb key "rename_page" then Some rename_page
  else if String.eqb key "delete_page" then Some delete_page
  else None.

End Host.

End Pages.

(** ** A host for the worked examples *)

Module Sample.
Import Js Bridge Plugin.

(** A clock that advances one millisecond per reading. *)
Definition Date_now (n : nat) : Z := (1700000000000 + Z.of_nat n)%Z.

(** Random draws with pairwise different texts. *)
Definition Math_random_base36 (n : nat) : string :=
  "0." +:+ pretty n +:+ "k3v9q2m7x1".

(** A clock read repeatedly within one millisecond, and two different
    draws whose base-36 texts agree on the nine characters kept. *)
Definition frozen_clock (n : nat) : Z := 1700000000000%Z.

Definition close_draws (n : nat) : string :=
  match n with
  | O => "0.8k2j5h1x9qa"
  | _ => "0.8k2j5h1x9zz"
  end.

(** [JSON.parse] on the request bodies of the examples: three well-formed
    texts with their values, and every other text of the examples (a lone
    opening brace) rejected, as the full parser does. *)
Definition JSON_parse (text : string) : option JsValue :=
  if String.eqb text "{}" then Some (JObj [])
  else if String.eqb text "null" then Some JNull
  else if String.eqb text "[]" then Some (JArr [])
  else None.

Definition port : nat := 3847.

(** [new URL(target, base).pathname] on the request targets of the
    examples: a path in origin form gives the text before its query, and
    the target of two slashes alone, which names no host, is rejected. *)
Fixpoint before_query (s : string) : string :=
  match s with
  | EmptyString => EmptyString
  | String c rest =>
      if Ascii.eqb c "?" then EmptyString else String c (before_query rest)
  end.

Definition URL_pathname (target : string) : option string :=
  if String.eqb target "//" then None else Some (before_query target).

(** A document that records the handlers run on it, in order. The
    [delete_node] handler finds no node and throws; the others succeed. *)
Definition Doc : Type := list string.

Definition document_handler (key : string) : Handler Doc :=
  fun _ d =>
    if String.eqb key "delete_node"
    then (Threw "Node not found", (d ++ [key])%list)
    else (Returned (JObj [("done", JBool true)]), (d ++ [key])%list).

(** Two of the members every object literal inherits. *)
Definition Object_prototype (key : string) : option (Member Doc) :=
  if String.eqb key "toString" then
    Some (Callable
            (fun _ d => (Returned (JStr "[object Object]"), d))
            (fun _ d => (Returned (JStr "[object Undefined]"), d)))
  else if String.eqb key "__proto__" then Some NotAFunction
  else None.

Definition TypeError_message (e : TypeErrorKind) : string :=
  match e with
  | ReadPropertyOf _ key => "Cannot read properties of null (reading " +:+ key +:+ ")"
  | NotIterable _ => "object is not iterable"
  | NotCallable callee => callee +:+ " is not a function"
  end.

Definition command (type : string) (params : JsValue) : CommandSpec :=
  {| spec_type := JStr type; spec_params := params;
     spec_result := JUndefined; spec_error := JUndefined;
     spec_completedAt := None |}.

(** A command spec whose [type] was left out. *)
Definition untyped_command : CommandSpec :=
  {| spec_type := JUndefined; spec_params := JObj [("name", JStr "Hero")];
     spec_result := JUndefined; spec_error := JUndefined;
     spec_completedAt := None |}.

Definition hero_frame : CommandSpec :=
  command "create_frame"
    (JObj [("name", JStr "Hero"); ("width", JNum 400); ("height", JNum 200)]).

(** A relay holding one completed command and one pending command. *)
Definition done_command : DesignCommand :=
  {| cmd_id := "cmd_1700000000000_abc123def"; cmd_type := JStr "create_page";
     cmd_params := JObj []; cmd_status := completed;
     cmd_result := JObj [("pageId", JStr "1:2")]; cmd_error := JUndefined;
     cmd_createdAt := 1700000000000%Z; cmd_completedAt := Some 1700000000500%Z |}.

Definition waiting_command : DesignCommand :=
  {| cmd_id := "cmd_1700000000001_zyx987wvu"; cmd_type := JStr "create_frame";
     cmd_params := JObj [("name", JStr "Hero")]; cmd_status := pending;
     cmd_result := JUndefined; cmd_error := JUndefined;
     cmd_createdAt := 1700000000001%Z; cmd_completedAt := None |}.

Definition busy_relay : Relay :=
  {| queue := {| commands := [done_command; waiting_command];
                 fileKey := Some "fT3zY6" |};
     clock_reads := 4; random_draws := 2 |}.

Definition complete_request (id body : string) : Request :=
  {| req_method := "POST";
     req_pathname := "/commands/" +:+ id +:+ "/complete";
     req_body := body |}.

(** The plugin on this host. *)
Definition bridge : string := "http://localhost:3847".

Definition polled (id type : string) (params : JsValue) : PolledCommand :=
  {| pc_id := id; pc_type := JStr type; pc_params := params |}.

Definition sub_command (type : string) : JsValue :=
  JObj [("type", JStr type); ("params", JObj [])].

(** A command of a type the handler table does not know. *)
Definition coffee : PolledCommand := polled "cmd_1700000000000_aaaaaaaaa" "make_coffee" (JObj []).

Definition new_page : PolledCommand := polled "cmd_1700000000002_ccccccccc" "create_page" (JObj []).

(** A batch of four sub-commands: the second throws, the third is of an
    unknown type. *)
Definition mixed_batch : PolledCommand :=
  polled "cmd_1700000000001_bbbbbbbbb" "batch"
    (JObj [("commands",
            JArr [ sub_command "create_page"; sub_command "delete_node";
                   sub_command "make_coffee"; sub_command "create_frame" ])]).

Definition run_plugin (ed : Edition) (evs : list Event) : Executor Doc :=
  run Doc document_handler Object_prototype TypeError_message ed evs
    (boot (Doc := Doc) bridge []).

(** The stand-alone plugin after [start] and a connection probe that
    settled well: the activation of [pollCommands] is task 1 and waits for
    its poll response. *)
Definition connected : list Event :=
  [UiMessage "start" JUndefined; HealthSettled 0 None].

(** The stand-alone plugin started twice: two activations wait for their
    poll responses at the same time. *)
Definition connected_twice : list Event :=
  [ UiMessage "start" JUndefined; HealthSettled 0 None;
    UiMessage "start" JUndefined; HealthSettled 2 None ].

(** Requests and a session of operations on the relay. *)
Definition incoming (method url : string) : RawRequest :=
  {| raw_method := method; raw_url := url; raw_body := EmptyString |}.

Definition get (pathname : string) : Request :=
  {| req_method := "GET"; req_pathname := pathname; req_body := EmptyString |}.

Definition delete_all : Request :=
  {| req_method := "DELETE"; req_pathname := "/commands"; req_body := EmptyString |}.

Definition session : list Operation :=
  [ OpQueueBatch "fT3zY6" [hero_frame; command "create_page" (JObj [])];
    OpRequest (get "/commands");
    OpRequest (complete_request "cmd_1700000000000_0k3v9q2m7" "{}");
    OpQueueCommand hero_frame;
    OpCompleteCommand "cmd_1700000000002_1k3v9q2m7" JUndefined (JStr "Page limit reached");
    OpRequest (get "/health") ].

(** A relay in which two stored commands carry the same id. *)
Definition twin (type : string) : DesignCommand :=
  {| cmd_id := "cmd_1700000000000_8k2j5h1x9"; cmd_type := JStr type;
     cmd_params := JObj []; cmd_status := pending;
     cmd_result := JUndefined; cmd_error := JUndefined;
     cmd_createdAt := 1700000000000%Z; cmd_completedAt := None |}.

Definition twin_relay : Relay :=
  {| queue := {| commands := [twin "create_page"; twin "create_frame"];
                 fileKey := None |};
     clock_reads := 4; random_draws := 2 |}.

(** Ports 3847 and 3848 are taken, 3849 is free, and binding 80 is refused. *)
Definition listen (port : nat) : Lifecycle.ListenOutcome :=
  if (port =? 3847)%nat then Lifecycle.AddressInUse
  else if (port =? 3848)%nat then Lifecycle.AddressInUse
  else if (port =? 80)%nat then Lifecycle.OtherError "listen EACCES: permission denied"
  else Lifecycle.Listening.

(** A document for the page handlers: the next page number and the pages
    as (number, name) pairs. A page handle is its number; assigning a name
    that is not a text throws. *)
Definition PageDoc : Type := (nat * list (nat * string))%type.

Definition root_children (d : PageDoc) : list nat := List.map fst (snd d).

Definition page_id (p : nat) : string := pretty p +:+ ":0".

Definition page_name (d : PageDoc) (p : nat) : string :=
  match List.find (fun entry => (fst entry =? p)%nat) (snd d) with
  | Some entry => snd entry
  | None => EmptyString
  end.

Definition createPage (d : PageDoc) : nat * PageDoc :=
  (fst d, (S (fst d), (snd d ++ [(fst d, "Page")])%list)).

Definition set_name (p : nat) (v : JsValue) (d : PageDoc) : string + PageDoc :=
  match v with
  | JStr name =>
      inr (fst d,
           List.map (fun entry => if (fst entry =? p)%nat then (p, name) else entry)
                    (snd d))
  | _ => inl "Expected name to have type string"
  end.

Fixpoint remove_first (p : nat) (entries : list (nat * string)) : list (nat * string) :=
  match entries with
  | [] => []
  | entry :: rest =>
      if (fst entry =? p)%nat then rest else entry :: remove_first p rest
  end.

Definition remove (p : nat) (d : PageDoc) : string + PageDoc :=
  inr (fst d, remove_first p (snd d)).

Definition one_page : PageDoc := (1%nat, [(0%nat, "Page 1")]).

Definition two_pages : PageDoc := (2%nat, [(0%nat, "Cover"); (1%nat, "Drafts")]).

End Sample.

(** ** Properties of the bridge server *)

Module BridgeFacts.
Import Js Bridge.

Lemma status_eqb_eq a b : status_eqb a b = true <-> a = b.
Proof. destruct a, b; simpl; split; intros H; congruence. Qed.

Lemma is_pending_true c : is_pending c = true <-> cmd_status c = pending.
Proof. apply status_eqb_eq. Qed.

(** *** Lookup and in-place update *)

Lemma find_command_id id cs c :
  find_command id cs = Some c -> cmd_id c = id.
Proof.
  induction cs as [|c0 cs IH]; simpl; [discriminate|].
  destruct (String.eqb (cmd_id c0) id) eqn:E.
  - intros [= <-]. by apply String.eqb_eq.
  - exact IH.
Qed.

Lemma find_command_In id cs c :
  find_command id cs = Some c -> In c cs.
Proof.
  induction cs as [|c0 cs IH]; simpl; [discriminate|].
  destruct (String.eqb (cmd_id c0) id).
  - intros [= <-]. by left.
  - intros H. right. by apply IH.
Qed.

Lemma find_command_None id cs :
  find_command id cs = None <-> forall c, In c cs -> cmd_id c <> id.
Proof.
  induction cs as [|c0 cs IH]; simpl.
  - split; [intros _ c []|done].
  - destruct (String.eqb (cmd_id c0) id) eqn:E.
    + split; [discriminate|]. intros H.
      apply String.eqb_eq in E. destruct (H c0); auto.
    + apply String.eqb_neq in E. rewrite IH. split.
      * intros H c [<-|Hc]; auto.
      * intros H c Hc. apply H. by right.
Qed.

Lemma update_first_absent id f cs :
  find_command id cs = None -> update_first id f cs = cs.
Proof.
  induction cs as [|c0 cs IH]; simpl; [done|].
  destruct (String.eqb (cmd_id c0) id); [discriminate|].
  intros H. by rewrite IH.
Qed.

Lemma update_first_length id f cs :
  length (update_first id f cs) = length cs.
Proof.
  induction cs as [|c0 cs IH]; simpl; [done|].
  destruct (String.eqb (cmd_id c0) id); simpl; by rewrite ?IH.
Qed.

Lemma find_update_first id f cs c :
  (forall c0, cmd_id (f c0) = cmd_id c0) ->
  find_command id cs = Some c ->
  find_command id (update_first id f cs) = Some (f c).
Proof.
  intros Hf. induction cs as [|c0 cs IH]; simpl; [discriminate|].
  destruct (String.eqb (cmd_id c0) id) eqn:E.
  - intros [= <-]. simpl. by rewrite Hf, E.
  - intros H. simpl. rewrite E. by apply IH.
Qed.

(** Every position keeps its command, or holds the updated one. *)
Lemma update_first_lookup id f cs (i : nat) c :
  cs !! i = Some c ->
  update_first id f cs !! i = Some c \/
  (cmd_id c = id /\ update_first id f cs !! i = Some (f c)).
Proof.
  revert i. induction cs as [|c0 cs IH]; intros i; [done|].
  simpl. destruct (String.eqb (cmd_id c0) id) eqn:E.
  - destruct i as [|i]; simpl.
    + intros [= <-]. right. split; [by apply String.eqb_eq|done].
    + intros H. by left.
  - destruct i as [|i]; simpl.
    + intros H. by left.
    + apply IH.
Qed.

Lemma update_first_other id f cs (i : nat) c :
  cs !! i = Some c -> cmd_id c <> id ->
  update_first id f cs !! i = Some c.
Proof.
  intros H Hne. destruct (update_first_lookup id f cs i c H) as [|[? _]]; [done|].
  contradiction.
Qed.

(** *** The identifier template *)

Lemma pretty_N_char_digit x : is_digit_or_minus (pretty_N_char x) = true.
Proof. unfold pretty_N_char. by repeat case_match. Qed.

Lemma lacks_digit c x s :
  is_digit_or_minus c = false ->
  lacks c (String (pretty_N_char x) s) = lacks c s.
Proof.
  intros Hc. cbn [lacks]. destruct (Ascii.eqb (pretty_N_char x) c) eqn:E; [|done].
  apply Ascii.eqb_eq in E. rewrite <- E, pretty_N_char_digit in Hc. discriminate.
Qed.

Lemma pretty_N_go_lacks c x s :
  is_digit_or_minus c = false ->
  lacks c s = true -> lacks c (pretty_N_go x s) = true.
Proof.
  intros Hc. revert s. induction (N.lt_wf_0 x) as [x _ IH]; intros s Hs.
  assert (x = 0 \/ 0 < x)%N as [->|Hpos] by lia.
  - by rewrite pretty_N_go_0.
  - rewrite pretty_N_go_step by done. apply IH.
    + by apply N.div_lt.
    + by rewrite lacks_digit.
Qed.

Lemma pretty_N_lacks c (x : N) :
  is_digit_or_minus c = false -> lacks c (pretty x) = true.
Proof.
  intros Hc. unfold pretty, pretty_N. case_decide.
  - cbn [lacks]. destruct (Ascii.eqb "0" c) eqn:E; [|done].
    apply Ascii.eqb_eq in E. by subst c.
  - by apply pretty_N_go_lacks.
Qed.

Lemma pretty_Z_lacks c (x : Z) :
  is_digit_or_minus c = false -> lacks c (pretty x) = true.
Proof.
  intros Hc. destruct x as [|p|p].
  - apply (pretty_N_lacks c 0%N Hc).
  - apply (pretty_N_lacks c (N.pos p) Hc).
  - change (negb (Ascii.eqb "-" c) && lacks c (pretty (N.pos p)) = true).
    rewrite (pretty_N_lacks c (N.pos p) Hc).
    destruct (Ascii.eqb "-" c) eqn:E; [|done].
    apply Ascii.eqb_eq in E. by subst c.
Qed.

Lemma pretty_Z_underscore_free (x : Z) : underscore_free (pretty x) = true.
Proof. by apply pretty_Z_lacks. Qed.

Lemma lacks_app c a b : lacks c (a +:+ b) = lacks c a && lacks c b.
Proof.
  induction a as [|x a IH]; simpl; [done|]. by rewrite IH, andb_assoc.
Qed.

(** An identifier built by the template can be carried by the completion
    route as soon as the characters kept from the random draw hold no slash
    (the base-36 text of a number holds none). *)
Lemma fresh_id_routable now random36 :
  slash_free (String.substring 2 9 random36) = true ->
  fresh_id now random36 <> EmptyString /\
  slash_free (fresh_id now random36) = true.
Proof.
  intros H. split; [done|].
  unfold slash_free, fresh_id, id_of_parts in *.
  rewrite !lacks_app, H, (pretty_Z_lacks "/"%char now eq_refl). reflexivity.
Qed.

(** The first underscore of a text determines what stands on both sides. *)
Lemma underscore_split d1 d2 a1 a2 :
  underscore_free d1 = true -> underscore_free d2 = true ->
  d1 +:+ String "_"%char a1 = d2 +:+ String "_"%char a2 ->
  d1 = d2 /\ a1 = a2.
Proof.
  unfold underscore_free.
  revert d2. induction d1 as [|c1 d1 IH]; intros [|c2 d2]; simpl.
  - intros _ _ [= ->]. done.
  - intros _ H2 [= <- _]. done.
  - intros H1 _ [= -> _]. done.
  - intros H1 H2 [= -> Heq].
    apply andb_prop in H1 as [_ H1]. apply andb_prop in H2 as [_ H2].
    destruct (IH d2 H1 H2 Heq) as [-> ->]. done.
Qed.

(** Two identifiers coincide exactly when their time stamps and their
    suffixes do. *)
Lemma id_of_parts_inj t1 s1 t2 s2 :
  id_of_parts t1 s1 = id_of_parts t2 s2 <-> t1 = t2 /\ s1 = s2.
Proof.
  split; [|by intros [-> ->]].
  unfold id_of_parts. intros H.
  apply (inj (String.append "cmd_")) in H.
  destruct (underscore_split (pretty t1) (pretty t2) s1 s2) as [Ht Hs];
    auto using pretty_Z_underscore_free.
  split; [|done]. by apply (inj pretty).
Qed.

(** *** The completion route *)

Lemma split_slash_app seg tail :
  slash_free seg = true ->
  split_slash (seg +:+ String "/"%char tail) = (seg, Some (String "/"%char tail)).
Proof.
  unfold slash_free.
  induction seg as [|c seg IH]; simpl; [done|].
  destruct (Ascii.eqb c "/"%char); simpl; [discriminate|].
  intros H. by rewrite IH.
Qed.

Lemma match_complete_path id :
  id <> EmptyString -> slash_free id = true ->
  match_complete ("/commands/" +:+ id +:+ "/complete") = Some id.
Proof.
  intros Hne Hfree. unfold match_complete.
  change (strip_prefix "/commands/" ("/commands/" +:+ id +:+ "/complete"))
    with (Some (id +:+ "/complete")).
  cbv beta iota.
  rewrite (split_slash_app id "complete") by done.
  destruct (String.eqb id EmptyString) eqn:E.
  - apply String.eqb_eq in E. contradiction.
  - done.
Qed.

Section Server.

Variable Date_now : nat -> Z.
Variable Math_random_base36 : nat -> string.
Variable JSON_parse : string -> option JsValue.
Variable port : nat.
Variable URL_pathname : string -> option string.

Local Abbreviation queueCommand := (queueCommand Date_now Math_random_base36).
Local Abbreviation enqueue_all := (enqueue_all Date_now Math_random_base36).
Local Abbreviation queueBatch := (queueBatch Date_now Math_random_base36).
Local Abbreviation completeCommand := (completeCommand Date_now).
Local Abbreviation read_report := (read_report JSON_parse).
Local Abbreviation handle_request := (handle_request Date_now JSON_parse port).
Local Abbreviation listener := (listener Date_now JSON_parse port URL_pathname).
Local Abbreviation perform := (perform Date_now Math_random_base36 JSON_parse port).
Local Abbreviation perform_all := (perform_all Date_now Math_random_base36 JSON_parse port).
Local Abbreviation produce := (produce Date_now Math_random_base36).
Local Abbreviation produce_one := (produce_one Date_now Math_random_base36).
Local Abbreviation id_seeds := (id_seeds Date_now Math_random_base36).

Lemma completeCommand_absent id result error r :
  find_command id (commands (queue r)) = None ->
  completeCommand id result error r = (false, r).
Proof. intros H. unfold Bridge.completeCommand. by rewrite H. Qed.

Lemma completeCommand_present id result error r c :
  find_command id (commands (queue r)) = Some c ->
  exists r',
    completeCommand id result error r = (true, r') /\
    find_command id (commands (queue r'))
      = Some (mark_complete result error (Date_now (clock_reads r)) c) /\
    fileKey (queue r') = fileKey (queue r) /\
    length (commands (queue r')) = length (commands (queue r)) /\
    forall (i : nat) c0, commands (queue r) !! i = Some c0 -> cmd_id c0 <> id ->
                         commands (queue r') !! i = Some c0.
Proof.
  intros H. unfold Bridge.completeCommand. rewrite H.
  eexists. split; [reflexivity|]. simpl. repeat split.
  - by apply find_update_first.
  - apply update_first_length.
  - intros i c0 Hi Hne. by apply update_first_other.
Qed.

(** The route is taken by a POST whose path matches, whatever else the
    request holds. *)
Lemma handle_request_complete req r id :
  req_method req = "POST" ->
  match_complete (req_pathname req) = Some id ->
  handle_request req r =
    match read_report (req_body req) with
    | Some (result, error) =>
        let '(success, r') := completeCommand id result error r in
        ({| res_status := if success then 200%nat else 404%nat;
            res_payload := PayloadSuccess success |}, r')
    | None =>
        ({| res_status := 400; res_payload := PayloadError "Invalid JSON" |}, r)
    end.
Proof.
  intros Hm Hp. unfold Bridge.handle_request. rewrite Hm, Hp. reflexivity.
Qed.

Lemma read_report_empty : read_report EmptyString = Some (JUndefined, JUndefined).
Proof. reflexivity. Qed.

Lemma read_report_malformed body :
  body <> EmptyString -> JSON_parse body = None -> read_report body = None.
Proof.
  intros Hne Hp. unfold Bridge.read_report.
  destruct (String.eqb body EmptyString) eqn:E.
  - apply String.eqb_eq in E. contradiction.
  - by rewrite Hp.
Qed.

(** A body that parses to [null] throws in the same [try] block, when the
    listener reads [data.result]. *)
Lemma read_report_null body :
  body <> EmptyString -> JSON_parse body = Some JNull -> read_report body = None.
Proof.
  intros Hne Hp. unfold Bridge.read_report.
  destruct (String.eqb body EmptyString) eqn:E.
  - apply String.eqb_eq in E. contradiction.
  - by rewrite Hp.
Qed.

(** C2: completing again a command that is already completed or failed
    returns [true] (the call has no failing path) and overwrites the result,
    the error and the completion time of the command; its status is computed
    anew from the error argument ([failed] when it is truthy, [completed]
    otherwise), so the command is left in a terminal state, and its identity
    and the rest of the queue are as before. *)
Theorem recomplete_overwrites r id result error c :
  find_command id (commands (queue r)) = Some c ->
  cmd_status c = completed \/ cmd_status c = failed ->
  exists r' c',
    completeCommand id result error r = (true, r') /\
    find_command id (commands (queue r')) = Some c' /\
    cmd_result c' = result /\
    cmd_error c' = error /\
    cmd_completedAt c' = Some (Date_now (clock_reads r)) /\
    cmd_status c' = (if js_truthy error then failed else completed) /\
    (cmd_status c' = completed \/ cmd_status c' = failed) /\
    (cmd_id c' = cmd_id c /\ cmd_type c' = cmd_type c /\
     cmd_params c' = cmd_params c /\ cmd_createdAt c' = cmd_createdAt c) /\
    length (commands (queue r')) = length (commands (queue r)) /\
    forall (i : nat) c0, commands (queue r) !! i = Some c0 -> cmd_id c0 <> id ->
                         commands (queue r') !! i = Some c0.
Proof.
  intros Hfind _.
  destruct (completeCommand_present id result error r c Hfind)
    as (r' & Hcall & Hfound & _ & Hlen & Hrest).
  exists r', (mark_complete result error (Date_now (clock_reads r)) c).
  repeat split; try done.
  simpl. destruct (js_truthy error); auto.
Qed.

(** C5: completing an id that no stored command carries returns [false] and
    leaves the relay state (every stored command, the file key) as it was.
    On the completion route the listener answers 400 when the body cannot
    be read (in particular when it is not empty and [JSON.parse] rejects
    it), and otherwise 404 with [{success: false}] and an unchanged queue
    when the id is unknown, 200 with [{success: true}] when it is found. *)
Theorem complete_unknown_id r req id :
  req_method req = "POST" ->
  match_complete (req_pathname req) = Some id ->
  (find_command id (commands (queue r)) = None ->
   forall result error, completeCommand id result error r = (false, r)) /\
  (read_report (req_body req) = None ->
   handle_request req r =
     ({| res_status := 400; res_payload := PayloadError "Invalid JSON" |}, r)) /\
  (req_body req <> EmptyString -> JSON_parse (req_body req) = None ->
   read_report (req_body req) = None) /\
  (forall result error,
     read_report (req_body req) = Some (result, error) ->
     (find_command id (commands (queue r)) = None ->
      handle_request req r =
        ({| res_status := 404; res_payload := PayloadSuccess false |}, r)) /\
     (forall c, find_command id (commands (queue r)) = Some c ->
      handle_request req r =
        ({| res_status := 200; res_payload := PayloadSuccess true |},
         snd (completeCommand id result error r)) /\
      fst (completeCommand id result error r) = true)).
Proof.
  intros Hm Hp. pose proof (handle_request_complete req r id Hm Hp) as Hreq.
  split; [|split; [|split]].
  - intros Hnone result error. by apply completeCommand_absent.
  - intros Hbad. by rewrite Hreq, Hbad.
  - apply read_report_malformed.
  - intros result error Hok. rewrite Hreq, Hok. split.
    + intros Hnone. by rewrite completeCommand_absent.
    + intros c Hc.
      destruct (completeCommand_present id result error r c Hc) as (r' & -> & _).
      done.
Qed.

(** C10: a completion request with an empty body is read as [{}]: for a
    stored id that the path can carry, the listener answers 200 with
    [{success: true}], and the command is left [completed], with its
    completion time stamped and neither result nor error. *)
Theorem empty_body_completes r req id c :
  req_method req = "POST" ->
  req_pathname req = "/commands/" +:+ id +:+ "/complete" ->
  id <> EmptyString -> slash_free id = true ->
  req_body req = EmptyString ->
  find_command id (commands (queue r)) = Some c ->
  exists r' c',
    handle_request req r =
      ({| res_status := 200; res_payload := PayloadSuccess true |}, r') /\
    completeCommand id JUndefined JUndefined r = (true, r') /\
    find_command id (commands (queue r')) = Some c' /\
    cmd_status c' = completed /\
    cmd_completedAt c' = Some (Date_now (clock_reads r)) /\
    cmd_result c' = JUndefined /\
    cmd_error c' = JUndefined.
Proof.
  intros Hm Hpath Hne Hfree Hbody Hc.
  assert (match_complete (req_pathname req) = Some id) as Hp.
  { rewrite Hpath. by apply match_complete_path. }
  rewrite (handle_request_complete req r id Hm Hp), Hbody, read_report_empty.
  destruct (completeCommand_present id JUndefined JUndefined r c Hc)
    as (r' & Hcall & Hfound & _).
  rewrite Hcall. exists r', (mark_complete JUndefined JUndefined (Date_now (clock_reads r)) c).
  repeat split; done.
Qed.

(** *** Producer calls *)

Lemma queueCommand_spec command r :
  let '(c, r') := queueCommand command r in
  commands (queue r') = (commands (queue r) ++ [c])%list /\
  fileKey (queue r') = fileKey (queue r) /\
  spec_of c = command /\
  cmd_status c = pending /\
  cmd_id c = fresh_id (Date_now (clock_reads r)) (Math_random_base36 (random_draws r)) /\
  cmd_createdAt c = Date_now (S (clock_reads r)) /\
  clock_reads r' = S (S (clock_reads r)) /\
  random_draws r' = S (random_draws r).
Proof. simpl. repeat split. by destruct command. Qed.

(** C8 as the code has it: [queueCommand] has no rejecting path. Whatever
    the spec holds in [type], the value [undefined] of a missing field
    included, the call returns a command carrying that very spec, stored
    last in the queue with status [pending]. *)
Theorem queueCommand_accepts_any command r :
  exists c r',
    queueCommand command r = (c, r') /\
    commands (queue r') = (commands (queue r) ++ [c])%list /\
    spec_of c = command /\
    cmd_status c = pending /\
    In c (Bridge.getPendingCommands r').
Proof.
  pose proof (queueCommand_spec command r) as H.
  destruct (queueCommand command r) as [c r'] eqn:E.
  destruct H as (Hq & _ & Hs & Hp & _).
  exists c, r'. repeat split; try done.
  unfold Bridge.getPendingCommands. apply filter_In. split.
  - rewrite Hq. apply in_or_app. right. by left.
  - by apply is_pending_true.
Qed.

Lemma filter_all_pending cs :
  Forall (fun c => cmd_status c = pending) cs -> List.filter is_pending cs = cs.
Proof.
  induction 1 as [|c cs Hc _ IH]; simpl; [done|].
  apply is_pending_true in Hc. by rewrite Hc, IH.
Qed.

Lemma enqueue_all_spec specs r :
  let '(cs, r') := enqueue_all specs r in
  commands (queue r') = (commands (queue r) ++ cs)%list /\
  fileKey (queue r') = fileKey (queue r) /\
  List.map spec_of cs = specs /\
  Forall (fun c => cmd_status c = pending) cs /\
  List.map cmd_id cs
    = List.map (fun seed => id_of_parts (fst seed) (snd seed))
               (id_seeds r (length specs)).
Proof.
  revert r. induction specs as [|s specs IH]; intros r.
  - simpl. by rewrite app_nil_r.
  - cbn [Bridge.enqueue_all].
    pose proof (queueCommand_spec s r) as H1.
    destruct (queueCommand s r) as [c r1] eqn:E1.
    destruct H1 as (Hq1 & Hk1 & Hs1 & Hp1 & Hid1 & _ & Hclock & Hdraw).
    specialize (IH r1).
    destruct (enqueue_all specs r1) as [cs r2] eqn:E2.
    destruct IH as (Hq2 & Hk2 & Hs2 & Hp2 & Hid2).
    repeat split.
    + rewrite Hq2, Hq1. by rewrite <- app_assoc.
    + congruence.
    + simpl. congruence.
    + by constructor.
    + cbn [length List.map]. rewrite Hid2, Hid1.
      unfold Bridge.id_seeds. cbn [seq List.map fst snd].
      rewrite Nat.mul_0_r, !Nat.add_0_r. f_equal.
      rewrite <- seq_shift, !List.map_map.
      apply List.map_ext. intros i. rewrite Hclock, Hdraw.
      cbn [fst snd].
      replace (S (S (clock_reads r)) + 2 * i)%nat
        with (clock_reads r + 2 * S i)%nat by lia.
      replace (S (random_draws r) + i)%nat
        with (random_draws r + S i)%nat by lia.
      reflexivity.
Qed.

Lemma queueBatch_spec file_key specs r :
  let '(cs, r') := queueBatch file_key specs r in
  commands (queue r') = (commands (queue r) ++ cs)%list /\
  fileKey (queue r') = Some file_key /\
  List.map spec_of cs = specs /\
  Forall (fun c => cmd_status c = pending) cs.
Proof.
  unfold Bridge.queueBatch.
  match goal with |- context [enqueue_all specs ?r0] =>
    pose proof (enqueue_all_spec specs r0) as H;
    destruct (enqueue_all specs r0) as [cs r'] end.
  destruct H as (Hq & Hk & Hs & Hp & _). done.
Qed.

Lemma produce_one_spec call r :
  exists created,
    commands (queue (produce_one call r)) = (commands (queue r) ++ created)%list /\
    List.map spec_of created = requested [call] /\
    Forall (fun c => cmd_status c = pending) created.
Proof.
  destruct call as [command|file_key specs];
    cbn [Bridge.produce_one Bridge.requested].
  - pose proof (queueCommand_spec command r) as H.
    destruct (queueCommand command r) as [c r'] eqn:E.
    destruct H as (Hq & _ & Hs & Hp & _).
    exists [c]. cbn [snd List.map]. rewrite Hs. repeat split; [done|].
    by constructor.
  - pose proof (queueBatch_spec file_key specs r) as H.
    destruct (queueBatch file_key specs r) as [cs r'] eqn:E.
    destruct H as (Hq & _ & Hs & Hp).
    exists cs. cbn [snd]. by rewrite app_nil_r.
Qed.

Lemma produce_spec calls r :
  exists created,
    commands (queue (produce calls r)) = (commands (queue r) ++ created)%list /\
    List.map spec_of created = requested calls /\
    Forall (fun c => cmd_status c = pending) created.
Proof.
  revert r. induction calls as [|call calls IH]; intros r.
  - exists []. simpl. by rewrite app_nil_r.
  - change (produce (call :: calls) r) with (produce calls (produce_one call r)).
    destruct (produce_one_spec call r) as (cs1 & Hq1 & Hs1 & Hp1).
    destruct (IH (produce_one call r)) as (cs2 & Hq2 & Hs2 & Hp2).
    exists (cs1 ++ cs2)%list. repeat split.
    + rewrite Hq2, Hq1. by rewrite <- app_assoc.
    + rewrite List.map_app, Hs1, Hs2.
      destruct call; simpl; [done|]. by rewrite app_nil_r.
    + by apply Forall_app.
Qed.

Lemma pending_sublist cs : sublist (List.filter is_pending cs) cs.
Proof.
  induction cs as [|c cs IH]; simpl; [constructor|].
  destruct (is_pending c); by constructor.
Qed.

Lemma pending_largest cs view :
  sublist view cs ->
  Forall (fun c => cmd_status c = pending) view ->
  sublist view (List.filter is_pending cs).
Proof.
  induction 1 as [|c l1 l2 _ IH|c l1 l2 _ IH]; intros Hview; simpl.
  - constructor.
  - apply Forall_cons in Hview as [Hc Hview].
    apply is_pending_true in Hc. rewrite Hc. constructor. by apply IH.
  - destruct (is_pending c); [constructor|]; by apply IH.
Qed.

(** C3: the commands that a sequence of [queueCommand] and [queueBatch]
    calls hands over are stored behind the commands already there, one per
    spec and in call order, and the pending view lists them in that order
    behind the commands that were pending before. In particular the commands
    that [queueBatch] returns for a batch stand next to each other, in batch
    order, at the end of both the stored sequence and the pending view.
    The pending view holds the stored commands whose status is [pending]
    and no others, in the order of the stored sequence: it is a
    subsequence of the stored sequence, a command is in it exactly when it
    is stored with status [pending], and every subsequence of the stored
    sequence made of pending commands is a subsequence of it. *)
Theorem pending_in_enqueue_order calls file_key specs r :
  (exists created,
     commands (queue (produce calls r)) = (commands (queue r) ++ created)%list /\
     Bridge.getPendingCommands (produce calls r)
       = (Bridge.getPendingCommands r ++ created)%list /\
     List.map spec_of created = requested calls) /\
  (let '(stored, r') := queueBatch file_key specs r in
   List.map spec_of stored = specs /\
   commands (queue r') = (commands (queue r) ++ stored)%list /\
   Bridge.getPendingCommands r' = (Bridge.getPendingCommands r ++ stored)%list) /\
  sublist (Bridge.getPendingCommands r) (commands (queue r)) /\
  (forall c,
     In c (Bridge.getPendingCommands r)
     <-> In c (commands (queue r)) /\ cmd_status c = pending) /\
  (forall view,
     sublist view (commands (queue r)) ->
     Forall (fun c => cmd_status c = pending) view ->
     sublist view (Bridge.getPendingCommands r)).
Proof.
  split; [|split; [|split; [|split]]].
  - destruct (produce_spec calls r) as (created & Hq & Hs & Hp).
    exists created. repeat split; try done.
    unfold Bridge.getPendingCommands.
    by rewrite Hq, List.filter_app, (filter_all_pending created).
  - pose proof (queueBatch_spec file_key specs r) as H.
    destruct (queueBatch file_key specs r) as [stored r'].
    destruct H as (Hq & _ & Hs & Hp). repeat split; try done.
    unfold Bridge.getPendingCommands.
    by rewrite Hq, List.filter_app, (filter_all_pending stored).
  - apply pending_sublist.
  - intros c. unfold Bridge.getPendingCommands.
    rewrite filter_In, is_pending_true. done.
  - intros view. apply pending_largest.
Qed.

(** *** Identifiers of successive calls *)

Lemma id_of_seed_injective (a b : Z * string) :
  id_of_parts (fst a) (snd a) = id_of_parts (fst b) (snd b) -> a = b.
Proof.
  destruct a as [t1 s1], b as [t2 s2]. cbn [fst snd]. intros H.
  apply id_of_parts_inj in H as [-> ->]. done.
Qed.

Lemma NoDup_map_injective {A B : Type} (f : A -> B) (l : list A) :
  (forall x y, f x = f y -> x = y) -> NoDup l -> NoDup (List.map f l).
Proof.
  intros Hf. induction 1 as [|x l Hx _ IH]; simpl; constructor; [|done].
  rewrite list_elem_of_In, in_map_iff. intros (y & Hy & Hin).
  apply Hf in Hy as ->. by apply list_elem_of_In in Hin.
Qed.

Lemma NoDup_map_source {A B : Type} (f : A -> B) (l : list A) :
  NoDup (List.map f l) -> NoDup l.
Proof.
  induction l as [|x l IH]; simpl; [constructor|].
  intros H. apply NoDup_cons in H as [Hx Hl]. constructor; [|by apply IH].
  contradict Hx. apply list_elem_of_In, in_map. by apply list_elem_of_In.
Qed.

(** C4 as the code has it: the identifier is a function of the clock reading
    and of the nine characters kept from the random draw, and nothing else.
    Successive [queueCommand] calls give pairwise different ids exactly when
    their (time stamp, suffix) pairs are pairwise different; within one
    millisecond this rests on the random suffixes alone. *)
Theorem ids_distinct_iff_seeds_distinct specs r :
  NoDup (List.map cmd_id (fst (enqueue_all specs r)))
  <-> NoDup (id_seeds r (length specs)).
Proof.
  pose proof (enqueue_all_spec specs r) as H.
  destruct (enqueue_all specs r) as [cs r'].
  destruct H as (_ & _ & _ & _ & Hids). cbn [fst]. rewrite Hids. split.
  - apply NoDup_map_source.
  - apply NoDup_map_injective, id_of_seed_injective.
Qed.

(** *** What an operation leaves of a stored command *)

(** What a request can do to the relay: nothing, one [completeCommand]
    call, or the clear-all. *)
Lemma handle_request_relay req r :
  snd (handle_request req r) = r \/
  (exists id result error,
     snd (handle_request req r) = snd (completeCommand id result error r)) \/
  (is_clear_all (OpRequest req) = true /\
   snd (handle_request req r) = clearCommands r).
Proof.
  unfold Bridge.handle_request, is_clear_all.
  destruct (String.eqb (req_method req) "OPTIONS"); [by left|].
  destruct (String.eqb (req_method req) "GET" && String.eqb (req_pathname req) "/commands");
    [by left|].
  destruct (String.eqb (req_method req) "GET" && String.eqb (req_pathname req) "/commands/all");
    [by left|].
  destruct (if String.eqb (req_method req) "POST" then _ else _) as [id|].
  - destruct (read_report (req_body req)) as [[result error]|]; [|by left].
    right; left. exists id, result, error.
    by destruct (completeCommand id result error r).
  - destruct (String.eqb (req_method req) "DELETE" && String.eqb (req_pathname req) "/commands");
      [by right; right|].
    destruct (String.eqb (req_method req) "GET" && String.eqb (req_pathname req) "/health");
      [by left|].
    destruct (String.eqb (req_method req) "GET" && String.eqb (req_pathname req) "/plugin");
      by left.
Qed.

Lemma completeCommand_keeps id result error r (i : nat) c :
  commands (queue r) !! i = Some c ->
  commands (queue (snd (completeCommand id result error r))) !! i = Some c \/
  commands (queue (snd (completeCommand id result error r))) !! i
    = Some (mark_complete result error (Date_now (clock_reads r)) c).
Proof.
  intros Hi. unfold Bridge.completeCommand.
  destruct (find_command id (commands (queue r))); [|by left].
  cbn [snd queue commands].
  destruct (update_first_lookup id
              (mark_complete result error (Date_now (clock_reads r)))
              (commands (queue r)) i c Hi) as [|[_ ?]]; auto.
Qed.

Lemma perform_keeps op r (i : nat) c :
  is_clear_all op = false ->
  commands (queue r) !! i = Some c ->
  commands (queue (perform op r)) !! i = Some c \/
  exists result error now,
    commands (queue (perform op r)) !! i = Some (mark_complete result error now c).
Proof.
  intros Hop Hi. destruct op as [command|file_key specs| | |id result error| |req];
    cbn [Bridge.perform].
  - left. pose proof (queueCommand_spec command r) as H.
    destruct (queueCommand command r) as [c0 r']. destruct H as (Hq & _).
    cbn [snd]. rewrite Hq. by apply lookup_app_l_Some.
  - left. pose proof (queueBatch_spec file_key specs r) as H.
    destruct (queueBatch file_key specs r) as [cs r']. destruct H as (Hq & _).
    cbn [snd]. rewrite Hq. by apply lookup_app_l_Some.
  - by left.
  - by left.
  - destruct (completeCommand_keeps id result error r i c Hi); eauto.
  - discriminate.
  - destruct (handle_request_relay req r) as [->|[(id & result & error & ->)|[Hclear _]]].
    + by left.
    + destruct (completeCommand_keeps id result error r i c Hi); eauto.
    + congruence.
Qed.

Lemma perform_all_keeps ops r (i : nat) c :
  forallb (fun op => negb (is_clear_all op)) ops = true ->
  commands (queue r) !! i = Some c ->
  exists c',
    commands (queue (perform_all ops r)) !! i = Some c' /\
    cmd_id c' = cmd_id c /\ cmd_type c' = cmd_type c /\
    cmd_params c' = cmd_params c /\ cmd_createdAt c' = cmd_createdAt c /\
    (c' = c \/ cmd_status c' = completed \/ cmd_status c' = failed).
Proof.
  revert r c. induction ops as [|op ops IH]; intros r c Hops Hi.
  - exists c. simpl. repeat split; auto.
  - simpl in Hops. apply andb_prop in Hops as [Hop Hops].
    apply negb_true_iff in Hop.
    change (perform_all (op :: ops) r) with (perform_all ops (perform op r)).
    destruct (perform_keeps op r i c Hop Hi) as [H1|(result & error & now & H1)].
    + by apply IH.
    + destruct (IH _ _ Hops H1) as (c' & Hc' & Hid & Hty & Hpa & Hcr & Hst).
      exists c'. repeat split; try done.
      right. destruct Hst as [->|Hst]; [|done].
      simpl. destruct (js_truthy error); auto.
Qed.

(** C9: no operation other than the clear-all ([clearCommands()] and
    [DELETE /commands]) removes a stored command. A pending command is in
    the pending view and keeps its place in the queue through any sequence
    of the other operations, with its id, type, parameters and creation
    time, and it is exactly as it was unless a completion report has made
    it terminal. On every relay, whatever it stores, a [GET] whose target
    has the pathname [/commands] is answered 200 with the file key and
    exactly the pending commands, whatever the request body, and serving
    them changes nothing in the relay. A request other than the preflight
    whose target [new URL] rejects is not answered at all. *)
Theorem pending_never_removed ops r (i : nat) c raw :
  (forallb (fun op => negb (is_clear_all op)) ops = true ->
   commands (queue r) !! i = Some c ->
   cmd_status c = pending ->
   In c (Bridge.getPendingCommands r) /\
   exists c',
     commands (queue (perform_all ops r)) !! i = Some c' /\
     cmd_id c' = cmd_id c /\ cmd_type c' = cmd_type c /\
     cmd_params c' = cmd_params c /\ cmd_createdAt c' = cmd_createdAt c /\
     (c' = c \/ cmd_status c' = completed \/ cmd_status c' = failed)) /\
  (raw_method raw = "GET" ->
   URL_pathname (target raw) = Some "/commands" ->
   listener raw r =
     Answered {| res_status := 200;
                 res_payload := PayloadPending (fileKey (queue r))
                                               (Bridge.getPendingCommands r) |} r) /\
  (forall req,
     req_method req = "GET" ->
     req_pathname req = "/commands" ->
     handle_request req r =
       ({| res_status := 200;
           res_payload := PayloadPending (fileKey (queue r))
                                         (Bridge.getPendingCommands r) |}, r) /\
     perform (OpRequest req) r = r) /\
  (raw_method raw <> "OPTIONS" ->
   URL_pathname (target raw) = None ->
   listener raw r = Uncaught).
Proof.
  assert (forall req,
            req_method req = "GET" -> req_pathname req = "/commands" ->
            handle_request req r =
              ({| res_status := 200;
                  res_payload := PayloadPending (fileKey (queue r))
                                                (Bridge.getPendingCommands r) |}, r))
    as Hget.
  { intros req Hm Hp. unfold Bridge.handle_request. by rewrite Hm, Hp. }
  split; [|split; [|split]].
  - intros Hops Hi Hpending. split; [|by apply perform_all_keeps].
    unfold Bridge.getPendingCommands. apply filter_In. split.
    + apply list_elem_of_In. by eapply list_elem_of_lookup_2.
    + by apply is_pending_true.
  - intros Hm Hp. unfold Bridge.listener. rewrite Hm, Hp.
    change (String.eqb "GET" "OPTIONS") with false. cbv iota.
    by rewrite Hget.
  - intros req Hm Hp. split; [by apply Hget|].
    cbn [Bridge.perform]. by rewrite Hget.
  - intros Hm Hp. unfold Bridge.listener. rewrite Hp.
    apply String.eqb_neq in Hm. by rewrite Hm.
Qed.

End Server.

(** *** Worked examples on the sample host *)

Lemma recomplete_overwrites_example :
  find_command (cmd_id Sample.done_command) (commands (queue Sample.busy_relay))
    = Some Sample.done_command /\
  exists r' c',
    completeCommand Sample.Date_now (cmd_id Sample.done_command)
      JUndefined (JStr "Node not found") Sample.busy_relay = (true, r') /\
    find_command (cmd_id Sample.done_command) (commands (queue r')) = Some c' /\
    cmd_result c' = JUndefined /\
    cmd_error c' = JStr "Node not found" /\
    cmd_completedAt c' = Some 1700000000004%Z /\
    cmd_status c' = failed.
Proof.
  split; [reflexivity|].
  destruct (recomplete_overwrites Sample.Date_now Sample.busy_relay
              (cmd_id Sample.done_command) JUndefined (JStr "Node not found")
              Sample.done_command eq_refl (or_introl eq_refl))
    as (r' & c' & H1 & H2 & H3 & H4 & H5 & H6 & _).
  exists r', c'. repeat split; assumption.
Defined.

Lemma complete_unknown_id_example :
  let known := Sample.complete_request (cmd_id Sample.waiting_command) "{}" in
  let unknown := Sample.complete_request "does-not-exist" "{}" in
  let broken := Sample.complete_request "does-not-exist" "{" in
  completeCommand Sample.Date_now "does-not-exist" JUndefined JUndefined Sample.busy_relay
    = (false, Sample.busy_relay) /\
  handle_request Sample.Date_now Sample.JSON_parse Sample.port unknown Sample.busy_relay
    = ({| res_status := 404; res_payload := PayloadSuccess false |}, Sample.busy_relay) /\
  handle_request Sample.Date_now Sample.JSON_parse Sample.port broken Sample.busy_relay
    = ({| res_status := 400; res_payload := PayloadError "Invalid JSON" |}, Sample.busy_relay) /\
  fst (handle_request Sample.Date_now Sample.JSON_parse Sample.port known Sample.busy_relay)
    = {| res_status := 200; res_payload := PayloadSuccess true |}.
Proof.
  intros known unknown broken.
  destruct (complete_unknown_id Sample.Date_now Sample.JSON_parse Sample.port
              Sample.busy_relay unknown "does-not-exist" eq_refl eq_refl)
    as (Hcall & _ & _ & Hunknown).
  destruct (complete_unknown_id Sample.Date_now Sample.JSON_parse Sample.port
              Sample.busy_relay broken "does-not-exist" eq_refl eq_refl)
    as (_ & Hbroken & Hparse & _).
  destruct (complete_unknown_id Sample.Date_now Sample.JSON_parse Sample.port
              Sample.busy_relay known (cmd_id Sample.waiting_command) eq_refl eq_refl)
    as (_ & _ & _ & Hknown).
  split; [apply Hcall; reflexivity|].
  split; [apply (Hunknown JUndefined JUndefined eq_refl); reflexivity|].
  split; [apply Hbroken, Hparse; [discriminate|reflexivity]|].
  destruct (Hknown JUndefined JUndefined eq_refl) as [_ Hfound].
  destruct (Hfound Sample.waiting_command eq_refl) as [Hresp _].
  rewrite Hresp. reflexivity.
Defined.

Lemma empty_body_completes_example :
  let req := Sample.complete_request (cmd_id Sample.waiting_command) EmptyString in
  exists r' c',
    handle_request Sample.Date_now Sample.JSON_parse Sample.port req Sample.busy_relay
      = ({| res_status := 200; res_payload := PayloadSuccess true |}, r') /\
    find_command (cmd_id Sample.waiting_command) (commands (queue r')) = Some c' /\
    cmd_status c' = completed /\
    cmd_completedAt c' = Some 1700000000004%Z /\
    cmd_result c' = JUndefined /\
    cmd_error c' = JUndefined.
Proof.
  intros req.
  destruct (empty_body_completes Sample.Date_now Sample.JSON_parse Sample.port
              Sample.busy_relay req (cmd_id Sample.waiting_command)
              Sample.waiting_command eq_refl eq_refl
              ltac:(discriminate) eq_refl eq_refl eq_refl)
    as (r' & c' & H1 & _ & H3 & H4 & H5 & H6 & H7).
  exists r', c'. repeat split; assumption.
Defined.

(** P1 of the specification fails on a host that reads the clock twice in one
    millisecond and draws two numbers whose base-36 texts share their first
    eleven characters: both commands receive the same id. *)
Lemma same_millisecond_same_id :
  let created :=
    fst (enqueue_all Sample.frozen_clock Sample.close_draws
           [Sample.hero_frame; Sample.hero_frame] empty_relay) in
  List.map cmd_id created
    = ["cmd_1700000000000_8k2j5h1x9"; "cmd_1700000000000_8k2j5h1x9"] /\
  ~ NoDup (List.map cmd_id created).
Proof.
  intros created.
  assert (List.map cmd_id created
          = ["cmd_1700000000000_8k2j5h1x9"; "cmd_1700000000000_8k2j5h1x9"]) as E
    by (vm_compute; reflexivity).
  split; [exact E|]. rewrite E. intros Hn.
  apply NoDup_cons in Hn as [Hnotin _]. apply Hnotin. left.
Qed.

Lemma ids_distinct_example :
  NoDup (List.map cmd_id
           (fst (enqueue_all Sample.Date_now Sample.Math_random_base36
                   [Sample.hero_frame; Sample.hero_frame; Sample.hero_frame]
                   Sample.busy_relay))).
Proof.
  apply (proj2 (ids_distinct_iff_seeds_distinct Sample.Date_now
                  Sample.Math_random_base36 _ _)).
  apply (bool_decide_unpack _). vm_compute. reflexivity.
Defined.

(** The producer check of the specification is not in the code: a spec that
    leaves [type] out is queued like any other. *)
Lemma missing_type_is_queued :
  let '(c, r') :=
    queueCommand Sample.Date_now Sample.Math_random_base36
      Sample.untyped_command empty_relay in
  spec_type Sample.untyped_command = JUndefined /\
  cmd_type c = JUndefined /\
  cmd_status c = pending /\
  commands (queue r') = [c] /\
  getPendingCommands r' = [c].
Proof. vm_compute. repeat split. Qed.

Lemma pending_in_enqueue_order_example :
  In Sample.waiting_command
     (getPendingCommands Sample.busy_relay) /\
  ~ In Sample.done_command (getPendingCommands Sample.busy_relay) /\
  sublist [Sample.waiting_command] (getPendingCommands Sample.busy_relay) /\
  sublist (getPendingCommands Sample.busy_relay)
          [Sample.done_command; Sample.waiting_command] /\
  exists created,
    getPendingCommands
      (produce Sample.Date_now Sample.Math_random_base36
         [ CallQueueCommand Sample.hero_frame;
           CallQueueBatch "fT3zY6" [Sample.untyped_command; Sample.hero_frame] ]
         Sample.busy_relay)
    = (Sample.waiting_command :: created)%list /\
    List.map spec_of created
    = [Sample.hero_frame; Sample.untyped_command; Sample.hero_frame].
Proof.
  destruct (pending_in_enqueue_order Sample.Date_now Sample.Math_random_base36
              [ CallQueueCommand Sample.hero_frame;
                CallQueueBatch "fT3zY6" [Sample.untyped_command; Sample.hero_frame] ]
              "fT3zY6" [Sample.hero_frame] Sample.busy_relay)
    as ((created & _ & Hview & Hspecs) & _ & Hsub & Hmem & Hmax).
  split; [|split; [|split; [|split]]].
  - apply Hmem. split; [right; left; reflexivity|reflexivity].
  - intros Hin. apply Hmem in Hin as [_ Hstatus]. discriminate Hstatus.
  - apply Hmax.
    + apply sublist_cons. reflexivity.
    + repeat constructor.
  - exact Hsub.
  - exists created. split; [exact Hview|exact Hspecs].
Defined.

Lemma pending_never_removed_example :
  let ops :=
    [ OpQueueCommand Sample.hero_frame;
      OpRequest (Sample.get "/commands");
      OpCompleteCommand (cmd_id Sample.done_command) JNull JUndefined;
      OpRequest (Sample.complete_request "does-not-exist" "{}");
      OpGetAllCommands ] in
  let listener :=
    listener Sample.Date_now Sample.JSON_parse Sample.port Sample.URL_pathname in
  (exists c',
     commands (queue (perform_all Sample.Date_now Sample.Math_random_base36
                        Sample.JSON_parse Sample.port ops Sample.busy_relay)) !! 1%nat
     = Some c' /\
     (c' = Sample.waiting_command \/ cmd_status c' = completed \/ cmd_status c' = failed)) /\
  listener (Sample.incoming "GET" "/commands") Sample.busy_relay
    = Answered {| res_status := 200;
                  res_payload := PayloadPending (Some "fT3zY6") [Sample.waiting_command] |}
               Sample.busy_relay /\
  listener (Sample.incoming "GET" "/commands?since=0") empty_relay
    = Answered {| res_status := 200; res_payload := PayloadPending None [] |}
               empty_relay /\
  listener (Sample.incoming "GET" "//") Sample.busy_relay = Uncaught.
Proof.
  intros ops listener.
  pose proof (pending_never_removed Sample.Date_now Sample.Math_random_base36
                Sample.JSON_parse Sample.port Sample.URL_pathname ops
                Sample.busy_relay 1 Sample.waiting_command
                (Sample.incoming "GET" "/commands"))
    as (Hkept & Hget & _ & _).
  pose proof (pending_never_removed Sample.Date_now Sample.Math_random_base36
                Sample.JSON_parse Sample.port Sample.URL_pathname []
                empty_relay 0 Sample.waiting_command
                (Sample.incoming "GET" "/commands?since=0"))
    as (_ & Hempty & _ & _).
  pose proof (pending_never_removed Sample.Date_now Sample.Math_random_base36
                Sample.JSON_parse Sample.port Sample.URL_pathname []
                Sample.busy_relay 0 Sample.waiting_command
                (Sample.incoming "GET" "//"))
    as (_ & _ & _ & Hthrown).
  split; [|split; [|split]].
  - destruct (Hkept eq_refl eq_refl eq_refl)
      as (_ & c' & Hat & _ & _ & _ & _ & Hstatus).
    exists c'. split; [exact Hat|exact Hstatus].
  - exact (Hget eq_refl eq_refl).
  - exact (Hempty eq_refl eq_refl).
  - apply Hthrown; [discriminate|reflexivity].
Defined.

(** An error that is the empty text is falsy: the command is recorded as
    completed, with that error stored. *)
Example empty_error_counts_as_none :
  let '(found, r) :=
    completeCommand Sample.Date_now (cmd_id Sample.waiting_command)
      JUndefined (JStr EmptyString) Sample.busy_relay in
  found = true /\
  List.map cmd_status (commands (queue r)) = [completed; completed] /\
  List.map cmd_error (commands (queue r)) = [JUndefined; JStr EmptyString].
Proof. vm_compute. repeat split. Qed.

(** A body that is the JSON text of [null] is well-formed, and is answered
    like a malformed one. *)
Example null_body_is_rejected :
  handle_request Sample.Date_now Sample.JSON_parse Sample.port
    (Sample.complete_request (cmd_id Sample.waiting_command) "null") Sample.busy_relay
  = ({| res_status := 400; res_payload := PayloadError "Invalid JSON" |},
     Sample.busy_relay).
Proof. reflexivity. Qed.

(** The frame scenario of the specification: queued, listed as pending,
    completed with a result, no longer listed, and shown as completed in
    the full dump. *)
Example frame_scenario :
  let '(c, r1) :=
    queueCommand Sample.Date_now Sample.Math_random_base36
      Sample.hero_frame empty_relay in
  let '(found, r2) :=
    completeCommand Sample.Date_now (cmd_id c)
      (JObj [("nodeId", JStr "1:23")]) JUndefined r1 in
  getPendingCommands r1 = [c] /\
  found = true /\
  getPendingCommands r2 = [] /\
  List.map cmd_status (commands (getAllCommands r2)) = [completed] /\
  List.map cmd_completedAt (commands (getAllCommands r2)) = [Some 1700000000002%Z].
Proof. vm_compute. repeat split. Qed.

(** The clear scenario of the specification. *)
Example clear_scenario :
  let r5 :=
    snd (queueBatch Sample.Date_now Sample.Math_random_base36 "fT3zY6"
           [ Sample.hero_frame; Sample.hero_frame; Sample.hero_frame;
             Sample.hero_frame; Sample.hero_frame ] empty_relay) in
  let '(res, r) :=
    handle_request Sample.Date_now Sample.JSON_parse Sample.port
      {| req_method := "DELETE"; req_pathname := "/commands";
         req_body := EmptyString |} r5 in
  length (commands (queue r5)) = 5%nat /\
  res = {| res_status := 200; res_payload := PayloadSuccess true |} /\
  getAllCommands r = {| commands := []; fileKey := None |}.
Proof. vm_compute. repeat split. Qed.

Example batch_is_contiguous :
  let '(stored, r') :=
    queueBatch Sample.Date_now Sample.Math_random_base36 "fT3zY6"
      [ Sample.command "create_page" (JObj []);
        Sample.command "create_frame" (JObj []);
        Sample.command "rename_node" (JObj []) ] Sample.busy_relay in
  List.map cmd_type stored
    = [JStr "create_page"; JStr "create_frame"; JStr "rename_node"] /\
  getPendingCommands r' = Sample.waiting_command :: stored /\
  commands (queue r') = Sample.done_command :: Sample.waiting_command :: stored.
Proof. vm_compute. repeat split. Qed.

End BridgeFacts.

(** ** Properties of the polling executor *)

Module PluginFacts.
Import Js Plugin PluginVocabulary.

(** *** Depth of the values a batch walks through *)

Lemma list_max_In {A : Type} (f : A -> nat) (l : list A) (a : A) :
  In a l -> (f a <= list_max (List.map f l))%nat.
Proof.
  induction l as [|b l IH]; simpl; [done|].
  intros [->|H]; [lia|]. specialize (IH H). lia.
Qed.

Lemma assoc_get_depth key fields :
  (js_depth (assoc_get key fields)
   <= list_max (List.map (fun kv => js_depth (snd kv)) fields))%nat.
Proof.
  induction fields as [|[k v] fields IH]; simpl; [lia|].
  destruct (String.eqb k key); simpl; lia.
Qed.

Lemma js_get_depth base key v :
  js_get base key = inr v -> (js_depth v <= js_depth base - 1)%nat.
Proof.
  destruct base; simpl; intros [= <-]; simpl; try lia.
  pose proof (assoc_get_depth key fields). lia.
Qed.

Lemma string_chars_depth s item :
  In item (string_chars s) -> js_depth item = O.
Proof.
  induction s as [|c s IH]; simpl; [done|]. intros [<-|H]; [done|auto].
Qed.

Lemma js_iterate_depth v items item :
  js_iterate v = inr items -> In item items ->
  (js_depth item <= js_depth v - 1)%nat.
Proof.
  destruct v; simpl; intros [= <-] Hin.
  - rewrite (string_chars_depth _ _ Hin). lia.
  - pose proof (list_max_In js_depth _ _ Hin). lia.
Qed.

Lemma js_get_truthy_depth base key v :
  js_get base key = inr v -> js_truthy v = true -> (1 <= js_depth base)%nat.
Proof.
  destruct base; simpl; intros [= <-]; simpl; try discriminate. lia.
Qed.

(** The parameters of a sub-command lie strictly deeper than the batch. *)
Lemma sub_params_depth params commands items cmd sub :
  js_get params "commands" = inr commands ->
  js_iterate (js_or commands (JArr [])) = inr items ->
  In cmd items ->
  js_get cmd "params" = inr sub ->
  (js_depth sub < js_depth params)%nat.
Proof.
  intros Hc Hi Hin Hs.
  pose proof (js_get_depth _ _ _ Hc) as H1.
  pose proof (js_get_depth _ _ _ Hs) as H3.
  unfold js_or in Hi. destruct (js_truthy commands) eqn:Ht.
  - pose proof (js_iterate_depth _ _ _ Hi Hin) as H2.
    pose proof (js_get_truthy_depth _ _ _ Hc Ht). lia.
  - simpl in Hi. injection Hi as <-. destruct Hin.
Qed.

Section Executor.

Variable Doc : Type.
Variable document_handler : string -> Handler Doc.
Variable Object_prototype : string -> option (Member Doc).
Variable TypeError_message : TypeErrorKind -> string.

Local Abbreviation table_with := (table_with Doc document_handler Object_prototype).
Local Abbreviation batch_loop := (batch_loop Doc TypeError_message).
Local Abbreviation batch_body := (batch_body Doc TypeError_message).
Local Abbreviation batch_upto :=
  (batch_upto Doc document_handler Object_prototype TypeError_message).
Local Abbreviation batch :=
  (batch Doc document_handler Object_prototype TypeError_message).
Local Abbreviation handlers :=
  (handlers Doc document_handler Object_prototype TypeError_message).
Local Abbreviation run_loop :=
  (run_loop Doc document_handler Object_prototype TypeError_message).
Local Abbreviation step :=
  (step Doc document_handler Object_prototype TypeError_message).
Local Abbreviation run :=
  (run Doc document_handler Object_prototype TypeError_message).
Local Abbreviation execute :=
  (execute Doc document_handler Object_prototype TypeError_message).
Local Abbreviation Executor := (Executor Doc).

(** *** The batch handler and its recursion *)

Lemma table_with_cases (h1 h2 : Handler Doc) key :
  table_with h1 key = table_with h2 key \/
  (table_with h1 key = Some (own h1) /\ table_with h2 key = Some (own h2)).
Proof.
  unfold Plugin.table_with.
  destruct (existsb _ document_commands); [by left|].
  destruct (String.eqb key "batch"); [by right|by left].
Qed.

(** The loop only consults the batch member on the parameters of its own
    sub-commands. *)
Lemma batch_loop_ext (h1 h2 : Handler Doc) items :
  (forall cmd sub, In cmd items -> js_get cmd "params" = inr sub ->
                   forall d, h1 sub d = h2 sub d) ->
  forall results d,
    batch_loop (table_with h1) items results d
    = batch_loop (table_with h2) items results d.
Proof.
  induction items as [|cmd items IH]; intros Hagree results d; [done|].
  cbn [Plugin.batch_loop].
  destruct (js_get cmd "type") as [e|type]; [done|].
  assert (forall results d,
            batch_loop (table_with h1) items results d
            = batch_loop (table_with h2) items results d) as Hrest.
  { apply IH. intros c sub Hc. apply Hagree. by right. }
  destruct (table_with_cases h1 h2 (js_to_string type)) as [->|[-> ->]].
  - destruct (table_with h2 (js_to_string type)); [|apply Hrest].
    destruct (run_sub _ _ _ _); apply Hrest.
  - unfold run_sub.
    destruct (js_get cmd "params") as [e|sub] eqn:Hsub; [apply Hrest|].
    cbn [call_method own]. rewrite (Hagree cmd sub); [|by left|done].
    destruct (h2 sub d). apply Hrest.
Qed.

Lemma batch_body_ext (h1 h2 : Handler Doc) params :
  (forall sub, (js_depth sub < js_depth params)%nat ->
               forall d, h1 sub d = h2 sub d) ->
  forall d, batch_body (table_with h1) params d
            = batch_body (table_with h2) params d.
Proof.
  intros Hagree d. unfold Plugin.batch_body.
  destruct (js_get params "commands") as [e|commands] eqn:Hc; [done|].
  destruct (js_iterate (js_or commands (JArr []))) as [e|items] eqn:Hi; [done|].
  apply batch_loop_ext. intros cmd sub Hin Hs. apply Hagree.
  by eapply sub_params_depth.
Qed.

(** Any bound above the nesting depth gives the same run: the bound of
    [batch] is never met. *)
Lemma batch_upto_stable n m params d :
  (js_depth params < n)%nat -> (js_depth params < m)%nat ->
  batch_upto n params d = batch_upto m params d.
Proof.
  revert m params d. induction n as [|n IH]; intros m params d Hn Hm; [lia|].
  destruct m as [|m]; [lia|]. cbn [Plugin.batch_upto].
  apply batch_body_ext. intros sub Hsub d'. apply IH; lia.
Qed.

(** The recursion equation of the source: [batch] runs its loop against the
    table that holds [batch] itself. *)
Lemma batch_unfold params d :
  batch params d = batch_body handlers params d.
Proof.
  unfold Plugin.batch at 1. cbn [Plugin.batch_upto]. unfold Plugin.handlers.
  apply batch_body_ext. intros sub Hsub d'.
  unfold Plugin.batch. apply batch_upto_stable; lia.
Qed.

(** *** One entry per dispatched sub-command *)

Lemma batch_loop_entries table items :
  Forall readable items ->
  forall results d,
  exists entries d',
    batch_loop table items results d
      = (Returned (JObj [("batchResults", JArr (results ++ entries))]), d') /\
    Forall2 (fun cmd entry =>
               exists m d0,
                 table (js_to_string (sub_type cmd)) = Some m /\
                 entry = batch_entry (sub_type cmd)
                           (fst (run_sub TypeError_message m cmd d0)))
            (List.filter (dispatched table) items) entries.
Proof.
  induction 1 as [|cmd items [Hnull Hundef] _ IH]; intros results d.
  - exists [], d. simpl. rewrite app_nil_r. split; [done|constructor].
  - cbn [Plugin.batch_loop List.filter].
    destruct (js_get cmd "type") as [e|type] eqn:Htype.
    { destruct cmd; simpl in Htype; congruence. }
    assert (sub_type cmd = type) as Hst by (unfold sub_type; by rewrite Htype).
    unfold dispatched at 1. rewrite Hst.
    destruct (table (js_to_string type)) as [m|] eqn:Hm.
    + destruct (run_sub TypeError_message m cmd d) as [out d1] eqn:Hsub.
      destruct (IH (results ++ [batch_entry type out])%list d1)
        as (entries & d' & Hrun & Hall).
      exists (batch_entry type out :: entries), d'. split.
      * rewrite Hrun. by rewrite <- app_assoc.
      * constructor; [|done]. exists m, d. rewrite Hst, Hsub. done.
    + apply IH.
Qed.

(** *** The machine keeps its reports ahead of its evictions *)

Lemma task_ok_mono (x x' : Executor) t :
  incl (log x) (log x') -> (now x <= now x')%N ->
  task_ok x t -> task_ok x' t.
Proof.
  intros Hlog Hnow. destruct t; simpl; try done.
  all: intros (t0 & bridge & body & Hin & Hle);
    exists t0, bridge, body; split; [by apply Hlog|lia].
Qed.

Lemma timer_ok_mono (x x' : Executor) timer :
  incl (log x) (log x') -> timer_ok x timer -> timer_ok x' timer.
Proof.
  intros Hlog. unfold timer_ok. destruct (snd timer); [|done].
  intros (t0 & bridge & body & Hin & Hle).
  exists t0, bridge, body. split; [by apply Hlog|done].
Qed.

Lemma well_timed_mono (x x' : Executor) :
  incl (log x) (log x') -> (now x <= now x')%N ->
  tasks x' = tasks x -> timers x' = timers x ->
  well_timed x -> well_timed x'.
Proof.
  intros Hlog Hnow Ht Hm [H1 H2]. split.
  - rewrite Ht. eapply Forall_impl; [exact H1|].
    intros t. by apply task_ok_mono.
  - rewrite Hm. eapply Forall_impl; [exact H2|].
    intros t. by apply timer_ok_mono.
Qed.

Lemma well_timed_emit e (x : Executor) :
  well_timed x -> well_timed (emit e x).
Proof.
  apply well_timed_mono; try done. intros a Ha. simpl. apply in_or_app. by left.
Qed.

Lemma well_timed_set_executing s (x : Executor) :
  well_timed x -> well_timed (set_executing s x).
Proof. apply well_timed_mono; (apply incl_refl || done || reflexivity). Qed.

Lemma well_timed_set_document d (x : Executor) :
  well_timed x -> well_timed (set_document d x).
Proof. apply well_timed_mono; (apply incl_refl || done || reflexivity). Qed.

Lemma well_timed_set_running b (x : Executor) :
  well_timed x -> well_timed (set_running b x).
Proof. apply well_timed_mono; (apply incl_refl || done || reflexivity). Qed.

Lemma well_timed_set_bridge url (x : Executor) :
  well_timed x -> well_timed (set_bridge url x).
Proof. apply well_timed_mono; (apply incl_refl || done || reflexivity). Qed.

Lemma well_timed_advance dt (x : Executor) :
  well_timed x -> well_timed (advance dt x).
Proof. apply well_timed_mono; try done; [apply incl_refl|simpl; lia]. Qed.

Lemma well_timed_spawn t (x : Executor) :
  task_ok x t -> well_timed x -> well_timed (spawn t x).
Proof.
  intros Ht [H1 H2]. split; [|done]. simpl. apply Forall_app. split; [done|].
  by constructor.
Qed.

Lemma well_timed_set_task k t (x : Executor) :
  task_ok x t -> well_timed x -> well_timed (set_task k t x).
Proof.
  intros Ht [H1 H2]. split; [|done]. simpl. by apply Forall_insert.
Qed.

Lemma well_timed_setTimeout a delay (x : Executor) :
  timer_ok x ((now x + delay)%N, a) ->
  well_timed x -> well_timed (setTimeout a delay x).
Proof.
  intros Ht [H1 H2]. split; [done|]. simpl. apply Forall_app. split; [done|].
  by constructor.
Qed.

Lemma well_timed_drop_timer k (x : Executor) :
  well_timed x -> well_timed (drop_timer k x).
Proof. intros [H1 H2]. split; [done|]. simpl. by apply Forall_delete. Qed.

Create HintDb timed discriminated.
#[local] Hint Resolve well_timed_emit well_timed_set_executing
  well_timed_set_document well_timed_set_running well_timed_set_bridge
  well_timed_advance well_timed_drop_timer : timed.

Lemma well_timed_pollCommands (x : Executor) :
  well_timed x -> well_timed (pollCommands x).
Proof.
  intros H. unfold pollCommands. destruct (isRunning x); [|done].
  apply well_timed_spawn; [done|]. auto with timed.
Qed.

Lemma well_timed_reschedule k (x : Executor) :
  well_timed x -> well_timed (reschedule k x).
Proof.
  intros H. unfold reschedule. apply well_timed_set_task; [done|].
  by apply well_timed_setTimeout.
Qed.

Lemma well_timed_report_failure k cmd message rest (x : Executor) :
  well_timed x -> well_timed (report_failure k cmd message rest x).
Proof.
  intros H. unfold report_failure. apply well_timed_set_task; [|auto with timed].
  simpl. exists (now x), (BRIDGE_URL x), (ReportError message). split; [|lia].
  apply in_or_app. right. by left.
Qed.

(** The [finally] block runs in a task that has sent its report: the
    eviction it schedules is due a full delay after that report. *)
Lemma well_timed_finally ed cmd (x : Executor) :
  reported (pc_id cmd) (now x) (log x) ->
  well_timed x -> well_timed (finally ed cmd x).
Proof.
  intros (t & bridge & body & Hin & Hle) H. unfold finally.
  destruct (guarded ed); [|done].
  apply well_timed_setTimeout; [|done].
  unfold timer_ok. simpl. exists t, bridge, body. split; [done|].
  unfold EVICTION_DELAY. lia.
Qed.

Lemma well_timed_run_loop ed k cmds (x : Executor) :
  well_timed x -> well_timed (run_loop ed k cmds x).
Proof.
  revert x. induction cmds as [|cmd rest IH]; intros x H.
  - by apply well_timed_reschedule.
  - cbn [Plugin.run_loop].
    destruct (guarded ed && bool_decide (pc_id cmd ∈ executingCommands x));
      [by apply IH|].
    set (x1 := if guarded ed then _ else x).
    assert (well_timed x1) as H1.
    { subst x1. destruct (guarded ed); auto with timed. }
    clearbody x1.
    destruct (Plugin.handlers _ _ _ _ _) as [[hm hf|]|].
    + destruct (hf (pc_params cmd) (document x1)) as [out d'].
      apply well_timed_set_task; [done|]. auto with timed.
    + by apply well_timed_report_failure.
    + by apply well_timed_report_failure.
Qed.

Lemma well_timed_step ed ev (x : Executor) :
  well_timed x -> well_timed (step ed ev x).
Proof.
  intros H. destruct ev as [type url|k failure|k response|k|k failure|k|dt];
    cbn [Plugin.step].
  - unfold on_message.
    destruct (String.eqb type "start").
    { destruct ed.
      - apply well_timed_emit, well_timed_pollCommands. auto with timed.
      - apply well_timed_spawn; [done|]. auto with timed. }
    destruct (String.eqb type "stop"); [|done].
    destruct ed; auto 6 with timed.
  - destruct (tasks x !! k) as [[url| | | | |]|]; try done.
    unfold on_health. destruct failure.
    + apply well_timed_set_task; [done|]. auto with timed.
    + apply well_timed_set_task; [done|].
      do 2 apply well_timed_emit. apply well_timed_pollCommands.
      auto with timed.
  - destruct (tasks x !! k) as [[| | | | |]|]; try done.
    destruct response; [by apply well_timed_run_loop|by apply well_timed_reschedule].
  - destruct (tasks x !! k) as [[| |cmd [result|message] rest| | |]|]; try done.
    + apply well_timed_set_task; [|auto with timed].
      simpl. exists (now x), (BRIDGE_URL x), (ReportResult result). split; [|lia].
      apply in_or_app. right. by left.
    + by apply well_timed_report_failure.
  - destruct (tasks x !! k) as [[| | |cmd rest|cmd message rest|]|] eqn:Hk;
      try done.
    + assert (reported (pc_id cmd) (now x) (log x)) as Hrep.
      { destruct H as [H1 _]. rewrite Forall_lookup in H1. apply (H1 _ _ Hk). }
      destruct failure as [message|].
      * by apply well_timed_report_failure.
      * apply well_timed_run_loop, well_timed_finally; [|auto with timed].
        destruct Hrep as (t & bridge & body & Hin & Hle).
        exists t, bridge, body. split; [|done]. simpl. apply in_or_app. by left.
    + assert (reported (pc_id cmd) (now x) (log x)) as Hrep.
      { destruct H as [H1 _]. rewrite Forall_lookup in H1. apply (H1 _ _ Hk). }
      destruct failure as [message'|].
      * by apply well_timed_reschedule, well_timed_finally.
      * apply well_timed_run_loop, well_timed_finally; [|auto with timed].
        destruct Hrep as (t & bridge & body & Hin & Hle).
        exists t, bridge, body. split; [|done]. simpl. apply in_or_app. by left.
  - destruct (timers x !! k) as [[due a]|]; [|done].
    destruct (due <=? now x)%N; [|done].
    destruct a; cbn [fire].
    + auto with timed.
    + apply well_timed_pollCommands. auto with timed.
  - auto with timed.
Qed.

Lemma well_timed_boot url (d : Doc) : well_timed (boot url d).
Proof. split; constructor. Qed.

Lemma run_app ed evs1 evs2 (x : Executor) :
  run ed (evs1 ++ evs2) x = run ed evs2 (run ed evs1 x).
Proof. unfold Plugin.run. by rewrite fold_left_app. Qed.

Lemma well_timed_run ed evs (x : Executor) :
  well_timed x -> well_timed (run ed evs x).
Proof.
  revert x. induction evs as [|ev evs IH]; intros x H; [done|].
  apply IH. by apply well_timed_step.
Qed.

(** *** What the machine does to [executingCommands] *)

Lemma pollCommands_executing (x : Executor) :
  executingCommands (pollCommands x) = executingCommands x.
Proof. unfold pollCommands. by destruct (isRunning x). Qed.

Lemma finally_executing ed cmd (x : Executor) :
  executingCommands (finally ed cmd x) = executingCommands x.
Proof. unfold finally. by destruct (guarded ed). Qed.

Lemma run_loop_executing ed k cmds (x : Executor) id :
  id ∈ executingCommands x -> id ∈ executingCommands (run_loop ed k cmds x).
Proof.
  revert x. induction cmds as [|cmd rest IH]; intros x Hid; [done|].
  cbn [Plugin.run_loop].
  destruct (guarded ed && bool_decide (pc_id cmd ∈ executingCommands x));
    [by apply IH|].
  set (x1 := if guarded ed then _ else x).
  assert (id ∈ executingCommands x1) as H1.
  { subst x1. destruct (guarded ed); [|done]. simpl. set_solver. }
  clearbody x1.
  destruct (Plugin.handlers _ _ _ _ _) as [[hm hf|]|]; try done.
  by destruct (hf (pc_params cmd) (document x1)).
Qed.

Ltac exec_norm H :=
  repeat (cbn [executingCommands emit spawn set_task setTimeout set_running
               set_bridge set_document set_executing drop_timer advance
               report_failure reschedule] in H;
          rewrite ?pollCommands_executing, ?finally_executing in H).

(** Only three events take an id out of the set. *)
Lemma step_eviction ed ev (x : Executor) id :
  well_timed x ->
  id ∈ executingCommands x ->
  id ∉ executingCommands (step ed ev x) ->
  EvictionCause x id ev.
Proof.
  intros Hinv Hin Hout.
  destruct ev as [type url|k failure|k response|k|k failure|k|dt];
    cbn [Plugin.step] in Hout.
  - unfold on_message in Hout.
    destruct (String.eqb type "start").
    { destruct ed; exec_norm Hout; done. }
    destruct (String.eqb type "stop") eqn:E; [|done].
    apply String.eqb_eq in E as ->. constructor.
  - destruct (tasks x !! k) as [[url'| | | | |]|] eqn:Hk; try done.
    unfold on_health in Hout.
    destruct failure; [exec_norm Hout; done|]. by econstructor.
  - destruct (tasks x !! k) as [[| | | | |]|]; try done.
    destruct response; [|done].
    contradict Hout. by apply run_loop_executing.
  - by destruct (tasks x !! k) as [[| |cmd [result|message] rest| | |]|].
  - destruct (tasks x !! k) as [[| | |cmd rest|cmd message rest|]|]; try done.
    + destruct failure; [done|].
      contradict Hout. apply run_loop_executing.
      by rewrite finally_executing.
    + destruct failure.
      * exec_norm Hout. done.
      * contradict Hout. apply run_loop_executing.
        by rewrite finally_executing.
  - destruct (timers x !! k) as [[due a]|] eqn:Hk; [|done].
    destruct (due <=? now x)%N eqn:Hdue; [|done].
    apply N.leb_le in Hdue.
    destruct a as [id'|]; cbn [fire] in Hout; exec_norm Hout; [|done].
    assert (id = id') as <-.
    { destruct (decide (id = id')) as [|Hne]; [done|].
      contradict Hout. apply elem_of_difference. split; [done|].
      by rewrite elem_of_singleton. }
    destruct Hinv as [_ Htimers]. rewrite Forall_lookup in Htimers.
    destruct (Htimers _ _ Hk) as (t & bridge & body & Hlog & Hle).
    simpl in Hle. econstructor; [done..|].
    exists t, bridge, body. split; [done|lia].
  - done.
Qed.

(** *** Handler calls recorded in the log *)

Lemma invocations_app id l1 l2 :
  invocations id (l1 ++ l2) = (invocations id l1 + invocations id l2)%nat.
Proof. unfold invocations. by rewrite List.filter_app, length_app. Qed.

Lemma invocations_snoc id l t e :
  invocations id (l ++ [(t, e)])
  = (invocations id l
     + match e with
       | Invoke cmd => if String.eqb (pc_id cmd) id then 1 else 0
       | _ => 0
       end)%nat.
Proof.
  rewrite invocations_app. f_equal. unfold invocations. simpl.
  destruct e; try done. by destruct (String.eqb (pc_id cmd) id).
Qed.

Lemma pollCommands_invocations id (x : Executor) :
  invocations id (log (pollCommands x)) = invocations id (log x).
Proof.
  unfold pollCommands. destruct (isRunning x); [|done].
  cbn [log spawn emit]. rewrite invocations_snoc. lia.
Qed.

Lemma finally_log ed cmd (x : Executor) : log (finally ed cmd x) = log x.
Proof. unfold finally. by destruct (guarded ed). Qed.

Ltac log_norm :=
  repeat (cbn [log executingCommands emit spawn set_task setTimeout set_running
               set_bridge set_document set_executing drop_timer advance
               report_failure reschedule];
          rewrite ?invocations_snoc, ?pollCommands_invocations, ?finally_log,
            ?pollCommands_executing, ?finally_executing).

(** One pass of the guarded loop calls the handler of [id] at most once, and
    only if [id] was not in the set; the call leaves [id] in the set. *)
Lemma run_loop_invocations k cmds (x : Executor) id :
  let x' := run_loop Standalone k cmds x in
  invocations id (log x') = invocations id (log x) \/
  (invocations id (log x') = S (invocations id (log x)) /\
   (id ∉ executingCommands x) /\ (id ∈ executingCommands x')).
Proof.
  revert x. induction cmds as [|cmd rest IH]; intros x; [by left|].
  cbn zeta. cbn [Plugin.run_loop guarded andb].
  destruct (bool_decide (pc_id cmd ∈ executingCommands x)) eqn:Hguard;
    [apply IH|].
  apply bool_decide_eq_false in Hguard.
  destruct (Plugin.handlers _ _ _ _ _) as [[hm hf|]|].
  - destruct (hf _ _) as [out d']. log_norm.
    destruct (String.eqb (pc_id cmd) id) eqn:E.
    + apply String.eqb_eq in E as <-. right.
      split; [lia|]. split; [done|set_solver].
    + left. lia.
  - left. log_norm. lia.
  - left. log_norm. lia.
Qed.

Lemma step_invocations ev (x : Executor) id :
  let x' := step Standalone ev x in
  invocations id (log x') = invocations id (log x) \/
  (invocations id (log x') = S (invocations id (log x)) /\
   (id ∉ executingCommands x) /\ (id ∈ executingCommands x')).
Proof.
  cbn zeta.
  destruct ev as [type url|k failure|k response|k|k failure|k|dt];
    cbn [Plugin.step].
  - left. unfold on_message.
    destruct (String.eqb type "start"); [log_norm; lia|].
    destruct (String.eqb type "stop"); [|done]. log_norm. lia.
  - left. destruct (tasks x !! k) as [[url'| | | | |]|]; try done.
    unfold on_health. destruct failure; log_norm; lia.
  - destruct (tasks x !! k) as [[| | | | |]|]; try by left.
    destruct response; [apply run_loop_invocations|by left].
  - left. destruct (tasks x !! k) as [[| |cmd [result|message] rest| | |]|];
      try done; log_norm; lia.
  - destruct (tasks x !! k) as [[| | |cmd rest|cmd message rest|]|]; try by left.
    + destruct failure; [left; log_norm; lia|].
      match goal with |- context [run_loop Standalone k rest ?y] =>
        pose proof (run_loop_invocations k rest y id) as H
      end.
      cbn zeta in H. revert H. log_norm. rewrite Nat.add_0_r. done.
    + destruct failure; [left; by log_norm|].
      match goal with |- context [run_loop Standalone k rest ?y] =>
        pose proof (run_loop_invocations k rest y id) as H
      end.
      cbn zeta in H. revert H. log_norm. rewrite Nat.add_0_r. done.
  - left. destruct (timers x !! k) as [[due a]|]; [|done].
    destruct (due <=? now x)%N; [|done].
    destruct a; cbn [fire]; by log_norm.
  - by left.
Qed.

(** While [id] is in the set, no event calls its handler. *)
Lemma run_invocations_guarded evs (x : Executor) id :
  (forall n, (n < length evs)%nat ->
             id ∈ executingCommands (run Standalone (take n evs) x)) ->
  invocations id (log (run Standalone evs x)) = invocations id (log x).
Proof.
  revert x. induction evs as [|ev evs IH]; intros x Hstay; [done|].
  change (run Standalone (ev :: evs) x) with (run Standalone evs (step Standalone ev x)).
  rewrite IH.
  - destruct (step_invocations ev x id) as [|(_ & Hout & _)]; [done|].
    contradict Hout. apply (Hstay O). simpl. lia.
  - intros n Hn. apply (Hstay (S n)). simpl. lia.
Qed.

(** If [id] is never taken out of the set during a run, the run calls its
    handler at most once. *)
Lemma run_invocations_once evs (x : Executor) id :
  (forall n, (n < length evs)%nat ->
             id ∈ executingCommands (run Standalone (take n evs) x) ->
             id ∈ executingCommands (run Standalone (take (S n) evs) x)) ->
  (invocations id (log (run Standalone evs x)) <= S (invocations id (log x)))%nat.
Proof.
  revert x. induction evs as [|ev evs IH]; intros x Hstay; [simpl; lia|].
  change (run Standalone (ev :: evs) x) with (run Standalone evs (step Standalone ev x)).
  assert (forall n, (n < length evs)%nat ->
            id ∈ executingCommands (run Standalone (take n evs) (step Standalone ev x)) ->
            id ∈ executingCommands (run Standalone (take (S n) evs) (step Standalone ev x)))
    as Hstay'.
  { intros n Hn. apply (Hstay (S n)). simpl. lia. }
  destruct (step_invocations ev x id) as [Hsame|(Hmore & _ & Hin)].
  - rewrite <- Hsame. by apply IH.
  - rewrite run_invocations_guarded; [lia|].
    induction n as [|n IHn]; intros Hn; [done|].
    apply Hstay'; [lia|]. apply IHn. lia.
Qed.

(** *** The specified properties of the executor *)

Lemma handlers_batch : handlers "batch" = Some (own batch).
Proof. reflexivity. Qed.

(** Every command type of the producer's enumeration has its own handler. *)
Lemma enumeration_is_handled type :
  In type Bridge.command_types ->
  exists h, handlers type = Some (own h).
Proof.
  unfold Bridge.command_types. cbn [In].
  intros H. repeat (destruct H as [<-|H]; [by eexists|]). destruct H.
Qed.

Lemma report_recorded (Date_now : nat -> Z) r id c received error :
  Bridge.find_command id (Bridge.commands (Bridge.queue r)) = Some c ->
  exists r' c',
    Bridge.completeCommand Date_now id received error r = (true, r') /\
    Bridge.find_command id (Bridge.commands (Bridge.queue r')) = Some c' /\
    Bridge.cmd_status c'
      = (if js_truthy error then Bridge.failed else Bridge.completed) /\
    Bridge.cmd_result c' = received /\
    Bridge.cmd_error c' = error.
Proof.
  intros Hc.
  destruct (BridgeFacts.completeCommand_present Date_now id received error r c Hc)
    as (r' & Hcall & Hfound & _).
  eexists r', _. repeat split; [exact Hcall|exact Hfound|..]; reflexivity.
Qed.

(** The types for which [handlers[type]] is [undefined]: the ones that are
    none of the thirteen keys of the table and name no inherited member. *)
Lemma handlers_None_iff type :
  handlers type = None <->
  ~ In type Bridge.command_types /\ Object_prototype type = None.
Proof.
  unfold Plugin.handlers, Plugin.table_with.
  destruct (existsb (String.eqb type) document_commands) eqn:Hdoc.
  - split; [discriminate|]. intros [Hnot _]. exfalso. apply Hnot.
    apply existsb_exists in Hdoc as (key & Hkey & Heq).
    apply String.eqb_eq in Heq as ->.
    unfold document_commands in Hkey. unfold Bridge.command_types.
    cbn [In] in *. tauto.
  - destruct (String.eqb type "batch") eqn:Hbatch.
    + split; [discriminate|]. intros [Hnot _]. exfalso. apply Hnot.
      apply String.eqb_eq in Hbatch as ->.
      unfold Bridge.command_types. cbn [In]. tauto.
    + split.
      * intros Hproto. split; [|done]. intros Hin.
        unfold Bridge.command_types in Hin. cbn [In] in Hin.
        repeat (destruct Hin as [<-|Hin];
                [by (vm_compute in Hdoc; vm_compute in Hbatch)|]).
        destruct Hin.
      * by intros [_ Hproto].
Qed.


(** The loop of the batch handler follows the batch policy. *)
Lemma batch_loop_runs table items :
  Forall readable items ->
  forall results d,
  exists entries d',
    batch_loop table items results d
      = (Returned (JObj [("batchResults", JArr (results ++ entries))]), d') /\
    runs_in_order TypeError_message table items d entries d' /\
    length entries = length (List.filter (dispatched table) items).
Proof.
  induction 1 as [|cmd items [Hnull Hundef] _ IH]; intros results d.
  - exists [], d. simpl. rewrite app_nil_r. split; [done|]. split; [constructor|done].
  - cbn [Plugin.batch_loop List.filter].
    destruct (js_get cmd "type") as [e|type] eqn:Htype.
    { destruct cmd; simpl in Htype; congruence. }
    assert (sub_type cmd = type) as Hst by (unfold sub_type; by rewrite Htype).
    unfold dispatched at 1. rewrite Hst.
    destruct (table (js_to_string type)) as [m|] eqn:Hm.
    + destruct (run_sub TypeError_message m cmd d) as [out d1] eqn:Hsub.
      destruct (IH (results ++ [batch_entry type out])%list d1)
        as (entries & d' & Hrun & Hall & Hlen).
      exists (batch_entry type out :: entries), d'. split; [|split].
      * rewrite Hrun. by rewrite <- app_assoc.
      * pose proof (runs_called TypeError_message table cmd items d m entries d') as Hstep.
        rewrite Hst, Hsub in Hstep. by apply Hstep.
      * simpl. by rewrite Hlen.
    + destruct (IH results d) as (entries & d' & Hrun & Hall & Hlen).
      exists entries, d'. split; [done|]. split; [|done].
      apply runs_passed_over; [by rewrite Hst|done].
Qed.


(** C1 as the code has it, for the stand-alone plugin. A polled command
    whose id is in [executingCommands] is passed over: the loop goes on as if
    the response did not hold it. While the id stays in the set no event
    calls its handler, and a run in which the id is never taken out of the
    set calls its handler at most once. An id leaves the set in two ways
    only: its eviction timer fires, no earlier than the eviction delay after
    a completion report for it was sent; or the whole set is cleared by a
    [stop] message or by a successful connection probe. *)
Theorem dispatch_at_most_once url (d0 : Doc) history evs ev k cmd rest :
  let x := run Standalone history (boot url d0) in
  let id := pc_id cmd in
  (forall n, (n < length evs)%nat ->
             id ∈ executingCommands (run Standalone (take n evs) x) ->
             id ∈ executingCommands (run Standalone (take (S n) evs) x)) ->
  (id ∈ executingCommands x ->
   run_loop Standalone k (cmd :: rest) x = run_loop Standalone k rest x) /\
  (id ∈ executingCommands x ->
   invocations id (log (run Standalone evs x)) = invocations id (log x)) /\
  (invocations id (log (run Standalone evs x)) <= S (invocations id (log x)))%nat /\
  (id ∈ executingCommands (run Standalone evs x) ->
   id ∉ executingCommands (step Standalone ev (run Standalone evs x)) ->
   EvictionCause (run Standalone evs x) id ev).
Proof.
  intros x id Hstay. split; [|split; [|split]].
  - intros Hin. cbn [Plugin.run_loop guarded andb].
    by rewrite bool_decide_eq_true_2.
  - intros Hin. apply run_invocations_guarded.
    induction n as [|n IHn]; intros Hn; [done|].
    apply Hstay; [lia|]. apply IHn. lia.
  - by apply run_invocations_once.
  - apply step_eviction. apply well_timed_run, well_timed_run, well_timed_boot.
Qed.

End Executor.

(** *** Worked examples on the sample host *)





(** A type that names an inherited member is not an unknown type for the
    test [if (!handler)]: on this host a command of type [toString] has the
    inherited function called, and one of type [__proto__] fails on the call
    of a value that is no function. *)
Example inherited_member_is_called :
  let odd := Sample.polled "cmd_1700000000004_eeeeeeeee" "toString" (JObj []) in
  let worse := Sample.polled "cmd_1700000000005_fffffffff" "__proto__" (JObj []) in
  tasks (Sample.run_plugin Standalone
           (Sample.connected ++ [PollSettled 1 (Some [odd])])%list)
  = [Finished; Running odd (Returned (JStr "[object Undefined]")) []] /\
  tasks (Sample.run_plugin Standalone
           (Sample.connected ++ [PollSettled 1 (Some [worse])])%list)
  = [Finished; ReportingFailure worse "handler is not a function" []].
Proof. vm_compute. split; reflexivity. Qed.

(** A batch in which every sub-command fails is still reported as a result,
    without error. *)
Example failed_batch_is_reported_as_result :
  let cmd :=
    Sample.polled "cmd_1700000000003_ddddddddd" "batch"
      (JObj [("commands",
              JArr [Sample.sub_command "delete_node"; Sample.sub_command "delete_node"])]) in
  let x :=
    Sample.run_plugin Standalone
      (Sample.connected ++ [ PollSettled 1 (Some [cmd]); HandlerSettled 1 ])%list in
  last (log x)
  = Some (0%N,
          PostComplete Sample.bridge (pc_id cmd)
            (ReportResult
               (JObj [("batchResults",
                       JArr [ JObj [("type", JStr "delete_node"); ("success", JBool false);
                                    ("error", JStr "Node not found")];
                              JObj [("type", JStr "delete_node"); ("success", JBool false);
                                    ("error", JStr "Node not found")] ])]))).
Proof. vm_compute. reflexivity. Qed.

(** The served program handles nothing: whatever arrives, its state is the
    one it was given. *)
Example served_program_is_inert :
  execute Sample.Doc Sample.document_handler Sample.Object_prototype
    Sample.TypeError_message Served
    [ UiMessage "start" JUndefined; PollSettled 0 (Some [Sample.new_page]);
      Tick 1000; TimerFired 0 ]
    (boot Sample.bridge [])
  = boot Sample.bridge [].
Proof. reflexivity. Qed.

Lemma dispatch_at_most_once_example :
  let id := pc_id Sample.new_page in
  let history := (Sample.connected_twice ++ [PollSettled 1 (Some [Sample.new_page])])%list in
  let evs := [ PollSettled 3 (Some [Sample.new_page]); HandlerSettled 1;
               PostSettled 1 None; Tick 5000 ] in
  invocations id (log (Sample.run_plugin Standalone (history ++ evs))) = 1%nat /\
  EvictionCause (Sample.run_plugin Standalone (history ++ evs)) id (TimerFired 1).
Proof.
  intros id history evs.
  destruct (dispatch_at_most_once Sample.Doc Sample.document_handler
              Sample.Object_prototype Sample.TypeError_message
              Sample.bridge [] history evs (TimerFired 1) 3 Sample.new_page [])
    as (_ & Hcount & _ & Hcause).
  { intros n Hn _.
    destruct n as [|[|[|[|n]]]];
      [apply (bool_decide_unpack _); vm_compute; reflexivity..|simpl in Hn; lia]. }
  unfold Sample.run_plugin. rewrite run_app. subst id. split.
  - rewrite Hcount; [vm_compute; reflexivity|].
    apply (bool_decide_unpack _). vm_compute. reflexivity.
  - apply Hcause; apply (bool_decide_unpack _); vm_compute; reflexivity.
Defined.

(** The guard of the specification fails against a [stop] message: the id of
    a command whose handler is still running leaves the set at once, no
    report sent and no time elapsed. After the next [start] the same polled
    command is dispatched a second time. *)
Lemma stop_evicts_before_report :
  let id := pc_id Sample.new_page in
  let history := [ UiMessage "start" JUndefined; HealthSettled 0 None;
                   PollSettled 1 (Some [Sample.new_page]) ] in
  let x := Sample.run_plugin Standalone history in
  let x' := Sample.run_plugin Standalone (history ++ [UiMessage "stop" JUndefined]) in
  let x'' := Sample.run_plugin Standalone
               (history ++ [ UiMessage "stop" JUndefined;
                             UiMessage "start" JUndefined; HealthSettled 2 None;
                             PollSettled 3 (Some [Sample.new_page]) ]) in
  (id ∈ executingCommands x) /\
  (id ∉ executingCommands x') /\
  now x' = 0%N /\
  Forall (fun te => match snd te with
                    | PostComplete _ _ _ => False
                    | _ => True
                    end) (log x') /\
  invocations id (log x'') = 2%nat.
Proof.
  intros id history x x' x''.
  split; [apply (bool_decide_unpack _); vm_compute; reflexivity|].
  split; [apply (bool_decide_unpack _); vm_compute; reflexivity|].
  split; [vm_compute; reflexivity|].
  split; [vm_compute; repeat constructor|vm_compute; reflexivity].
Qed.

End PluginFacts.

(** ** Further properties of the relay *)

Module RelayFacts.
Import Js Bridge BridgeVocabulary BridgeFacts.

(** *** The pattern of the completion route *)

Lemma strip_prefix_Some p s rest :
  strip_prefix p s = Some rest <-> s = p +:+ rest.
Proof.
  revert s. induction p as [|a p IH]; intros s; cbn [strip_prefix String.append].
  - split; [by intros [= ->]|by intros ->].
  - destruct s as [|b s]; [split; discriminate|].
    destruct (Ascii.eqb a b) eqn:E.
    + apply Ascii.eqb_eq in E as ->. rewrite IH.
      split; [by intros ->|by intros [= ->]].
    + apply Ascii.eqb_neq in E. split; [discriminate|].
      intros [= -> _]. contradiction.
Qed.

Lemma split_slash_Some s seg tail :
  split_slash s = (seg, Some tail) ->
  s = seg +:+ tail /\ slash_free seg = true /\
  exists t, tail = String "/"%char t.
Proof.
  revert seg. induction s as [|c s IH]; intros seg; cbn [split_slash];
    [discriminate|].
  destruct (Ascii.eqb c "/"%char) eqn:E.
  - intros [= <- <-]. apply Ascii.eqb_eq in E as ->. repeat split. by eexists.
  - destruct (split_slash s) as [seg0 tail0]. intros [= <- ->].
    destruct (IH seg0 eq_refl) as (-> & Hf & t & ->).
    repeat split; [|by eexists].
    unfold slash_free in *. cbn [lacks]. by rewrite E, Hf.
Qed.

(** X1: the pattern [/^\/commands\/([^/]+)\/complete$/] accepts exactly the
    paths [/commands/<id>/complete] whose [<id>] is non-empty and holds no
    slash, and captures that [<id>]. *)
Theorem match_complete_iff pathname id :
  match_complete pathname = Some id <->
  pathname = "/commands/" +:+ id +:+ "/complete" /\
  id <> EmptyString /\ slash_free id = true.
Proof.
  split.
  - unfold match_complete.
    destruct (strip_prefix "/commands/" pathname) as [rest|] eqn:Hp; [|discriminate].
    apply strip_prefix_Some in Hp as ->.
    destruct (split_slash rest) as [seg [tail|]] eqn:Hs; [|discriminate].
    apply split_slash_Some in Hs as (-> & Hfree & _).
    destruct (String.eqb seg EmptyString) eqn:Hne; [discriminate|].
    destruct (String.eqb tail "/complete") eqn:Ht; [|discriminate].
    intros [= <-]. apply String.eqb_eq in Ht as ->.
    apply String.eqb_neq in Hne. done.
  - intros (-> & Hne & Hfree). by apply match_complete_path.
Qed.

(** *** Counting pending commands *)

Lemma pending_le_total cs :
  (length (List.filter is_pending cs) <= length cs)%nat.
Proof.
  induction cs as [|c cs IH]; simpl; [done|].
  destruct (is_pending c); simpl; lia.
Qed.

Lemma pending_after_update id f cs c :
  (forall c0, is_pending (f c0) = false) ->
  find_command id cs = Some c ->
  (length (List.filter is_pending (update_first id f cs))
   + (if is_pending c then 1 else 0)
   = length (List.filter is_pending cs))%nat.
Proof.
  intros Hf. induction cs as [|c0 cs IH]; cbn [find_command update_first];
    [discriminate|].
  destruct (String.eqb (cmd_id c0) id).
  - intros [= <-]. cbn [List.filter]. rewrite Hf.
    destruct (is_pending c0); simpl; lia.
  - intros H. specialize (IH H). cbn [List.filter].
    destruct (is_pending c0); simpl; lia.
Qed.

Lemma update_first_Forall (P Q : DesignCommand -> Prop) id f cs :
  (forall c, P c -> Q c) -> (forall c, P c -> Q (f c)) ->
  Forall P cs -> Forall Q (update_first id f cs).
Proof.
  intros HPQ Hf. induction 1 as [|c cs Hc Hcs IH]; cbn [update_first];
    [constructor|].
  destruct (String.eqb (cmd_id c) id); constructor; auto.
  eapply Forall_impl; eauto.
Qed.

(** Completion reaches the first command carrying the id: a command that
    shares its id with an earlier one is out of reach. *)
Lemma update_first_shadowed id f cs (i j : nat) ci cj :
  (i < j)%nat -> cs !! i = Some ci -> cs !! j = Some cj ->
  cmd_id ci = cmd_id cj ->
  update_first id f cs !! j = Some cj.
Proof.
  revert i j. induction cs as [|c0 cs IH]; intros i j Hlt Hi Hj Hid; [done|].
  cbn [update_first]. destruct (String.eqb (cmd_id c0) id) eqn:E.
  - destruct j as [|j]; [lia|]. done.
  - destruct j as [|j]; [lia|]. destruct i as [|i].
    + injection Hi as ->. change (update_first id f cs !! j = Some cj).
      apply update_first_other; [done|].
      rewrite <- Hid. by apply String.eqb_neq.
    + change (update_first id f cs !! j = Some cj).
      apply (IH i j); [lia|done|done|done].
Qed.

Lemma mark_complete_not_pending result error now c :
  is_pending (mark_complete result error now c) = false.
Proof. unfold is_pending. simpl. by destruct (js_truthy error). Qed.

Section Server.

Variable Date_now : nat -> Z.
Variable Math_random_base36 : nat -> string.
Variable JSON_parse : string -> option JsValue.
Variable port : nat.
Variable URL_pathname : string -> option string.

Local Abbreviation queueCommand := (queueCommand Date_now Math_random_base36).
Local Abbreviation enqueue_all := (enqueue_all Date_now Math_random_base36).
Local Abbreviation queueBatch := (queueBatch Date_now Math_random_base36).
Local Abbreviation completeCommand := (completeCommand Date_now).
Local Abbreviation read_report := (read_report JSON_parse).
Local Abbreviation handle_request := (handle_request Date_now JSON_parse port).
Local Abbreviation listener := (listener Date_now JSON_parse port URL_pathname).
Local Abbreviation perform := (perform Date_now Math_random_base36 JSON_parse port).
Local Abbreviation perform_all := (perform_all Date_now Math_random_base36 JSON_parse port).
Local Abbreviation stamped := (stamped Date_now Math_random_base36).

(** *** What a request can change *)

Lemma handle_request_mutations req r :
  let res := fst (handle_request req r) in
  let r' := snd (handle_request req r) in
  (res_status res = 200 \/ res_status res = 400 \/ res_status res = 404)%nat /\
  (res_status res <> 200%nat -> r' = r) /\
  (r' <> r ->
   (req_method req = "POST" /\
    exists id result error c,
      match_complete (req_pathname req) = Some id /\
      read_report (req_body req) = Some (result, error) /\
      find_command id (commands (queue r)) = Some c /\
      r' = snd (completeCommand id result error r)) \/
   (req_method req = "DELETE" /\ req_pathname req = "/commands" /\
    r' = clearCommands r)).
Proof.
  assert (forall (res : Response) (P : Prop),
            (res_status res = 200 \/ res_status res = 400 \/ res_status res = 404)%nat ->
            (res_status res = 200 \/ res_status res = 400 \/ res_status res = 404)%nat /\
            (res_status res <> 200%nat -> r = r) /\ (r <> r -> P)) as Hsame.
  { intros res P H. split; [done|]. split; [done|]. intros Hne. by destruct Hne. }
  unfold Bridge.handle_request.
  destruct (String.eqb (req_method req) "OPTIONS"); [apply Hsame; cbn; auto|].
  destruct (String.eqb (req_method req) "GET" && String.eqb (req_pathname req) "/commands");
    [apply Hsame; cbn; auto|].
  destruct (String.eqb (req_method req) "GET" && String.eqb (req_pathname req) "/commands/all");
    [apply Hsame; cbn; auto|].
  destruct (String.eqb (req_method req) "POST") eqn:Hpost.
  - apply String.eqb_eq in Hpost.
    destruct (match_complete (req_pathname req)) as [id|] eqn:Hmatch.
    + destruct (read_report (req_body req)) as [[result error]|] eqn:Hread;
        [|apply Hsame; cbn; auto].
      destruct (find_command id (commands (queue r))) as [c|] eqn:Hfind.
      * pose proof (eq_refl (completeCommand id result error r)) as Hc.
        unfold Bridge.completeCommand at 2 in Hc. rewrite Hfind in Hc.
        rewrite Hc. simpl. split; [auto|]. split; [done|].
        intros _. left. split; [done|].
        exists id, result, error, c. repeat split; try done.
        by rewrite Hc.
      * rewrite (completeCommand_absent Date_now id result error r Hfind).
        apply Hsame; cbn; auto.
    + rewrite Hpost.
      destruct (String.eqb (req_pathname req) "/commands");
        cbn [andb]; apply Hsame; cbn; auto.
  - destruct (String.eqb (req_method req) "DELETE" && String.eqb (req_pathname req) "/commands")
      eqn:Hdel.
    + apply andb_prop in Hdel as [Hm Hp].
      apply String.eqb_eq in Hm, Hp. simpl.
      split; [auto|]. split; [done|]. intros _. right. done.
    + destruct (String.eqb (req_method req) "GET" && String.eqb (req_pathname req) "/health");
        [apply Hsame; cbn; auto|].
      destruct (String.eqb (req_method req) "GET" && String.eqb (req_pathname req) "/plugin");
        apply Hsame; cbn; auto.
Qed.

(** X2: a call of the listener ends without a response exactly when the
    method is not [OPTIONS] and [new URL] rejects the target. Otherwise the
    listener answers 200, 400 or 404; a response other than 200 leaves the
    relay as it was; and the relay changes only through a POST on the
    completion route whose body is readable and whose id is stored, or
    through [DELETE /commands]. *)
Theorem request_mutations raw r :
  (listener raw r = Uncaught
   <-> raw_method raw <> "OPTIONS" /\ URL_pathname (target raw) = None) /\
  forall res r',
    listener raw r = Answered res r' ->
    (res_status res = 200 \/ res_status res = 400 \/ res_status res = 404)%nat /\
    (res_status res <> 200%nat -> r' = r) /\
    (r' <> r ->
     (raw_method raw = "POST" /\
      exists pathname id result error c,
        URL_pathname (target raw) = Some pathname /\
        match_complete pathname = Some id /\
        read_report (raw_body raw) = Some (result, error) /\
        find_command id (commands (queue r)) = Some c /\
        r' = snd (completeCommand id result error r)) \/
     (raw_method raw = "DELETE" /\
      URL_pathname (target raw) = Some "/commands" /\
      r' = clearCommands r)).
Proof.
  unfold Bridge.listener.
  destruct (String.eqb (raw_method raw) "OPTIONS") eqn:Hoptions.
  - apply String.eqb_eq in Hoptions. split.
    + split; [discriminate|]. by intros [Hne _].
    + intros res r' [= <- <-]. cbn [res_status].
      split; [auto|]. split; [done|]. intros Hne. by destruct Hne.
  - apply String.eqb_neq in Hoptions.
    destruct (URL_pathname (target raw)) as [pathname|] eqn:Hurl.
    + pose proof (handle_request_mutations
                    {| req_method := raw_method raw; req_pathname := pathname;
                       req_body := raw_body raw |} r) as H.
      cbv zeta in H. cbn [req_method req_pathname req_body] in H.
      destruct (handle_request
                  {| req_method := raw_method raw; req_pathname := pathname;
                     req_body := raw_body raw |} r) as [res0 r0].
      cbn [fst snd] in H. destruct H as (Hstatus & Hsame & Hchange).
      split; [split; [discriminate|by intros [_ ?]]|].
      intros res r' [= <- <-]. split; [done|]. split; [done|].
      intros Hne. destruct (Hchange Hne)
        as [(Hm & id & result & error & c & Hmatch & Hread & Hfind & Hr)
           |(Hm & Hp & Hr)].
      * left. split; [done|]. by exists pathname, id, result, error, c.
      * right. by rewrite <- Hp.
    + split; [done|]. discriminate.
Qed.

Lemma completeCommand_ids id result error r :
  List.map cmd_id (commands (queue (snd (completeCommand id result error r))))
  = List.map cmd_id (commands (queue r)).
Proof.
  unfold Bridge.completeCommand.
  destruct (find_command id (commands (queue r))); [|done].
  cbn [snd queue commands].
  induction (commands (queue r)) as [|c0 cs IH]; cbn [update_first]; [done|].
  destruct (String.eqb (cmd_id c0) id); cbn [List.map]; [done|]. by rewrite IH.
Qed.

(** X3: no request adds a command. After any request the stored ids are the
    ones stored before, in the same order, or the queue is empty; in
    particular [POST /commands], which the header of the file names as the
    way to queue commands, is answered 404 and stores nothing. *)
Theorem no_request_enqueues req r :
  let r' := snd (handle_request req r) in
  (List.map cmd_id (commands (queue r')) = List.map cmd_id (commands (queue r)) \/
   commands (queue r') = []) /\
  (length (commands (queue r')) <= length (commands (queue r)))%nat /\
  forall body,
    handle_request {| req_method := "POST"; req_pathname := "/commands";
                      req_body := body |} r
    = ({| res_status := 404; res_payload := PayloadError "Not found" |}, r).
Proof.
  cbv zeta. split; [|split].
  - destruct (handle_request_relay Date_now JSON_parse port req r)
      as [->|[(id & result & error & ->)|[_ ->]]].
    + by left.
    + left. apply completeCommand_ids.
    + by right.
  - destruct (handle_request_relay Date_now JSON_parse port req r)
      as [->|[(id & result & error & ->)|[_ ->]]].
    + done.
    + rewrite <- (length_map cmd_id), completeCommand_ids, length_map. done.
    + simpl. lia.
  - intros body. reflexivity.
Qed.

(** *** The counts of the health route *)

Lemma enqueue_all_length specs r :
  commands (queue (snd (enqueue_all specs r)))
  = (commands (queue r) ++ fst (enqueue_all specs r))%list /\
  length (fst (enqueue_all specs r)) = length specs /\
  Forall (fun c => cmd_status c = pending) (fst (enqueue_all specs r)).
Proof.
  pose proof (enqueue_all_spec Date_now Math_random_base36 specs r) as H.
  destruct (enqueue_all specs r) as [cs r']. cbn [fst snd].
  destruct H as (Hq & _ & Hs & Hp & _). repeat split; try done.
  by rewrite <- Hs, length_map.
Qed.

(** X4: on every relay, whatever it stores, a [GET] whose target has the
    pathname [/health] is answered with the number of stored commands in
    status [pending] and the number of stored commands, the first never
    above the second, and changes nothing. A batch of [n] specs raises both
    by [n]; a completion report leaves the total, lowers the pending count
    by one exactly when the first command with its id was pending, and
    changes nothing when no command has its id. *)
Theorem health_counts raw r file_key specs id result error :
  (raw_method raw = "GET" ->
   URL_pathname (target raw) = Some "/health" ->
   listener raw r
   = Answered {| res_status := 200;
                 res_payload := PayloadHealth (pending_count r) (total_count r) |} r) /\
  (forall req,
     req_method req = "GET" ->
     req_pathname req = "/health" ->
     handle_request req r
     = ({| res_status := 200;
           res_payload := PayloadHealth (pending_count r) (total_count r) |}, r)) /\
  (pending_count r <= total_count r)%nat /\
  (let r1 := snd (queueBatch file_key specs r) in
   pending_count r1 = (pending_count r + length specs)%nat /\
   total_count r1 = (total_count r + length specs)%nat) /\
  (let r2 := snd (completeCommand id result error r) in
   total_count r2 = total_count r /\
   match find_command id (commands (queue r)) with
   | Some c => (pending_count r2 + (if is_pending c then 1 else 0))%nat = pending_count r
   | None => r2 = r
   end).
Proof.
  assert (forall req,
            req_method req = "GET" -> req_pathname req = "/health" ->
            handle_request req r
            = ({| res_status := 200;
                  res_payload := PayloadHealth (pending_count r) (total_count r) |}, r))
    as Hhealth.
  { intros req Hm Hp. unfold Bridge.handle_request. rewrite Hm, Hp. reflexivity. }
  split; [|split; [|split; [|split]]].
  - intros Hm Hp. unfold Bridge.listener. rewrite Hm, Hp.
    change (String.eqb "GET" "OPTIONS") with false. cbv iota.
    by rewrite Hhealth.
  - exact Hhealth.
  - apply pending_le_total.
  - cbv zeta. unfold Bridge.queueBatch.
    match goal with |- context [enqueue_all specs ?r0] =>
      destruct (enqueue_all_length specs r0) as (Hq & Hlen & Hpend) end.
    unfold pending_count, total_count, getPendingCommands.
    rewrite Hq. cbn [queue commands].
    rewrite List.filter_app, (filter_all_pending _ Hpend), !length_app, Hlen.
    done.
  - cbv zeta. unfold Bridge.completeCommand.
    destruct (find_command id (commands (queue r))) as [c|] eqn:Hfind;
      [|done].
    unfold pending_count, total_count, getPendingCommands.
    cbn [snd queue commands]. split.
    + apply update_first_length.
    + apply pending_after_update; [|done].
      intros c0. apply mark_complete_not_pending.
Qed.

(** *** Invariants of the stored commands *)

Lemma enqueue_all_cons s specs r :
  snd (enqueue_all (s :: specs) r) = snd (enqueue_all specs (snd (queueCommand s r))).
Proof.
  cbn [Bridge.enqueue_all].
  destruct (queueCommand s r) as [c r1]. cbn [snd].
  by destruct (enqueue_all specs r1).
Qed.

(** An invariant of the four writers of the queue is an invariant of every
    operation. *)
Lemma perform_invariant (P : Relay -> Prop) :
  (forall command r, P r -> P (snd (queueCommand command r))) ->
  (forall file_key r, P r ->
     P {| queue := {| commands := commands (queue r); fileKey := Some file_key |};
          clock_reads := clock_reads r; random_draws := random_draws r |}) ->
  (forall id result error r, P r -> P (snd (completeCommand id result error r))) ->
  (forall r, P r -> P (clearCommands r)) ->
  forall op r, P r -> P (perform op r).
Proof.
  intros Hqueue Hkey Hcomplete Hclear op r Hr.
  destruct op as [command|file_key specs| | |id result error| |req];
    cbn [Bridge.perform]; auto.
  - unfold Bridge.queueBatch.
    match goal with |- context [enqueue_all specs ?r0] =>
      assert (P r0) as H0 by auto; generalize dependent r0 end.
    clear Hr. induction specs as [|s specs IH]; intros r0 H0; [done|].
    rewrite enqueue_all_cons. apply IH. auto.
  - destruct (handle_request_relay Date_now JSON_parse port req r)
      as [->|[(id & result & error & ->)|[_ ->]]]; auto.
Qed.

Lemma perform_all_invariant (P : Relay -> Prop) :
  (forall op r, P r -> P (perform op r)) ->
  forall ops r, P r -> P (perform_all ops r).
Proof.
  intros Hstep ops. induction ops as [|op ops IH]; intros r Hr; [done|].
  change (perform_all (op :: ops) r) with (perform_all ops (perform op r)).
  auto.
Qed.

Lemma tidy_mark_complete result error now c : tidy (mark_complete result error now c).
Proof.
  unfold tidy. simpl. split; [by destruct (js_truthy error)|done].
Qed.

(** X5: the relay never stores the status [executing], and every command it
    holds as completed or failed has its [completedAt] set: this holds after
    any sequence of operations on a relay where it held, the empty relay in
    particular. *)
Theorem stored_commands_tidy ops r :
  Forall tidy (commands (queue r)) ->
  Forall tidy (commands (queue (perform_all ops r))) /\
  Forall tidy (commands (queue (perform_all ops empty_relay))).
Proof.
  assert (forall op r0, Forall tidy (commands (queue r0)) ->
                        Forall tidy (commands (queue (perform op r0)))) as Hstep.
  { apply (perform_invariant (fun r0 => Forall tidy (commands (queue r0)))).
    - intros command r0 H. cbn. apply Forall_app. split; [done|].
      constructor; [|constructor]. split; [done|].
      intros [?|?]; discriminate.
    - done.
    - intros id result error r0 H. unfold Bridge.completeCommand.
      destruct (find_command id (commands (queue r0))); [|done].
      cbn [snd queue commands].
      apply (update_first_Forall tidy tidy); auto.
      intros c _. apply tidy_mark_complete.
    - intros r0 _. constructor. }
  intros H. split.
  - by apply (perform_all_invariant (fun r0 => Forall tidy (commands (queue r0)))).
  - apply (perform_all_invariant (fun r0 => Forall tidy (commands (queue r0))));
      [done|constructor].
Qed.

(** X6: a stored command that is completed or failed never becomes pending
    again: through any operations other than the clear-all it keeps its
    place and stays completed or failed. *)
Theorem terminal_is_absorbing ops r (i : nat) c :
  forallb (fun op => negb (is_clear_all op)) ops = true ->
  commands (queue r) !! i = Some c ->
  terminal c ->
  exists c',
    commands (queue (perform_all ops r)) !! i = Some c' /\
    cmd_id c' = cmd_id c /\ terminal c' /\
    ~ In c' (getPendingCommands (perform_all ops r)).
Proof.
  intros Hops Hi Hterm.
  destruct (perform_all_keeps Date_now Math_random_base36 JSON_parse port
              ops r i c Hops Hi) as (c' & Hc' & Hid & _ & _ & _ & Hst).
  assert (terminal c') as Hterm' by (destruct Hst as [->|?]; done).
  exists c'. repeat split; try done.
  unfold getPendingCommands. rewrite filter_In, is_pending_true.
  intros [_ Hp]. destruct Hterm'; congruence.
Qed.

Lemma perform_keeps_shadowed op r (i j : nat) ci cj :
  is_clear_all op = false ->
  (i < j)%nat ->
  commands (queue r) !! i = Some ci ->
  commands (queue r) !! j = Some cj ->
  cmd_id ci = cmd_id cj ->
  commands (queue (perform op r)) !! j = Some cj.
Proof.
  intros Hop Hlt Hi Hj Hid.
  assert (forall id result error,
            commands (queue (snd (completeCommand id result error r))) !! j = Some cj)
    as Hcomplete.
  { intros id result error. unfold Bridge.completeCommand.
    destruct (find_command id (commands (queue r))); [|done].
    cbn [snd queue commands]. by apply (update_first_shadowed _ _ _ i j ci cj). }
  destruct op as [command|file_key specs| | |id result error| |req];
    cbn [Bridge.perform]; auto.
  - pose proof (queueCommand_spec Date_now Math_random_base36 command r) as H.
    destruct (queueCommand command r) as [c0 r']. destruct H as (Hq & _).
    cbn [snd]. rewrite Hq. by apply lookup_app_l_Some.
  - pose proof (queueBatch_spec Date_now Math_random_base36 file_key specs r) as H.
    destruct (queueBatch file_key specs r) as [cs r']. destruct H as (Hq & _).
    cbn [snd]. rewrite Hq. by apply lookup_app_l_Some.
  - discriminate.
  - destruct (handle_request_relay Date_now JSON_parse port req r)
      as [->|[(id & result & error & ->)|[Hclear _]]]; auto.
    congruence.
Qed.

(** X7: completion only ever reaches the first stored command that carries
    an id. A command stored behind another one with the same id is left
    exactly as it is by every sequence of operations other than the
    clear-all: if it is pending, no completion report can take it out of
    the pending view. *)
Theorem duplicate_id_is_out_of_reach ops r (i j : nat) ci cj :
  forallb (fun op => negb (is_clear_all op)) ops = true ->
  (i < j)%nat ->
  commands (queue r) !! i = Some ci ->
  commands (queue r) !! j = Some cj ->
  cmd_id ci = cmd_id cj ->
  commands (queue (perform_all ops r)) !! j = Some cj /\
  (cmd_status cj = pending -> In cj (getPendingCommands (perform_all ops r))).
Proof.
  intros Hops Hlt Hi Hj Hid.
  assert (commands (queue (perform_all ops r)) !! j = Some cj) as Hkept.
  { revert r ci Hi Hj Hid. induction ops as [|op ops IH]; intros r ci Hi Hj Hid;
      [done|].
    simpl in Hops. apply andb_prop in Hops as [Hop Hops].
    apply negb_true_iff in Hop.
    change (perform_all (op :: ops) r) with (perform_all ops (perform op r)).
    assert (exists ci', commands (queue (perform op r)) !! i = Some ci' /\
                        cmd_id ci' = cmd_id ci) as (ci' & Hi' & Hid').
    { destruct (perform_keeps Date_now Math_random_base36 JSON_parse port
                  op r i ci Hop Hi) as [H|(result & error & now & H)]; eauto. }
    apply (IH Hops _ ci'); [done| |congruence].
    by apply (perform_keeps_shadowed op r i j ci cj). }
  split; [done|]. intros Hp.
  unfold getPendingCommands. apply filter_In. split.
  - apply list_elem_of_In. by eapply list_elem_of_lookup_2.
  - by apply is_pending_true.
Qed.

(** X8: the file key is what the latest [queueBatch] call gave, an empty
    batch included; [queueCommand], the readers and the completion reports
    leave it, and the clear-all unsets it. *)
Theorem fileKey_follows_batches op r :
  fileKey (queue (perform op r))
  = match op with
    | OpQueueBatch file_key _ => Some file_key
    | _ => if is_clear_all op then None else fileKey (queue r)
    end.
Proof.
  assert (forall id result error,
            fileKey (queue (snd (completeCommand id result error r)))
            = fileKey (queue r)) as Hcomplete.
  { intros id result error. unfold Bridge.completeCommand.
    by destruct (find_command id (commands (queue r))). }
  destruct op as [command|file_key specs| | |id result error| |req];
    cbn [Bridge.perform is_clear_all]; auto.
  - pose proof (queueBatch_spec Date_now Math_random_base36 file_key specs r) as H.
    destruct (queueBatch file_key specs r) as [cs r']. by destruct H as (_ & Hk & _).
  - destruct (String.eqb (req_method req) "DELETE" && String.eqb (req_pathname req) "/commands")
      eqn:Hdel.
    + apply andb_prop in Hdel as [Hm Hp]. apply String.eqb_eq in Hm, Hp.
      unfold Bridge.handle_request. rewrite Hm, Hp. reflexivity.
    + destruct (handle_request_relay Date_now JSON_parse port req r)
        as [->|[(id & result & error & ->)|[Hclear _]]]; auto.
      cbn [is_clear_all] in Hclear. congruence.
Qed.

(** X9: after [DELETE /commands] nothing is pending, the dump is empty, and
    a completion report for any id, the ids served before included, is
    answered 404 (or 400 when its body cannot be read) and changes
    nothing. *)
Theorem reports_after_clear_are_lost r req id body :
  req_method req = "POST" ->
  match_complete (req_pathname req) = Some id ->
  let r0 := snd (handle_request {| req_method := "DELETE"; req_pathname := "/commands";
                                   req_body := body |} r) in
  getPendingCommands r0 = [] /\
  getAllCommands r0 = {| commands := []; fileKey := None |} /\
  handle_request req r0
  = (match read_report (req_body req) with
     | Some _ => {| res_status := 404; res_payload := PayloadSuccess false |}
     | None => {| res_status := 400; res_payload := PayloadError "Invalid JSON" |}
     end, r0).
Proof.
  intros Hm Hp r0. split; [done|]. split; [done|].
  rewrite (handle_request_complete Date_now JSON_parse port req r0 id Hm Hp).
  by destruct (read_report (req_body req)) as [[result error]|].
Qed.

(** *** Time stamps *)

Lemma stamped_later r r' c :
  (clock_reads r <= clock_reads r')%nat -> stamped r c -> stamped r' c.
Proof.
  intros Hle (n & k & Hid & Hcr & Hn & Hdone).
  exists n, k. repeat split; [done|done|lia|].
  intros Hterm. destruct (Hdone Hterm) as (j & Hj & Hat).
  exists j. split; [lia|done].
Qed.

Lemma stamped_step op r :
  Forall (stamped r) (commands (queue r)) ->
  Forall (stamped (perform op r)) (commands (queue (perform op r))).
Proof.
  revert r.
  apply (perform_invariant (fun r => Forall (stamped r) (commands (queue r)))).
  - intros command r H. cbn [Bridge.queueCommand snd queue commands].
    apply Forall_app. split.
    + eapply Forall_impl; [exact H|]. intros c. apply stamped_later. simpl. lia.
    + constructor; [|constructor].
      exists (clock_reads r), (random_draws r). simpl.
      repeat split; [lia|]. intros [?|?]; discriminate.
  - intros file_key r H. eapply Forall_impl; [exact H|]. intros c Hc. exact Hc.
  - intros id result error r H. unfold Bridge.completeCommand.
    destruct (find_command id (commands (queue r))); [|done].
    cbn [snd queue commands].
    eapply (update_first_Forall (stamped r)); [| |exact H].
    + intros c. apply stamped_later. simpl. lia.
    + intros c (n & k & Hid & Hcr & Hn & _).
      exists n, k. simpl. repeat split; [done|done|lia|].
      intros _. exists (clock_reads r). split; [lia|done].
  - intros r _. constructor.
Qed.

(** X10: on a host whose clock never goes back, the time stamps of every
    command that operations on the empty relay have stored are in order: the
    one in its id is no later than [createdAt], and [completedAt] of a
    completed or failed command is no earlier than [createdAt]. *)
Theorem timestamps_in_order ops :
  (forall i j, (i <= j)%nat -> (Date_now i <= Date_now j)%Z) ->
  Forall (fun c =>
            (exists stamp suffix,
               cmd_id c = id_of_parts stamp suffix /\
               (stamp <= cmd_createdAt c)%Z) /\
            (terminal c ->
             exists done, cmd_completedAt c = Some done /\
                          (cmd_createdAt c <= done)%Z))
         (commands (queue (perform_all ops empty_relay))).
Proof.
  intros Hmono.
  assert (Forall (stamped (perform_all ops empty_relay))
                 (commands (queue (perform_all ops empty_relay)))) as H.
  { apply (perform_all_invariant (fun r => Forall (stamped r) (commands (queue r)))).
    - intros op r. apply stamped_step.
    - constructor. }
  eapply Forall_impl; [exact H|].
  intros c (n & k & Hid & Hcr & Hn & Hdone). split.
  - exists (Date_now n), (String.substring 2 9 (Math_random_base36 k)).
    split; [exact Hid|]. rewrite Hcr. apply Hmono. lia.
  - intros Hterm. destruct (Hdone Hterm) as (j & Hj & Hat).
    exists (Date_now j). split; [done|]. rewrite Hcr. apply Hmono. lia.
Qed.

(** *** From the producer to the report and back *)

Lemma find_command_last id cs c :
  find_command id cs = None -> cmd_id c = id ->
  find_command id (cs ++ [c]) = Some c.
Proof.
  intros Hnone Hid. induction cs as [|c0 cs IH]; cbn [find_command app].
  - by rewrite Hid, String.eqb_refl.
  - cbn [find_command] in Hnone.
    destruct (String.eqb (cmd_id c0) id); [discriminate|]. by apply IH.
Qed.

Lemma update_first_last id f cs c :
  find_command id cs = None -> cmd_id c = id ->
  update_first id f (cs ++ [c]) = (cs ++ [f c])%list.
Proof.
  intros Hnone Hid. induction cs as [|c0 cs IH]; cbn [update_first app].
  - by rewrite Hid, String.eqb_refl.
  - cbn [find_command] in Hnone.
    destruct (String.eqb (cmd_id c0) id); [discriminate|]. by rewrite IH.
Qed.

(** X11: the round trip of a command. Let [queueCommand] store a command
    whose id no stored command carries yet, on a host whose random texts
    hold no slash. Then the path the executor posts its report to,
    [/commands/<id>/complete], is taken by the completion route, the answer
    is 200, the command just stored is the one that becomes completed or
    failed, and the pending view is again what it was before the command
    was queued. *)
Theorem enqueue_complete_round_trip command r body result error :
  let c := fst (queueCommand command r) in
  let r1 := snd (queueCommand command r) in
  let req := {| req_method := "POST";
                req_pathname := "/commands/" +:+ cmd_id c +:+ "/complete";
                req_body := body |} in
  slash_free (String.substring 2 9 (Math_random_base36 (random_draws r))) = true ->
  find_command (cmd_id c) (commands (queue r)) = None ->
  read_report body = Some (result, error) ->
  exists r2,
    handle_request req r1
    = ({| res_status := 200; res_payload := PayloadSuccess true |}, r2) /\
    commands (queue r2)
    = (commands (queue r)
       ++ [mark_complete result error (Date_now (clock_reads r1)) c])%list /\
    getPendingCommands r1 = (getPendingCommands r ++ [c])%list /\
    getPendingCommands r2 = getPendingCommands r.
Proof.
  intros c r1 req Hfree Hfresh Hread.
  assert (match_complete (req_pathname req) = Some (cmd_id c)) as Hroute.
  { apply match_complete_path; by apply fresh_id_routable. }
  assert (commands (queue r1) = (commands (queue r) ++ [c])%list) as Hq by done.
  rewrite (handle_request_complete Date_now JSON_parse port req r1 (cmd_id c) eq_refl Hroute).
  change (req_body req) with body. rewrite Hread.
  unfold Bridge.completeCommand. rewrite Hq.
  rewrite (find_command_last _ _ c Hfresh eq_refl).
  rewrite (update_first_last _ _ _ c Hfresh eq_refl).
  eexists. split; [reflexivity|]. cbn [queue commands]. split; [done|].
  unfold getPendingCommands. rewrite Hq. cbn [queue commands].
  rewrite !List.filter_app. cbn [List.filter].
  rewrite mark_complete_not_pending.
  change (is_pending c) with true. by rewrite app_nil_r.
Qed.

End Server.

(** *** Worked examples on the sample host *)

Lemma request_mutations_example :
  let listener :=
    listener Sample.Date_now Sample.JSON_parse Sample.port Sample.URL_pathname in
  let report :=
    {| raw_method := "POST";
       raw_url := "/commands/" +:+ cmd_id Sample.waiting_command +:+ "/complete";
       raw_body := "{}" |} in
  let reported :=
    snd (completeCommand Sample.Date_now (cmd_id Sample.waiting_command)
           JUndefined JUndefined Sample.busy_relay) in
  listener (Sample.incoming "GET" "//") Sample.busy_relay = Uncaught /\
  listener (Sample.incoming "OPTIONS" "//") Sample.busy_relay
  = Answered {| res_status := 200; res_payload := PayloadNone |} Sample.busy_relay /\
  listener report Sample.busy_relay
  = Answered {| res_status := 200; res_payload := PayloadSuccess true |} reported /\
  reported <> Sample.busy_relay /\
  raw_method report = "POST".
Proof.
  intros listener report reported.
  destruct (request_mutations Sample.Date_now Sample.JSON_parse Sample.port
              Sample.URL_pathname (Sample.incoming "GET" "//") Sample.busy_relay)
    as (Hthrown & _).
  destruct (request_mutations Sample.Date_now Sample.JSON_parse Sample.port
              Sample.URL_pathname report Sample.busy_relay)
    as (_ & Hanswered).
  assert (listener report Sample.busy_relay
          = Answered {| res_status := 200; res_payload := PayloadSuccess true |}
                     reported) as Hrun
    by (vm_compute; reflexivity).
  assert (reported <> Sample.busy_relay) as Hne by (vm_compute; discriminate).
  split; [|split; [|split; [|split]]].
  - apply Hthrown. split; [discriminate|reflexivity].
  - vm_compute. reflexivity.
  - exact Hrun.
  - exact Hne.
  - destruct (Hanswered _ _ Hrun) as (_ & _ & Hchange).
    destruct (Hchange Hne) as [[Hpost _]|[Hdelete _]]; [exact Hpost|discriminate].
Defined.

Lemma health_counts_example :
  let listener :=
    listener Sample.Date_now Sample.JSON_parse Sample.port Sample.URL_pathname in
  listener (Sample.incoming "GET" "/health") empty_relay
  = Answered {| res_status := 200; res_payload := PayloadHealth 0 0 |} empty_relay /\
  listener (Sample.incoming "GET" "/health?verbose=1") Sample.busy_relay
  = Answered {| res_status := 200; res_payload := PayloadHealth 1 2 |}
             Sample.busy_relay /\
  pending_count
    (snd (completeCommand Sample.Date_now (cmd_id Sample.waiting_command)
            JUndefined JUndefined Sample.busy_relay)) = 0%nat /\
  snd (completeCommand Sample.Date_now "does-not-exist" JUndefined JUndefined
         empty_relay) = empty_relay.
Proof.
  intros listener.
  destruct (health_counts Sample.Date_now Sample.Math_random_base36
              Sample.JSON_parse Sample.port Sample.URL_pathname
              (Sample.incoming "GET" "/health") empty_relay
              "fT3zY6" [Sample.hero_frame] "does-not-exist" JUndefined JUndefined)
    as (Hempty & _ & _ & _ & _ & Habsent).
  destruct (health_counts Sample.Date_now Sample.Math_random_base36
              Sample.JSON_parse Sample.port Sample.URL_pathname
              (Sample.incoming "GET" "/health?verbose=1") Sample.busy_relay
              "fT3zY6" [Sample.hero_frame]
              (cmd_id Sample.waiting_command) JUndefined JUndefined)
    as (Hres & _ & _ & _ & _ & Hdown).
  split; [exact (Hempty eq_refl eq_refl)|].
  split; [exact (Hres eq_refl eq_refl)|].
  split; [|exact Habsent].
  change (find_command (cmd_id Sample.waiting_command)
            (commands (queue Sample.busy_relay)))
    with (Some Sample.waiting_command) in Hdown.
  cbv iota in Hdown.
  change (is_pending Sample.waiting_command) with true in Hdown.
  change (pending_count Sample.busy_relay) with 1%nat in Hdown.
  cbv iota in Hdown. lia.
Defined.

Lemma busy_relay_tidy : Forall tidy (commands (queue Sample.busy_relay)).
Proof.
  repeat constructor; try discriminate; intros [?|?]; discriminate.
Qed.

Lemma stored_commands_tidy_example :
  Forall tidy
    (commands (queue (perform_all Sample.Date_now Sample.Math_random_base36
                        Sample.JSON_parse Sample.port Sample.session
                        Sample.busy_relay))).
Proof.
  exact (proj1 (stored_commands_tidy Sample.Date_now Sample.Math_random_base36
                  Sample.JSON_parse Sample.port Sample.session
                  Sample.busy_relay busy_relay_tidy)).
Defined.

Lemma terminal_is_absorbing_example :
  exists c',
    commands (queue (perform_all Sample.Date_now Sample.Math_random_base36
                       Sample.JSON_parse Sample.port
                       (OpCompleteCommand (cmd_id Sample.done_command)
                          JUndefined (JStr "late failure") :: Sample.session)
                       Sample.busy_relay)) !! 0%nat = Some c' /\
    terminal c'.
Proof.
  destruct (terminal_is_absorbing Sample.Date_now Sample.Math_random_base36
              Sample.JSON_parse Sample.port
              (OpCompleteCommand (cmd_id Sample.done_command)
                 JUndefined (JStr "late failure") :: Sample.session)
              Sample.busy_relay 0 Sample.done_command
              eq_refl eq_refl (or_introl eq_refl))
    as (c' & Hat & _ & Hterm & _).
  exists c'. split; assumption.
Defined.

Lemma duplicate_id_example :
  let id := cmd_id (Sample.twin "create_page") in
  let ops := [ OpCompleteCommand id (JObj []) JUndefined;
               OpRequest (Sample.complete_request id "{}");
               OpCompleteCommand id JUndefined (JStr "again") ] in
  let r := perform_all Sample.Date_now Sample.Math_random_base36
             Sample.JSON_parse Sample.port ops Sample.twin_relay in
  commands (queue r) !! 1%nat = Some (Sample.twin "create_frame") /\
  In (Sample.twin "create_frame") (getPendingCommands r).
Proof.
  intros id ops r.
  destruct (duplicate_id_is_out_of_reach Sample.Date_now Sample.Math_random_base36
              Sample.JSON_parse Sample.port ops Sample.twin_relay 0 1
              (Sample.twin "create_page") (Sample.twin "create_frame")
              eq_refl ltac:(lia) eq_refl eq_refl eq_refl) as [Hkept Hpending].
  split; [exact Hkept|]. apply Hpending. reflexivity.
Defined.

Lemma reports_after_clear_example :
  let req := Sample.complete_request (cmd_id Sample.waiting_command) "{}" in
  let cleared := snd (handle_request Sample.Date_now Sample.JSON_parse Sample.port
                        Sample.delete_all Sample.busy_relay) in
  handle_request Sample.Date_now Sample.JSON_parse Sample.port req cleared
  = ({| res_status := 404; res_payload := PayloadSuccess false |}, cleared).
Proof.
  intros req cleared.
  destruct (reports_after_clear_are_lost Sample.Date_now Sample.JSON_parse
              Sample.port Sample.busy_relay req (cmd_id Sample.waiting_command)
              EmptyString eq_refl eq_refl) as (_ & _ & Hlost).
  exact Hlost.
Defined.

Lemma sample_clock_monotone i j :
  (i <= j)%nat -> (Sample.Date_now i <= Sample.Date_now j)%Z.
Proof. unfold Sample.Date_now. lia. Qed.

Lemma timestamps_in_order_example :
  Forall (fun c =>
            terminal c ->
            exists done, cmd_completedAt c = Some done /\
                         (cmd_createdAt c <= done)%Z)
         (commands (queue (perform_all Sample.Date_now Sample.Math_random_base36
                             Sample.JSON_parse Sample.port Sample.session
                             empty_relay))).
Proof.
  eapply Forall_impl.
  - exact (timestamps_in_order Sample.Date_now Sample.Math_random_base36
             Sample.JSON_parse Sample.port Sample.session sample_clock_monotone).
  - intros c [_ H]. exact H.
Defined.

Lemma enqueue_complete_round_trip_example :
  let c := fst (queueCommand Sample.Date_now Sample.Math_random_base36
                  Sample.hero_frame Sample.busy_relay) in
  exists r2,
    handle_request Sample.Date_now Sample.JSON_parse Sample.port
      (Sample.complete_request (cmd_id c) "{}")
      (snd (queueCommand Sample.Date_now Sample.Math_random_base36
              Sample.hero_frame Sample.busy_relay))
    = ({| res_status := 200; res_payload := PayloadSuccess true |}, r2) /\
    getPendingCommands r2 = [Sample.waiting_command].
Proof.
  intros c.
  destruct (enqueue_complete_round_trip Sample.Date_now Sample.Math_random_base36
              Sample.JSON_parse Sample.port Sample.hero_frame Sample.busy_relay
              "{}" JUndefined JUndefined eq_refl eq_refl eq_refl)
    as (r2 & Hres & _ & _ & Hpending).
  exists r2. split; [exact Hres|exact Hpending].
Defined.

(** The session on the sample host: the first command of the batch is
    completed over HTTP, the second fails, the third one is still pending. *)
Example session_outcome :
  let r := perform_all Sample.Date_now Sample.Math_random_base36
             Sample.JSON_parse Sample.port Sample.session empty_relay in
  List.map cmd_status (commands (queue r)) = [completed; failed; pending] /\
  List.map cmd_completedAt (commands (queue r))
  = [Some 1700000000004%Z; Some 1700000000007%Z; None] /\
  fileKey (queue r) = Some "fT3zY6".
Proof. vm_compute. repeat split. Qed.

End RelayFacts.

(** ** Properties of starting and stopping the server *)

Module LifecycleFacts.
Import Lifecycle.

Section Host.

Variable listen : nat -> ListenOutcome.

Lemma start_skips_ports_in_use (n : nat) : forall retries port current,
  (forall i, (i < n)%nat -> listen (port + i)%nat = AddressInUse) ->
  (n <= retries)%nat ->
  startBridgeServer listen retries port {| server := None; serverPort := current |}
  = startBridgeServer listen (retries - n) (port + n)%nat
      {| server := None; serverPort := current |}.
Proof.
  induction n as [|n IH]; intros retries port current Hbusy Hle.
  - by rewrite Nat.sub_0_r, Nat.add_0_r.
  - destruct retries as [|retries]; [lia|].
    cbn [startBridgeServer server serverPort].
    rewrite <- (Nat.add_0_r port) at 1. rewrite (Hbusy 0%nat) by lia.
    rewrite IH; [|intros i Hi|lia].
    + by replace (S port + n)%nat with (port + S n)%nat by lia.
    + replace (S port + i)%nat with (port + S i)%nat by lia. apply Hbusy. lia.
Qed.

(** X12: [startBridgeServer(port)] on a stopped module binds the first port
    at or above [port] that is not in use, however many are: the promise
    resolves with that port, [getBridgePort] answers it, and the request
    listener that is bound serves under [/plugin] the plugin program
    generated for that very port. *)
Theorem start_binds_first_free_port retries port (n : nat) s :
  server s = None ->
  (forall i, (i < n)%nat -> listen (port + i)%nat = AddressInUse) ->
  listen (port + n)%nat = Listening ->
  (n <= retries)%nat ->
  exists s',
    startBridgeServer listen retries port s = Some (Resolved (port + n)%nat, s') /\
    getBridgePort s' = Some (port + n)%nat /\
    listening_on s' = Some (port + n)%nat /\
    forall Date_now JSON_parse body r,
      answer Date_now JSON_parse s'
        {| Bridge.req_method := "GET"; Bridge.req_pathname := "/plugin";
           Bridge.req_body := body |} r
      = Some ({| Bridge.res_status := 200;
                 Bridge.res_payload := Bridge.PayloadPluginCode (port + n) |}, r).
Proof.
  intros Hs Hbusy Hfree Hle. destruct s as [srv current]. simpl in Hs. subst srv.
  rewrite (start_skips_ports_in_use n) by done.
  eexists. split; [|split; [|split]].
  - destruct (retries - n)%nat; cbn [startBridgeServer server]; by rewrite Hfree.
  - reflexivity.
  - reflexivity.
  - intros Date_now JSON_parse body r. reflexivity.
Qed.

(** X13: while a server is set, [startBridgeServer] resolves with the port
    in use without binding anything, whatever port is asked for; after
    [stopBridgeServer] no port is reported, stopping again changes nothing,
    and the next start binds the port it is given. *)
Theorem restart_round_trip retries p q s :
  server s = None ->
  listen p = Listening ->
  listen q = Listening ->
  exists s1 s2,
    startBridgeServer listen retries p s = Some (Resolved p, s1) /\
    startBridgeServer listen retries q s1 = Some (Resolved p, s1) /\
    getBridgePort (stopBridgeServer s1) = None /\
    stopBridgeServer (stopBridgeServer s1) = stopBridgeServer s1 /\
    startBridgeServer listen retries q (stopBridgeServer s1) = Some (Resolved q, s2) /\
    getBridgePort s2 = Some q /\
    listening_on s2 = Some q.
Proof.
  intros Hs Hp Hq. destruct s as [srv current]. simpl in Hs. subst srv.
  do 2 eexists. split; [|split; [|split; [|split; [|split; [|split]]]]].
  - destruct retries; cbn [startBridgeServer server]; by rewrite Hp.
  - by destruct retries.
  - reflexivity.
  - reflexivity.
  - destruct retries; cbn [startBridgeServer stopBridgeServer server serverPort];
      by rewrite Hq.
  - reflexivity.
  - reflexivity.
Qed.

End Host.

(** X14: when binding fails for a reason other than [EADDRINUSE], the promise
    is rejected but [server] stays set: [getBridgePort] goes on answering
    the port recorded before although nothing is bound, and every later
    [startBridgeServer], whatever the port and whatever the operating system
    would answer, resolves with that port without binding. *)
Theorem failed_start_leaves_server_set listen retries port (n : nat) message s :
  server s = None ->
  (forall i, (i < n)%nat -> listen (port + i)%nat = AddressInUse) ->
  listen (port + n)%nat = OtherError message ->
  (n <= retries)%nat ->
  exists s',
    startBridgeServer listen retries port s = Some (Rejected message, s') /\
    getBridgePort s' = Some (serverPort s) /\
    listening_on s' = None /\
    forall listen' retries' port',
      startBridgeServer listen' retries' port' s' = Some (Resolved (serverPort s), s').
Proof.
  intros Hs Hbusy Hfail Hle. destruct s as [srv current]. simpl in Hs. subst srv.
  rewrite (start_skips_ports_in_use listen n) by done.
  eexists. split; [|split; [|split]].
  - destruct (retries - n)%nat; cbn [startBridgeServer server]; by rewrite Hfail.
  - reflexivity.
  - reflexivity.
  - intros listen' retries' port'. by destruct retries'.
Qed.

Lemma sample_ports_in_use i :
  (i < 2)%nat -> Sample.listen (3847 + i)%nat = AddressInUse.
Proof. intros Hi. destruct i as [|[|i]]; [reflexivity|reflexivity|lia]. Qed.

Lemma start_binds_first_free_port_example :
  exists s',
    startBridgeServer Sample.listen 5 3847 initial = Some (Resolved 3849, s') /\
    getBridgePort s' = Some 3849%nat.
Proof.
  destruct (start_binds_first_free_port Sample.listen 5 3847 2 initial
              eq_refl sample_ports_in_use eq_refl ltac:(lia))
    as (s' & Hstart & Hport & _).
  exists s'. split; assumption.
Defined.

Lemma restart_round_trip_example :
  exists s1 s2,
    startBridgeServer Sample.listen 0 3849 initial = Some (Resolved 3849, s1) /\
    startBridgeServer Sample.listen 0 4000 s1 = Some (Resolved 3849, s1) /\
    startBridgeServer Sample.listen 0 4000 (stopBridgeServer s1)
    = Some (Resolved 4000, s2).
Proof.
  destruct (restart_round_trip Sample.listen 0 3849 4000 initial
              eq_refl eq_refl eq_refl)
    as (s1 & s2 & H1 & H2 & _ & _ & H3 & _).
  exists s1, s2. repeat split; assumption.
Defined.

Lemma failed_start_example :
  exists s',
    startBridgeServer Sample.listen 0 80 initial
    = Some (Rejected "listen EACCES: permission denied", s') /\
    getBridgePort s' = Some 3847%nat /\
    listening_on s' = None /\
    startBridgeServer (fun _ => Listening) 0 3849 s' = Some (Resolved 3847, s').
Proof.
  destruct (failed_start_leaves_server_set Sample.listen 0 80 0
              "listen EACCES: permission denied" initial
              eq_refl ltac:(intros i Hi; lia) eq_refl ltac:(lia))
    as (s' & Hstart & Hport & Hbound & Hlater).
  exists s'. repeat split; try assumption. apply Hlater.
Defined.

End LifecycleFacts.

(** ** Further properties of the poll loop *)

Module MachineFacts.
Import Js Plugin PluginVocabulary PluginFacts.

(** *** Counting under list updates *)

Lemma filter_length_snoc {A : Type} (p : A -> bool) (l : list A) a :
  length (List.filter p (l ++ [a]))
  = (length (List.filter p l) + (if p a then 1 else 0))%nat.
Proof. rewrite List.filter_app, length_app. simpl. by destruct (p a). Qed.

Lemma filter_length_insert {A : Type} (p : A -> bool) (l : list A) (k : nat) a b :
  l !! k = Some a ->
  (length (List.filter p (<[k:=b]> l)) + (if p a then 1 else 0)
   = length (List.filter p l) + (if p b then 1 else 0))%nat.
Proof.
  revert k. induction l as [|c l IH]; intros k Hk; [done|].
  destruct k as [|k]; simpl in *.
  - injection Hk as ->. destruct (p a), (p b); simpl; lia.
  - specialize (IH k Hk). destruct (p c); simpl; lia.
Qed.

Lemma filter_length_delete {A : Type} (p : A -> bool) (l : list A) (k : nat) a :
  l !! k = Some a ->
  (length (List.filter p (delete k l)) + (if p a then 1 else 0)
   = length (List.filter p l))%nat.
Proof.
  revert k. induction l as [|c l IH]; intros k Hk; [done|].
  destruct k as [|k]; simpl in *.
  - injection Hk as ->. destruct (p a); simpl; lia.
  - specialize (IH k Hk). destruct (p c); simpl; lia.
Qed.

Lemma In_delete {A : Type} (l : list A) (k : nat) a b :
  l !! k = Some b -> a <> b -> In a l -> In a (delete k l).
Proof.
  revert k. induction l as [|c l IH]; intros k Hk Hne Hin; [done|].
  destruct k as [|k]; simpl in *.
  - injection Hk as ->. destruct Hin as [->|Hin]; [contradiction|done].
  - destruct Hin as [->|Hin]; [by left|]. right. by apply (IH k).
Qed.

Section Executor.

Variable Doc : Type.
Variable document_handler : string -> Handler Doc.
Variable Object_prototype : string -> option (Member Doc).
Variable TypeError_message : TypeErrorKind -> string.

Local Abbreviation handlers :=
  (handlers Doc document_handler Object_prototype TypeError_message).
Local Abbreviation run_loop :=
  (run_loop Doc document_handler Object_prototype TypeError_message).
Local Abbreviation step :=
  (step Doc document_handler Object_prototype TypeError_message).
Local Abbreviation run :=
  (run Doc document_handler Object_prototype TypeError_message).
Local Abbreviation Executor := (Executor Doc).

Tactic Notation "fields" :=
  cbn [tasks timers log now isRunning executingCommands BRIDGE_URL document
       emit spawn set_task setTimeout set_running set_bridge set_document
       set_executing drop_timer advance report_failure reschedule].

Tactic Notation "fields" "in" hyp(H) :=
  cbn [tasks timers log now isRunning executingCommands BRIDGE_URL document
       emit spawn set_task setTimeout set_running set_bridge set_document
       set_executing drop_timer advance report_failure reschedule] in H.

(** *** Poll loops are conserved *)

Lemma poll_loops_pollCommands (x : Executor) :
  poll_loops (pollCommands x)
  = (poll_loops x + (if isRunning x then 1 else 0))%nat.
Proof.
  unfold pollCommands, poll_loops. destruct (isRunning x); [|lia].
  fields. rewrite filter_length_snoc. simpl. lia.
Qed.

Lemma finally_tasks ed cmd (x : Executor) : tasks (finally ed cmd x) = tasks x.
Proof. unfold finally. by destruct (guarded ed). Qed.

Lemma poll_loops_finally ed cmd (x : Executor) :
  poll_loops (finally ed cmd x) = poll_loops x.
Proof.
  unfold finally, poll_loops. destruct (guarded ed); [|done].
  fields. rewrite filter_length_snoc. simpl. lia.
Qed.

Lemma poll_loops_set_task k t' (x : Executor) t :
  tasks x !! k = Some t -> in_loop t = in_loop t' ->
  poll_loops (set_task k t' x) = poll_loops x.
Proof.
  intros Hk Hsame. unfold poll_loops. fields.
  pose proof (filter_length_insert in_loop (tasks x) k t t' Hk) as H.
  rewrite Hsame in H. destruct (in_loop t'); lia.
Qed.

Lemma poll_loops_reschedule k (x : Executor) t :
  tasks x !! k = Some t -> in_loop t = true ->
  poll_loops (reschedule k x) = poll_loops x.
Proof.
  intros Hk Hin. unfold poll_loops. fields.
  pose proof (filter_length_insert in_loop (tasks x) k t Finished Hk) as H.
  rewrite Hin in H. rewrite filter_length_snoc. simpl in *. lia.
Qed.

Lemma poll_loops_run_loop ed k cmds (x : Executor) t :
  tasks x !! k = Some t -> in_loop t = true ->
  poll_loops (run_loop ed k cmds x) = poll_loops x.
Proof.
  revert x. induction cmds as [|cmd rest IH]; intros x Hk Hin.
  - by apply (poll_loops_reschedule k x t).
  - cbn [Plugin.run_loop].
    destruct (guarded ed && bool_decide (pc_id cmd ∈ executingCommands x));
      [by apply IH|].
    set (x1 := if guarded ed then _ else x).
    assert (tasks x1 = tasks x /\ poll_loops x1 = poll_loops x) as [Ht Hl]
      by (subst x1; by destruct (guarded ed)).
    clearbody x1. rewrite <- Ht in Hk. rewrite <- Hl.
    destruct (Plugin.handlers _ _ _ _ _) as [[hm hf|]|].
    + destruct (hf _ _) as [out d'].
      by rewrite (poll_loops_set_task k _ _ t).
    + unfold report_failure. by rewrite (poll_loops_set_task k _ _ t).
    + unfold report_failure. by rewrite (poll_loops_set_task k _ _ t).
Qed.

(** X15: poll loops are conserved in the stand-alone plugin. An event
    changes the number of poll loops alive (activations of [pollCommands]
    under way plus scheduled re-polls) by exactly this much: a connection
    probe that settles well adds one; a re-poll timer that fires while
    [isRunning] is off removes one; nothing else changes it. A loop thus
    never dies while the plugin runs, and every further [start] whose probe
    settles well adds a loop that polls beside the ones started before. *)
Theorem poll_loops_are_conserved ev (x : Executor) :
  (poll_loops (step Standalone ev x) + (if closes_loop ev x then 1 else 0)
   = poll_loops x + (if opens_loop ev x then 1 else 0))%nat.
Proof.
  destruct ev as [type url|k failure|k response|k|k failure|k|dt];
    cbn [Plugin.step opens_loop closes_loop].
  - unfold on_message. destruct (String.eqb type "start").
    + unfold poll_loops. fields. rewrite filter_length_snoc. simpl. lia.
    + destruct (String.eqb type "stop"); [|lia].
      unfold poll_loops; fields; lia.
  - destruct (tasks x !! k) as [[url'| | | | |]|] eqn:Hk;
      try (destruct failure; lia).
    unfold on_health. destruct failure as [message|].
    + rewrite (poll_loops_set_task k _ _ (Connecting url')); [|done|done].
      unfold poll_loops. fields. lia.
    + rewrite (poll_loops_set_task k _ _ (Connecting url')); [| |done].
      * unfold poll_loops at 1. fields.
        fold (poll_loops (pollCommands (set_executing ∅ (set_running true (set_bridge url' x))))).
        rewrite poll_loops_pollCommands. unfold poll_loops. fields. lia.
      * fields. unfold pollCommands. fields.
        by apply lookup_app_l_Some.
  - destruct (tasks x !! k) as [[| | | | |]|] eqn:Hk; try lia.
    destruct response as [cmds|].
    + rewrite (poll_loops_run_loop Standalone k cmds x Polling); [lia|done|done].
    + rewrite (poll_loops_reschedule k x Polling); [lia|done|done].
  - destruct (tasks x !! k) as [[| |cmd [result|message] rest| | |]|] eqn:Hk;
      try lia.
    + rewrite (poll_loops_set_task k _ _ (Running cmd (Returned result) rest));
        [|done|done].
      unfold poll_loops. fields. lia.
    + unfold report_failure.
      rewrite (poll_loops_set_task k _ _ (Running cmd (Threw message) rest));
        [|done|done].
      unfold poll_loops. fields. lia.
  - destruct (tasks x !! k) as [[| | |cmd rest|cmd message rest|]|] eqn:Hk;
      try lia; try (destruct failure; lia).
    + destruct failure as [message|].
      * unfold report_failure.
        rewrite (poll_loops_set_task k _ _ (ReportingSuccess cmd rest));
          [|done|done].
        unfold poll_loops. fields. lia.
      * rewrite (poll_loops_run_loop Standalone k rest _ (ReportingSuccess cmd rest));
          [| |done].
        -- rewrite poll_loops_finally. unfold poll_loops. fields. lia.
        -- by rewrite finally_tasks.
    + destruct failure as [message'|].
      * rewrite (poll_loops_reschedule k _ (ReportingFailure cmd message rest));
          [| |done].
        -- rewrite poll_loops_finally. lia.
        -- by rewrite finally_tasks.
      * rewrite (poll_loops_run_loop Standalone k rest _ (ReportingFailure cmd message rest));
          [| |done].
        -- rewrite poll_loops_finally. unfold poll_loops. fields. lia.
        -- by rewrite finally_tasks.
  - destruct (timers x !! k) as [[due a]|] eqn:Hk; [|lia].
    destruct (due <=? now x)%N; [|destruct a; cbn [andb]; lia].
    pose proof (filter_length_delete is_repoll (timers x) k (due, a) Hk) as Hdrop.
    destruct a as [id|]; cbn [fire andb].
    + unfold poll_loops. fields. simpl in Hdrop. lia.
    + rewrite poll_loops_pollCommands. unfold poll_loops. fields.
      simpl in Hdrop. destruct (isRunning x); simpl; lia.
  - unfold poll_loops. fields. lia.
Qed.

(** *** Every id in the set has an owner *)

Lemma owned_split k (x : Executor) id t :
  tasks x !! k = Some t -> owned x id ->
  holds id t = true \/ owned_beside k x id.
Proof.
  intros Hk [(j & t' & Hj & Hh)|Htimer]; [|by right; right].
  destruct (decide (j = k)) as [->|Hne].
  - left. congruence.
  - right. left. by exists j, t'.
Qed.

(** Task [k] moves on to [T]: the ids it does not take along must be owned
    beside it. *)
Lemma no_orphan_set_task k T (x x' : Executor) :
  tasks x' = <[k:=T]> (tasks x) ->
  (k < length (tasks x))%nat ->
  (forall timer, In timer (timers x) -> In timer (timers x')) ->
  (forall id, id ∈ executingCommands x' ->
              holds id T = true \/ owned_beside k x id) ->
  no_orphan x'.
Proof.
  intros Ht Hlen Htimers Hall id Hid.
  destruct (Hall id Hid) as [Hh|[(j & t & Hne & Hj & Hh)|(due & Hin)]].
  - left. exists k, T. split; [|done]. rewrite Ht. by apply list_lookup_insert_eq.
  - left. exists j, t. split; [|done]. rewrite Ht. by rewrite list_lookup_insert_ne.
  - right. exists due. by apply Htimers.
Qed.

(** Nothing is taken from the tasks and timers, nothing added to the set. *)
Lemma no_orphan_grow (x x' : Executor) :
  (forall j t, tasks x !! j = Some t -> tasks x' !! j = Some t) ->
  (forall timer, In timer (timers x) -> In timer (timers x')) ->
  (forall id, id ∈ executingCommands x' -> id ∈ executingCommands x) ->
  no_orphan x -> no_orphan x'.
Proof.
  intros Ht Htimers Hset Hx id Hid.
  destruct (Hx id (Hset id Hid)) as [(j & t & Hj & Hh)|(due & Hin)].
  - left. exists j, t. auto.
  - right. exists due. auto.
Qed.

Lemma run_loop_no_orphan k cmds (x : Executor) :
  (k < length (tasks x))%nat ->
  (forall id, id ∈ executingCommands x -> owned_beside k x id) ->
  no_orphan (run_loop Standalone k cmds x).
Proof.
  revert x. induction cmds as [|cmd rest IH]; intros x Hlen Hx.
  - apply (no_orphan_set_task k Finished x); [done|done| |].
    + intros timer Hin. fields. apply in_or_app. by left.
    + intros id Hid. right. by apply Hx.
  - cbn [Plugin.run_loop guarded andb].
    destruct (bool_decide (pc_id cmd ∈ executingCommands x)); [by apply IH|].
    assert (forall id, id ∈ {[ pc_id cmd ]} ∪ executingCommands x ->
                       String.eqb (pc_id cmd) id = true \/ owned_beside k x id)
      as Hnew.
    { intros id Hid. apply elem_of_union in Hid as [Hid|Hid].
      - left. apply elem_of_singleton in Hid as ->. apply String.eqb_refl.
      - right. by apply Hx. }
    destruct (Plugin.handlers _ _ _ _ _) as [[hm hf|]|].
    + destruct (hf _ _) as [out d'].
      by apply (no_orphan_set_task k (Running cmd out rest) x).
    + unfold report_failure.
      eapply (no_orphan_set_task k _ x); [reflexivity|done|done|exact Hnew].
    + unfold report_failure.
      eapply (no_orphan_set_task k _ x); [reflexivity|done|done|exact Hnew].
Qed.

(** The [finally] block schedules the eviction of the command task [k] was
    working on: what the set holds is then owned beside the task. *)
Lemma finally_releases k cmd t (x : Executor) :
  tasks x !! k = Some t ->
  (forall id, holds id t = true -> id = pc_id cmd) ->
  no_orphan x ->
  forall id, id ∈ executingCommands (finally Standalone cmd x) ->
             owned_beside k (finally Standalone cmd x) id.
Proof.
  intros Hk Hcmd Hx id Hid. unfold finally in *. cbn [guarded] in *.
  fields. fields in Hid.
  destruct (owned_split k x id t Hk (Hx id Hid))
    as [Hh|[(j & t' & Hne & Hj & Hh)|(due & Hin)]].
  - right. exists (now x + EVICTION_DELAY)%N. apply in_or_app. right.
    rewrite (Hcmd id Hh). by left.
  - left. by exists j, t'.
  - right. exists due. apply in_or_app. by left.
Qed.

Lemma no_orphan_step ev (x : Executor) :
  no_orphan x -> no_orphan (step Standalone ev x).
Proof.
  intros Hx.
  destruct ev as [type url|k failure|k response|k|k failure|k|dt];
    cbn [Plugin.step].
  - unfold on_message. destruct (String.eqb type "start").
    + apply (no_orphan_grow x); [|done|done|done].
      intros j t Hj. fields. by apply lookup_app_l_Some.
    + destruct (String.eqb type "stop"); [|done].
      intros id Hid. fields in Hid. by apply elem_of_empty in Hid.
  - destruct (tasks x !! k) as [[url'| | | | |]|] eqn:Hk; try done.
    unfold on_health. destruct failure as [message|].
    + apply (no_orphan_set_task k Finished x); [done| |done|].
      * by eapply lookup_lt_Some.
      * intros id Hid.
        destruct (owned_split k x id _ Hk (Hx id Hid)); [discriminate|by right].
    + intros id Hid. fields in Hid. rewrite pollCommands_executing in Hid.
      fields in Hid. by apply elem_of_empty in Hid.
  - destruct (tasks x !! k) as [[| | | | |]|] eqn:Hk; try done.
    assert (forall id, id ∈ executingCommands x -> owned_beside k x id) as Hbeside.
    { intros id Hid.
      destruct (owned_split k x id _ Hk (Hx id Hid)); [discriminate|done]. }
    destruct response as [cmds|].
    + apply run_loop_no_orphan; [|done]. by eapply lookup_lt_Some.
    + apply (no_orphan_set_task k Finished x); [done| | |].
      * by eapply lookup_lt_Some.
      * intros timer Hin. fields. apply in_or_app. by left.
      * intros id Hid. right. by apply Hbeside.
  - destruct (tasks x !! k) as [[| |cmd [result|message] rest| | |]|] eqn:Hk;
      try done.
    + apply (no_orphan_set_task k (ReportingSuccess cmd rest) x);
        [done| |done|].
      * by eapply lookup_lt_Some.
      * intros id Hid. exact (owned_split k x id _ Hk (Hx id Hid)).
    + apply (no_orphan_set_task k (ReportingFailure cmd message rest) x);
        [done| |done|].
      * by eapply lookup_lt_Some.
      * intros id Hid. exact (owned_split k x id _ Hk (Hx id Hid)).
  - destruct (tasks x !! k) as [[| | |cmd rest|cmd message rest|]|] eqn:Hk;
      try done; try (by destruct failure).
    + destruct failure as [message|].
      * apply (no_orphan_set_task k (ReportingFailure cmd message rest) x);
          [done| |done|].
        -- by eapply lookup_lt_Some.
        -- intros id Hid. exact (owned_split k x id _ Hk (Hx id Hid)).
      * apply run_loop_no_orphan.
        -- rewrite finally_tasks. fields. by eapply lookup_lt_Some.
        -- apply (finally_releases k cmd (ReportingSuccess cmd rest)).
           ++ by fields.
           ++ intros id Hh. symmetry. by apply String.eqb_eq.
           ++ exact Hx.
    + destruct failure as [message'|].
      * apply (no_orphan_set_task k Finished (finally Standalone cmd x)).
        -- done.
        -- rewrite finally_tasks. by eapply lookup_lt_Some.
        -- intros timer Hin. fields. apply in_or_app. by left.
        -- intros id Hid. right. fields in Hid.
           apply (finally_releases k cmd (ReportingFailure cmd message rest));
             try done.
           intros id' Hh. symmetry. by apply String.eqb_eq.
      * apply run_loop_no_orphan.
        -- rewrite finally_tasks. fields. by eapply lookup_lt_Some.
        -- apply (finally_releases k cmd (ReportingFailure cmd message rest)).
           ++ by fields.
           ++ intros id Hh. symmetry. by apply String.eqb_eq.
           ++ exact Hx.
  - destruct (timers x !! k) as [[due a]|] eqn:Hk; [|done].
    destruct (due <=? now x)%N; [|done].
    destruct a as [id0|]; cbn [fire].
    + intros id Hid. fields in Hid.
      apply elem_of_difference in Hid as [Hid Hne].
      rewrite elem_of_singleton in Hne.
      destruct (Hx id Hid) as [Htask|(due' & Hin)]; [by left|].
      right. exists due'. fields.
      apply (In_delete _ k _ (due, Evict id0)); [done| |done]. congruence.
    + intros id Hid. rewrite pollCommands_executing in Hid. fields in Hid.
      destruct (Hx id Hid) as [(j & t & Hj & Hh)|(due' & Hin)].
      * left. exists j, t. split; [|done]. unfold pollCommands.
        destruct (isRunning _); fields; [by apply lookup_app_l_Some|done].
      * right. exists due'.
        assert (In (due', Evict id) (timers (drop_timer k x))) as Hkept.
        { fields. by apply (In_delete _ k _ (due, Repoll)). }
        unfold pollCommands. by destruct (isRunning _).
  - done.
Qed.

(** X16: in the stand-alone plugin every id in [executingCommands] has an
    owner: a task that is still working on a command with that id, or a
    scheduled eviction of that id. This holds in every state reached from a
    state where it held, the initial state in particular; so once no command
    is in flight and no eviction is pending the set is empty, and the set
    cannot grow without bound. *)
Theorem executing_ids_are_owned evs (x : Executor) :
  no_orphan x ->
  no_orphan (run Standalone evs x) /\
  ((forall t, In t (tasks (run Standalone evs x)) ->
              forall id, holds id t = false) ->
   (forall timer, In timer (timers (run Standalone evs x)) ->
                  is_repoll timer = true) ->
   forall id, id ∉ executingCommands (run Standalone evs x)).
Proof.
  intros Hx.
  assert (no_orphan (run Standalone evs x)) as Hrun.
  { revert x Hx. induction evs as [|ev evs IH]; intros x Hx; [done|].
    apply IH. by apply no_orphan_step. }
  split; [done|]. intros Htasks Htimers id Hid.
  destruct (Hrun id Hid) as [(j & t & Hj & Hh)|(due & Hin)].
  - rewrite (Htasks t) in Hh; [discriminate|].
    apply list_elem_of_In. by eapply list_elem_of_lookup_2.
  - by specialize (Htimers _ Hin).
Qed.

(** *** Every handler call is followed by a report *)

Lemma reports_emit id e (x : Executor) :
  reports id (emit e x)
  = (reports id x
     + match e with
       | PostComplete _ id' _ => if String.eqb id' id then 1 else 0
       | _ => 0
       end)%nat.
Proof.
  unfold reports. fields. rewrite filter_length_snoc. f_equal.
  unfold is_report. simpl. destruct e; try done.
Qed.

Lemma running_set_task id k T (x : Executor) t :
  tasks x !! k = Some t ->
  (running id (set_task k T x) + (if awaits_handler id t then 1 else 0)
   = running id x + (if awaits_handler id T then 1 else 0))%nat.
Proof. intros Hk. unfold running. fields. by apply filter_length_insert. Qed.

Lemma running_same id (x y : Executor) :
  tasks x = tasks y -> running id x = running id y.
Proof. unfold running. by intros ->. Qed.

Lemma reports_same id (x y : Executor) :
  log x = log y -> reports id x = reports id y.
Proof. unfold reports. by intros ->. Qed.

Local Abbreviation accounted id x :=
  (invocations id (log x) <= reports id x + running id x)%nat.

Lemma accounted_same id (x y : Executor) :
  tasks y = tasks x -> log y = log x -> accounted id x -> accounted id y.
Proof.
  intros Ht Hl. by rewrite (running_same id y x), (reports_same id y x), Hl.
Qed.

Lemma accounted_emit id e (x : Executor) :
  match e with Invoke _ => False | _ => True end ->
  accounted id x -> accounted id (emit e x).
Proof.
  intros He Hx. rewrite reports_emit, (running_same id (emit e x) x) by done.
  fields. rewrite invocations_snoc. destruct e; try done; lia.
Qed.

Lemma accounted_spawn id t (x : Executor) :
  accounted id x -> accounted id (spawn t x).
Proof.
  intros Hx. rewrite (reports_same id (spawn t x) x) by done.
  unfold running in *. fields. rewrite filter_length_snoc. lia.
Qed.

Lemma accounted_pollCommands id (x : Executor) :
  accounted id x -> accounted id (pollCommands x).
Proof.
  intros Hx. unfold pollCommands. destruct (isRunning x); [|done].
  by apply accounted_spawn, accounted_emit.
Qed.

(** Task [k], which is not waiting for a handler of [id], moves on. *)
Lemma accounted_set_task id k T (x : Executor) t :
  tasks x !! k = Some t -> awaits_handler id t = false ->
  accounted id x -> accounted id (set_task k T x).
Proof.
  intros Hk Ht Hx.
  pose proof (running_set_task id k T x t Hk) as H. rewrite Ht in H.
  rewrite (reports_same id (set_task k T x) x) by done. fields.
  destruct (awaits_handler id T); lia.
Qed.

(** Task [k] calls the handler of [cmd] and waits for it. *)
Lemma accounted_invoke id k cmd out rest (x : Executor) t :
  tasks x !! k = Some t -> awaits_handler id t = false ->
  accounted id x ->
  accounted id (set_task k (Running cmd out rest) (emit (Invoke cmd) x)).
Proof.
  intros Hk Ht Hx.
  pose proof (running_set_task id k (Running cmd out rest) (emit (Invoke cmd) x) t Hk)
    as H.
  rewrite Ht in H. cbn [awaits_handler] in H.
  rewrite (running_same id (emit (Invoke cmd) x) x) in H by done.
  rewrite (reports_same id (set_task k (Running cmd out rest) (emit (Invoke cmd) x))
             (emit (Invoke cmd) x)) by done.
  rewrite reports_emit. fields. rewrite invocations_snoc.
  destruct (String.eqb (pc_id cmd) id); lia.
Qed.

Lemma accounted_run_loop ed k cmds (x : Executor) id t :
  tasks x !! k = Some t -> awaits_handler id t = false ->
  accounted id x -> accounted id (run_loop ed k cmds x).
Proof.
  revert x. induction cmds as [|cmd rest IH]; intros x Hk Ht Hx.
  - cbn [Plugin.run_loop]. unfold reschedule.
    apply (accounted_set_task id k _ _ t); [done|done|].
    by apply (accounted_same id x).
  - cbn [Plugin.run_loop].
    destruct (guarded ed && bool_decide (pc_id cmd ∈ executingCommands x));
      [by apply IH|].
    set (x1 := if guarded ed then _ else x).
    assert (tasks x1 = tasks x /\ log x1 = log x) as [Htasks Hlog]
      by (subst x1; by destruct (guarded ed)).
    clearbody x1.
    assert (accounted id x1) as Hx1 by (by apply (accounted_same id x)).
    rewrite <- Htasks in Hk.
    destruct (Plugin.handlers _ _ _ _ _) as [[hm hf|]|].
    + destruct (hf _ _) as [out d'].
      apply (accounted_invoke id k cmd out rest (set_document d' x1) t);
        [done|done|]. by apply (accounted_same id x1).
    + unfold report_failure.
      apply (accounted_set_task id k _ _ t); [done|done|].
      by apply accounted_emit.
    + unfold report_failure.
      apply (accounted_set_task id k _ _ t); [done|done|].
      by apply accounted_emit.
Qed.

Lemma accounted_finally id ed cmd (x : Executor) :
  accounted id x -> accounted id (finally ed cmd x).
Proof.
  apply accounted_same; [apply finally_tasks|apply finally_log].
Qed.

Lemma accounted_step ed ev (x : Executor) id :
  accounted id x -> accounted id (step ed ev x).
Proof.
  intros Hx.
  destruct ev as [type url|k failure|k response|k|k failure|k|dt];
    cbn [Plugin.step].
  - unfold on_message. destruct (String.eqb type "start").
    + destruct ed.
      * apply accounted_emit; [done|]. apply accounted_pollCommands.
        by apply (accounted_same id x).
      * by apply accounted_spawn, accounted_emit.
    + destruct (String.eqb type "stop"); [|done].
      destruct ed.
      * apply accounted_emit; [done|]. by apply (accounted_same id x).
      * do 2 (apply accounted_emit; [done|]). by apply (accounted_same id x).
  - destruct (tasks x !! k) as [[url'| | | | |]|] eqn:Hk; try done.
    unfold on_health. destruct failure as [message|].
    + apply (accounted_set_task id k _ _ (Connecting url')); [done|done|].
      by do 2 (apply accounted_emit; [done|]).
    + apply (accounted_set_task id k _ _ (Connecting url')); [|done|].
      * fields. unfold pollCommands. fields.
        by apply lookup_app_l_Some.
      * do 2 (apply accounted_emit; [done|]). apply accounted_pollCommands.
        by apply (accounted_same id x).
  - destruct (tasks x !! k) as [[| | | | |]|] eqn:Hk; try done.
    destruct response as [cmds|].
    + by apply (accounted_run_loop ed k cmds x id Polling).
    + unfold reschedule.
      apply (accounted_set_task id k _ _ Polling); [done|done|].
      by apply (accounted_same id x).
  - destruct (tasks x !! k) as [[| |cmd out rest| | |]|] eqn:Hk; try done.
    assert (forall T body,
              awaits_handler id T = false ->
              accounted id
                (set_task k T (emit (PostComplete (BRIDGE_URL x) (pc_id cmd) body) x)))
      as Hreport.
    { intros T body HT.
      pose proof (running_set_task id k T
                    (emit (PostComplete (BRIDGE_URL x) (pc_id cmd) body) x)
                    _ Hk) as H.
      rewrite HT in H. cbn [awaits_handler] in H.
      rewrite (running_same id (emit _ x) x) in H by done.
      rewrite (reports_same id (set_task k T _)
                 (emit (PostComplete (BRIDGE_URL x) (pc_id cmd) body) x))
        by done.
      rewrite reports_emit. fields. rewrite invocations_snoc.
      destruct (String.eqb (pc_id cmd) id); lia. }
    destruct out as [result|message]; [|unfold report_failure]; by apply Hreport.
  - destruct (tasks x !! k) as [[| | |cmd rest|cmd message rest|]|] eqn:Hk;
      try done; try (by destruct failure).
    + destruct failure as [message|].
      * unfold report_failure.
        apply (accounted_set_task id k _ _ (ReportingSuccess cmd rest));
          [done|done|]. by apply accounted_emit.
      * apply (accounted_run_loop ed k rest _ id (ReportingSuccess cmd rest)).
        -- by rewrite finally_tasks.
        -- done.
        -- by apply accounted_finally, accounted_emit.
    + destruct failure as [message'|].
      * unfold reschedule.
        apply (accounted_set_task id k _ _ (ReportingFailure cmd message rest)).
        -- fields. by rewrite finally_tasks.
        -- done.
        -- apply (accounted_same id (finally ed cmd x)); [done|done|].
           by apply accounted_finally.
      * apply (accounted_run_loop ed k rest _ id (ReportingFailure cmd message rest)).
        -- by rewrite finally_tasks.
        -- done.
        -- by apply accounted_finally, accounted_emit.
  - destruct (timers x !! k) as [[due a]|] eqn:Hk; [|done].
    destruct (due <=? now x)%N; [|done].
    destruct a as [id0|]; cbn [fire].
    + by apply (accounted_same id x).
    + apply accounted_pollCommands. by apply (accounted_same id x).
  - by apply (accounted_same id x).
Qed.

(** X17: no handler call is left without a report. In every run, of either
    plugin, the handler calls made for a command id are never more than the
    completion reports sent for that id plus the calls that have not settled
    yet: once the handlers have settled, every call has been followed by a
    POST to the completion route. *)
Theorem calls_are_reported ed evs (x : Executor) id :
  (invocations id (log x) <= reports id x + running id x)%nat ->
  (invocations id (log (run ed evs x))
   <= reports id (run ed evs x) + running id (run ed evs x))%nat.
Proof.
  revert x. induction evs as [|ev evs IH]; intros x Hx; [done|].
  apply IH. by apply accounted_step.
Qed.

(** *** A stopped plugin does not poll *)

Lemma run_loop_quiet ed k cmds (x : Executor) :
  isRunning (run_loop ed k cmds x) = isRunning x /\
  fetches (run_loop ed k cmds x) = fetches x.
Proof.
  revert x. induction cmds as [|cmd rest IH]; intros x; [done|].
  cbn [Plugin.run_loop].
  destruct (guarded ed && bool_decide (pc_id cmd ∈ executingCommands x));
    [apply IH|].
  set (x1 := if guarded ed then _ else x).
  assert (isRunning x1 = isRunning x /\ fetches x1 = fetches x) as [<- <-]
    by (subst x1; by destruct (guarded ed)).
  clearbody x1. unfold fetches.
  destruct (Plugin.handlers _ _ _ _ _) as [[hm hf|]|].
  - destruct (hf _ _) as [out d']. fields.
    by rewrite filter_length_snoc, Nat.add_0_r.
  - fields. by rewrite filter_length_snoc, Nat.add_0_r.
  - fields. by rewrite filter_length_snoc, Nat.add_0_r.
Qed.

Lemma finally_quiet ed cmd (x : Executor) :
  isRunning (finally ed cmd x) = isRunning x /\
  fetches (finally ed cmd x) = fetches x.
Proof. unfold finally. by destruct (guarded ed). Qed.

Lemma stopped_step ed ev (x : Executor) :
  isRunning x = false -> connects ev = false ->
  isRunning (step ed ev x) = false /\ fetches (step ed ev x) = fetches x.
Proof.
  intros Hoff Hev.
  destruct ev as [type url|k failure|k response|k|k failure|k|dt];
    cbn [Plugin.step connects] in *.
  - unfold on_message. rewrite Hev.
    destruct (String.eqb type "stop"); [|done].
    destruct ed; unfold fetches; fields;
      rewrite ?filter_length_snoc; simpl; split; [done|lia|done|lia].
  - destruct failure as [message|]; [|discriminate].
    destruct (tasks x !! k) as [[url'| | | | |]|]; try done.
    unfold on_health, fetches. fields.
    rewrite !filter_length_snoc. simpl. split; [done|lia].
  - destruct (tasks x !! k) as [[| | | | |]|]; try done.
    destruct response as [cmds|]; [|done].
    destruct (run_loop_quiet ed k cmds x) as [-> ->]. done.
  - destruct (tasks x !! k) as [[| |cmd [result|message] rest| | |]|]; try done;
      unfold fetches; fields; rewrite filter_length_snoc; simpl; split; [done|lia|done|lia].
  - destruct (tasks x !! k) as [[| | |cmd rest|cmd message rest|]|];
      try done; try (by destruct failure).
    + destruct failure as [message|].
      * unfold fetches. fields. rewrite filter_length_snoc. simpl. split; [done|lia].
      * match goal with |- context [run_loop ed k rest ?y] =>
          destruct (run_loop_quiet ed k rest y) as [-> ->] end.
        destruct (finally_quiet ed cmd (emit (Notify (NoticeDone (pc_type cmd))) x))
          as [-> ->].
        unfold fetches. fields. rewrite filter_length_snoc. simpl. split; [done|lia].
    + destruct failure as [message'|].
      * unfold reschedule.
        destruct (finally_quiet ed cmd x) as [H1 H2].
        unfold fetches in *. fields. by rewrite H1, H2.
      * match goal with |- context [run_loop ed k rest ?y] =>
          destruct (run_loop_quiet ed k rest y) as [-> ->] end.
        destruct (finally_quiet ed cmd
                    (emit (Notify (NoticeFailed (pc_type cmd) message)) x))
          as [-> ->].
        unfold fetches. fields. rewrite filter_length_snoc. simpl. split; [done|lia].
  - destruct (timers x !! k) as [[due a]|]; [|done].
    destruct (due <=? now x)%N; [|done].
    destruct a as [id0|]; cbn [fire]; [done|].
    unfold pollCommands. fields. by rewrite Hoff.
  - done.
Qed.

(** X18: [stop] halts polling. After a [stop] message, and until a [start]
    message or a connection probe that settles well, the plugin sends no
    request for commands, whatever timers fire and whatever requests and
    handler calls settle; [isRunning] stays off. *)
Theorem stop_halts_polling ed bridgeUrl evs (x : Executor) :
  forallb (fun ev => negb (connects ev)) evs = true ->
  let stopped := step ed (UiMessage "stop" bridgeUrl) x in
  isRunning stopped = false /\
  fetches stopped = fetches x /\
  isRunning (run ed evs stopped) = false /\
  fetches (run ed evs stopped) = fetches x.
Proof.
  intros Hevs stopped.
  assert (isRunning stopped = false /\ fetches stopped = fetches x) as [Hoff Hsame].
  { subst stopped. cbn [Plugin.step]. unfold on_message.
    change (String.eqb "stop" "start") with false.
    change (String.eqb "stop" "stop") with true. cbv iota.
    destruct ed; unfold fetches; fields;
      rewrite ?filter_length_snoc; simpl; split; [done|lia|done|lia]. }
  split; [done|]. split; [done|]. rewrite <- Hsame.
  clearbody stopped. clear Hsame.
  revert stopped Hoff. induction evs as [|ev evs IH]; intros y Hoff; [done|].
  simpl in Hevs. apply andb_prop in Hevs as [Hev Hevs].
  apply negb_true_iff in Hev.
  change (run ed (ev :: evs) y) with (run ed evs (step ed ev y)).
  destruct (stopped_step ed ev y Hoff Hev) as [Hoff' Hsame'].
  destruct (IH Hevs _ Hoff') as [H1 H2]. split; [done|]. by rewrite H2.
Qed.

End Executor.

(** *** Worked examples on the sample host *)

(** Two [start] messages whose probes settle well leave two poll loops
    alive. Both receive the pending command; the guard lets the first one
    dispatch it and the second one pass it over. *)
Example second_start_adds_a_loop :
  let x := Sample.run_plugin Standalone
             (Sample.connected_twice ++
              [ PollSettled 1 (Some [Sample.new_page]);
                PollSettled 3 (Some [Sample.new_page]) ])%list in
  poll_loops (Sample.run_plugin Standalone Sample.connected) = 1%nat /\
  poll_loops (Sample.run_plugin Standalone Sample.connected_twice) = 2%nat /\
  poll_loops x = 2%nat /\
  invocations (pc_id Sample.new_page) (log x) = 1%nat.
Proof. vm_compute. repeat split. Qed.

Lemma boot_no_orphan {Doc : Type} url (d : Doc) : no_orphan (boot url d).
Proof. intros id Hid. by apply elem_of_empty in Hid. Qed.

Lemma executing_ids_are_owned_example :
  no_orphan
    (Sample.run_plugin Standalone
       (Sample.connected_twice ++
        [ PollSettled 1 (Some [Sample.new_page; Sample.coffee]);
          HandlerSettled 1; PostSettled 1 None; PostSettled 1 None ])%list).
Proof.
  exact (proj1 (executing_ids_are_owned Sample.Doc Sample.document_handler
                  Sample.Object_prototype Sample.TypeError_message _ _
                  (boot_no_orphan _ _))).
Defined.

Lemma calls_are_reported_example :
  let id := pc_id Sample.new_page in
  let x := Sample.run_plugin Standalone
             (Sample.connected ++
              [ PollSettled 1 (Some [Sample.new_page]); HandlerSettled 1 ])%list in
  (invocations id (log x) <= reports id x + running id x)%nat.
Proof.
  intros id x.
  apply (calls_are_reported Sample.Doc Sample.document_handler
           Sample.Object_prototype Sample.TypeError_message).
  exact (le_n 0).
Defined.

Lemma stop_halts_polling_example :
  let connected :=
    Sample.run_plugin Standalone (Sample.connected ++ [PollSettled 1 None])%list in
  let later := [ Tick 1000; TimerFired 0;
                 PollSettled 1 (Some [Sample.new_page]); Tick 5000 ] in
  fetches
    (run Sample.Doc Sample.document_handler Sample.Object_prototype
       Sample.TypeError_message Standalone later
       (step Sample.Doc Sample.document_handler Sample.Object_prototype
          Sample.TypeError_message Standalone (UiMessage "stop" JUndefined) connected))
  = 1%nat.
Proof.
  intros connected later.
  pose proof (stop_halts_polling Sample.Doc Sample.document_handler
                Sample.Object_prototype Sample.TypeError_message
                Standalone JUndefined later connected eq_refl) as H.
  cbv zeta in H. destruct H as (_ & _ & _ & ->). reflexivity.
Defined.

End MachineFacts.

(** ** Further properties of the batch handler *)

Module BatchFacts.
Import Js Plugin PluginFacts.

Section Executor.

Variable Doc : Type.
Variable document_handler : string -> Handler Doc.
Variable Object_prototype : string -> option (Member Doc).
Variable TypeError_message : TypeErrorKind -> string.

Local Abbreviation batch_loop := (batch_loop Doc TypeError_message).
Local Abbreviation batch_body := (batch_body Doc TypeError_message).
Local Abbreviation batch :=
  (batch Doc document_handler Object_prototype TypeError_message).
Local Abbreviation handlers :=
  (handlers Doc document_handler Object_prototype TypeError_message).

(** The loop over a list in two parts: a throw in the first part ends it;
    otherwise the second part goes on from the results and the document
    that the first part leaves. *)
Lemma batch_loop_app table a b :
  forall results d,
    match batch_loop table a results d with
    | (Threw message, d') =>
        batch_loop table (a ++ b) results d = (Threw message, d')
    | (Returned v, d') =>
        exists results',
          v = JObj [("batchResults", JArr results')] /\
          batch_loop table (a ++ b) results d = batch_loop table b results' d'
    end.
Proof.
  induction a as [|cmd a IH]; intros results d.
  - cbn [Plugin.batch_loop app]. by exists results.
  - cbn [Plugin.batch_loop app].
    destruct (js_get cmd "type") as [e|type]; [done|].
    destruct (table (js_to_string type)) as [m|]; [|apply IH].
    destruct (run_sub TypeError_message m cmd d) as [out d1]. apply IH.
Qed.

Lemma string_chars_skipped table s :
  table "undefined" = None ->
  forall results d,
    batch_loop table (string_chars s) results d
    = (Returned (JObj [("batchResults", JArr results)]), d).
Proof.
  intros Hnone. induction s as [|c s IH]; intros results d; [done|].
  cbn [string_chars Plugin.batch_loop js_get js_to_string].
  rewrite Hnone. apply IH.
Qed.

(** X19: what the batch handler makes of [params.commands]. With [null] or
    [undefined] parameters it throws before anything is run. A value of
    [commands] that is falsy (absent, [null], [false], [0], the empty text)
    or the empty list gives the empty [batchResults] and leaves the
    document alone; so does a text, whose characters are visited and
    skipped. Any other value ([true], a non-zero number, an object) is not
    iterable: the handler throws and leaves the document alone. *)
Theorem batch_commands_shape params d :
  Object_prototype "undefined" = None ->
  (params = JNull \/ params = JUndefined ->
   batch params d
   = (Threw (TypeError_message (ReadPropertyOf params "commands")), d)) /\
  (forall commands,
     js_get params "commands" = inr commands ->
     (js_truthy commands = false \/ commands = JArr [] \/
      exists s, commands = JStr s) ->
     batch params d = (Returned (JObj [("batchResults", JArr [])]), d)) /\
  (forall commands,
     js_get params "commands" = inr commands ->
     js_truthy commands = true ->
     (forall items, commands <> JArr items) ->
     (forall s, commands <> JStr s) ->
     batch params d = (Threw (TypeError_message (NotIterable commands)), d)).
Proof.
  intros Hproto. rewrite batch_unfold. unfold Plugin.batch_body.
  split; [|split].
  - by intros [->| ->].
  - intros commands -> Hshape.
    assert (handlers "undefined" = None) as Hnone by exact Hproto.
    destruct Hshape as [Hfalsy|[->|[s ->]]].
    + unfold js_or. by rewrite Hfalsy.
    + done.
    + unfold js_or. destruct (js_truthy (JStr s)); [|done].
      cbn [js_iterate]. by apply string_chars_skipped.
  - intros commands -> Htruthy Harr Hstr. unfold js_or. rewrite Htruthy.
    destruct commands as [| |b|n|s|items|fields]; try done.
    + by destruct (Hstr s).
    + by destruct (Harr items).
Qed.


(** X21: a batch inside a batch. A sub-command of type [batch] is run by
    the batch handler itself on its own parameters, and whatever that inner
    run does, a throw included, becomes one entry of the outer batch, which
    completes. *)
Theorem nested_batch_is_one_entry params sub inner d :
  js_get params "commands" = inr (JArr [sub]) ->
  js_get sub "type" = inr (JStr "batch") ->
  js_get sub "params" = inr inner ->
  batch params d
  = (Returned
       (JObj [("batchResults",
               JArr [batch_entry (JStr "batch") (fst (batch inner d))])]),
     snd (batch inner d)).
Proof.
  intros Hget Htype Hparams. rewrite batch_unfold. unfold Plugin.batch_body.
  rewrite Hget. cbn [js_or js_truthy js_iterate Plugin.batch_loop].
  rewrite Htype. cbn [js_to_string]. rewrite handlers_batch.
  unfold run_sub. rewrite Hparams. cbn [call_method own].
  by destruct (batch inner d).
Qed.

End Executor.

Lemma batch_commands_shape_example :
  batch Sample.Doc Sample.document_handler Sample.Object_prototype
    Sample.TypeError_message (JObj [("commands", JStr "create_page")]) []
  = (Returned (JObj [("batchResults", JArr [])]), []) /\
  batch Sample.Doc Sample.document_handler Sample.Object_prototype
    Sample.TypeError_message (JObj [("commands", JNum 3)]) []
  = (Threw "object is not iterable", []).
Proof.
  split.
  - destruct (batch_commands_shape Sample.Doc Sample.document_handler
                Sample.Object_prototype Sample.TypeError_message
                (JObj [("commands", JStr "create_page")]) [] eq_refl)
      as (_ & Hempty & _).
    apply (Hempty (JStr "create_page") eq_refl). right. right. by eexists.
  - destruct (batch_commands_shape Sample.Doc Sample.document_handler
                Sample.Object_prototype Sample.TypeError_message
                (JObj [("commands", JNum 3)]) [] eq_refl)
      as (_ & _ & Hthrow).
    apply (Hthrow (JNum 3) eq_refl eq_refl); discriminate.
Defined.


Lemma nested_batch_example :
  let inner := JObj [("commands", JArr [Sample.sub_command "delete_node"; JNull])] in
  let sub := JObj [("type", JStr "batch"); ("params", inner)] in
  batch Sample.Doc Sample.document_handler Sample.Object_prototype
    Sample.TypeError_message (JObj [("commands", JArr [sub])]) []
  = (Returned
       (JObj [("batchResults",
               JArr [JObj [("type", JStr "batch"); ("success", JBool false);
                           ("error",
                            JStr "Cannot read properties of null (reading type)")]])]),
     ["delete_node"]).
Proof.
  intros inner sub.
  rewrite (nested_batch_is_one_entry Sample.Doc Sample.document_handler
             Sample.Object_prototype Sample.TypeError_message
             (JObj [("commands", JArr [sub])]) sub inner [] eq_refl eq_refl eq_refl).
  reflexivity.
Defined.

End BatchFacts.

(** ** Properties of the page handlers *)

Module PagesFacts.
Import Js Plugin Pages.

Section Host.

Variable Doc : Type.
Variable Page : Type.
Variable root_children : Doc -> list Page.
Variable page_id : Page -> string.
Variable page_name : Doc -> Page -> string.
Variable createPage : Doc -> Page * Doc.
Variable set_name : Page -> JsValue -> Doc -> string + Doc.
Variable remove : Page -> Doc -> string + Doc.
Variable TypeError_message : TypeErrorKind -> string.

(** What is assumed of the host: [createPage] adds one page, naming a page
    changes no page count, and [remove] takes at most one page away. *)
Hypothesis createPage_adds :
  forall d, length (root_children (snd (createPage d))) = S (length (root_children d)).
Hypothesis set_name_keeps :
  forall p v d d', set_name p v d = inr d' ->
                   length (root_children d') = length (root_children d).
Hypothesis remove_takes_one :
  forall p d d', remove p d = inr d' ->
                 (length (root_children d) <= S (length (root_children d')))%nat.

Local Abbreviation create_page :=
  (create_page Doc Page page_id page_name createPage set_name TypeError_message).
Local Abbreviation rename_page :=
  (rename_page Doc Page root_children page_id page_name set_name TypeError_message).
Local Abbreviation delete_page :=
  (delete_page Doc Page root_children page_id page_name remove TypeError_message).
Local Abbreviation page_handlers :=
  (page_handlers Doc Page root_children page_id page_name createPage set_name
     remove TypeError_message).

Lemma create_page_count params d :
  length (root_children (snd (create_page params d))) = S (length (root_children d)).
Proof.
  unfold Pages.create_page. pose proof (createPage_adds d) as Hadd.
  destruct (createPage d) as [page d1]. cbn [snd] in Hadd.
  destruct (js_get params "name") as [e|name]; [done|].
  destruct (set_name page (js_or name (JStr "New Page")) d1) as [message|d2] eqn:Hset;
    [done|].
  cbn [snd]. by rewrite (set_name_keeps _ _ _ _ Hset).
Qed.

Lemma rename_page_count params d :
  length (root_children (snd (rename_page params d))) = length (root_children d).
Proof.
  unfold Pages.rename_page.
  destruct (find_page _ _ _ _ _ _ _ _) as [e|[page|]]; try done.
  destruct (js_get params "name") as [e|name]; [done|].
  destruct (set_name page name d) as [message|d1] eqn:Hset; [done|].
  cbn [snd]. by apply (set_name_keeps _ _ _ _ Hset).
Qed.

Lemma delete_page_count params d :
  (1 <= length (root_children d))%nat ->
  (1 <= length (root_children (snd (delete_page params d))))%nat /\
  (length (root_children d) <= S (length (root_children (snd (delete_page params d)))))%nat.
Proof.
  intros Hone. unfold Pages.delete_page.
  destruct (find_page _ _ _ _ _ _ _ _) as [e|[page|]]; cbn [snd]; try lia.
  destruct (length (root_children d) <=? 1)%nat eqn:Hlast; cbn [snd]; [lia|].
  apply Nat.leb_gt in Hlast.
  destruct (remove page d) as [message|d1] eqn:Hremove; cbn [snd]; [lia|].
  pose proof (remove_takes_one _ _ _ Hremove). lia.
Qed.

(** X22: the page commands never leave the document without a page. On a
    host where [createPage] adds a page, naming keeps the pages and
    [remove] takes at most one, each of [create_page], [rename_page] and
    [delete_page], whatever its parameters and however it ends, leaves at
    least one page in a document that had one; and on a document with a
    single page [delete_page] throws and leaves the document untouched. *)
Theorem pages_never_run_out key handler params d :
  page_handlers key = Some handler ->
  (1 <= length (root_children d))%nat ->
  (1 <= length (root_children (snd (handler params d))))%nat /\
  (length (root_children d) <= 1 ->
   exists message, delete_page params d = (Threw message, d))%nat.
Proof.
  intros Hkey Hone. split.
  - unfold Pages.page_handlers in Hkey.
    destruct (String.eqb key "create_page").
    { injection Hkey as <-. rewrite create_page_count. lia. }
    destruct (String.eqb key "rename_page").
    { injection Hkey as <-. by rewrite rename_page_count. }
    destruct (String.eqb key "delete_page"); [|discriminate].
    injection Hkey as <-. by apply delete_page_count.
  - intros Hlast. unfold Pages.delete_page.
    destruct (find_page _ _ _ _ _ _ _ _) as [e|[page|]]; try by eexists.
    apply Nat.leb_le in Hlast. rewrite Hlast. by eexists.
Qed.

(** X23: [create_page] creates its page before it reads its parameters. On
    the same host every call adds exactly one page to the document, the
    calls that end with an error included: with [null] or [undefined]
    parameters the call throws, and the page is there. *)
Theorem failed_create_page_adds_a_page params d :
  length (root_children (snd (create_page params d))) = S (length (root_children d)) /\
  (params = JNull \/ params = JUndefined ->
   create_page params d
   = (Threw (TypeError_message (ReadPropertyOf params "name")), snd (createPage d))).
Proof.
  split; [apply create_page_count|].
  intros Hparams. unfold Pages.create_page.
  destruct (createPage d) as [page d1]. by destruct Hparams as [->| ->].
Qed.

End Host.

(** *** The sample host keeps the assumptions *)

Lemma sample_createPage_adds d :
  length (Sample.root_children (snd (Sample.createPage d)))
  = S (length (Sample.root_children d)).
Proof.
  unfold Sample.root_children, Sample.createPage. cbn [snd].
  rewrite !length_map, length_app. simpl. lia.
Qed.

Lemma sample_set_name_keeps p v d d' :
  Sample.set_name p v d = inr d' ->
  length (Sample.root_children d') = length (Sample.root_children d).
Proof.
  unfold Sample.set_name, Sample.root_children.
  destruct v; try discriminate. intros [= <-]. cbn [snd].
  by rewrite !length_map.
Qed.

Lemma sample_remove_takes_one p d d' :
  Sample.remove p d = inr d' ->
  (length (Sample.root_children d) <= S (length (Sample.root_children d')))%nat.
Proof.
  unfold Sample.remove, Sample.root_children. intros [= <-]. cbn [snd].
  rewrite !length_map. induction (snd d) as [|entry rest IH]; simpl; [lia|].
  destruct (fst entry =? p)%nat; simpl; lia.
Qed.

Lemma pages_never_run_out_example :
  let delete := JObj [("name", JStr "Page 1")] in
  (1 <= length (Sample.root_children
                  (snd (delete_page Sample.PageDoc nat Sample.root_children
                          Sample.page_id Sample.page_name Sample.remove
                          Sample.TypeError_message delete Sample.one_page))))%nat /\
  delete_page Sample.PageDoc nat Sample.root_children Sample.page_id
    Sample.page_name Sample.remove Sample.TypeError_message delete Sample.one_page
  = (Threw "Cannot delete last page", Sample.one_page).
Proof.
  intros delete.
  destruct (pages_never_run_out Sample.PageDoc nat Sample.root_children
              Sample.page_id Sample.page_name Sample.createPage Sample.set_name
              Sample.remove Sample.TypeError_message
              sample_createPage_adds sample_set_name_keeps sample_remove_takes_one
              "delete_page" _ delete Sample.one_page eq_refl (le_n 1))
    as [Hkept _].
  split; [exact Hkept|reflexivity].
Defined.

Lemma failed_create_page_example :
  let '(out, d) :=
    create_page Sample.PageDoc nat Sample.page_id Sample.page_name
      Sample.createPage Sample.set_name Sample.TypeError_message
      JUndefined Sample.one_page in
  out = Threw "Cannot read properties of null (reading name)" /\
  length (Sample.root_children d) = 2%nat.
Proof.
  destruct (failed_create_page_adds_a_page Sample.PageDoc nat Sample.root_children
              Sample.page_id Sample.page_name Sample.createPage Sample.set_name
              Sample.TypeError_message
              sample_createPage_adds sample_set_name_keeps
              JUndefined Sample.one_page) as [Hcount Hthrow].
  rewrite (Hthrow (or_intror eq_refl)) in *. split; [reflexivity|exact Hcount].
Defined.

(** With two pages, the page removed is the first one that matches the id
    or the name: here the name of the first page wins over the id of the
    second. *)
Example delete_page_takes_first_match :
  delete_page Sample.PageDoc nat Sample.root_children Sample.page_id
    Sample.page_name Sample.remove Sample.TypeError_message
    (JObj [("pageId", JStr "1:0"); ("name", JStr "Cover")]) Sample.two_pages
  = (Returned (JObj [("deleted", JBool true)]), (2%nat, [(1%nat, "Drafts")])).
Proof. vm_compute. reflexivity. Qed.

End PagesFacts.
